(** * The event normalisation and correlation engine of backend/app.py

    A shallow embedding of [map_to_canonical], [normalize],
    [_process_for_correlation], [process_single_domain_incident],
    [orchestrate] (its effect on the event window) and [get_analytics],
    followed by the properties of the engine.

    Modelling conventions.
    - Payloads and events are Python dicts with string keys: association
      lists [dict], read with [get] (Python's [d.get(k, default)]).
    - A value is a JSON value.  Python floats and ints are idealised as
      exact rationals ([VNum]); [True]/[False] count as 1/0 in arithmetic
      and comparisons, as in Python.  The code computes confidences in
      binary64 and overflows on ints beyond the range of binary64: a
      statement that compares a stored confidence with an exact value is
      made within [binary64_range] and with a tolerance that covers the
      rounding, and a statement that a request returns is made for numbers
      within [in_float_range].
    - An operation that raises in Python returns [Raise]; the three global
      lists keep whatever was written to them before the exception.
    - [time.time()] reads a clock [clk] at successive ticks.
    - [str(v)] (used inside f-strings) is a parameter [py_str].
    - A Python [set] is modelled by the list of its distinct elements in
      first-occurrence order; Python does not specify the iteration order. *)

From Stdlib Require Import QArith Qabs Qround Qminmax Lqa Lia ZArith String Ascii List Bool.
From Stdlib Require Import Sorted Permutation.
From stdpp Require Import base decidable option countable gmap strings pretty.

Import ListNotations.
Open Scope string_scope.
Open Scope list_scope.
Open Scope Q_scope.

(** ** Values *)

#[warnings="-register-all"]
Inductive pyval : Type :=
| VNone
| VBool (b : bool)
| VNum (q : Q)
| VStr (s : string)
| VList (l : list pyval)
| VDict (d : list (string * pyval)).

Definition dict : Type := list (string * pyval).
Definition event : Type := dict.

Fixpoint dict_lookup (k : string) (d : dict) : option pyval :=
  match d with
  | [] => None
  | (k', v) :: d' => if String.eqb k k' then Some v else dict_lookup k d'
  end.

(** [d.get(k, dflt)] *)
Definition get (d : dict) (k : string) (dflt : pyval) : pyval :=
  match dict_lookup k d with
  | Some v => v
  | None => dflt
  end.

(** Exceptions. *)
Inductive exn : Type :=
| TypeError | KeyError | AttributeError | ValueError | ZeroDivisionError.

Inductive res (A : Type) : Type :=
| Ok (a : A)
| Raise (e : exn).
Arguments Ok {A} a.
Arguments Raise {A} e.

Definition res_bind {A B} (r : res A) (k : A -> res B) : res B :=
  match r with
  | Ok a => k a
  | Raise e => Raise e
  end.

Declare Scope res_scope.
Delimit Scope res_scope with res.
Notation "x <~ e ;; k" := (res_bind e (fun x => k))
  (at level 100, e at next level, right associativity) : res_scope.

Definition Qltb (x y : Q) : bool := negb (Qle_bool y x).

Definition num_of (v : pyval) : option Q :=
  match v with
  | VBool b => Some (if b then 1 else 0)
  | VNum q => Some q
  | _ => None
  end.

(** Python's [==]. Numbers compare by value across bool/int/float; lists
    element-wise; dicts as maps, whatever the order of their items. *)
Fixpoint py_eq (a b : pyval) {struct a} : bool :=
  match a, b with
  | VNone, VNone => true
  | VStr s, VStr t => String.eqb s t
  | VList l, VList m =>
      (fix go (l m : list pyval) : bool :=
         match l, m with
         | [], [] => true
         | x :: l', y :: m' => py_eq x y && go l' m'
         | _, _ => false
         end) l m
  | VDict d, VDict e =>
      Nat.eqb (length d) (length e) &&
      (fix go (d : list (string * pyval)) : bool :=
         match d with
         | [] => true
         | (k, v) :: d' =>
             match dict_lookup k e with
             | Some w => py_eq v w
             | None => false
             end && go d'
         end) d
  | VBool x, VBool y => Bool.eqb x y
  | VBool x, VNum q => Qeq_bool (if x then 1 else 0) q
  | VNum q, VBool y => Qeq_bool q (if y then 1 else 0)
  | VNum p, VNum q => Qeq_bool p q
  | _, _ => false
  end.

(** Python's [<]: defined between numbers, between strings and between
    lists; everything else raises [TypeError]. *)
Fixpoint py_lt (a b : pyval) {struct a} : res bool :=
  match a, b with
  | VStr s, VStr t => Ok (String.ltb s t)
  | VList l, VList m =>
      (fix go (l m : list pyval) : res bool :=
         match l, m with
         | [], [] => Ok false
         | [], _ :: _ => Ok true
         | _ :: _, [] => Ok false
         | x :: l', y :: m' => if py_eq x y then go l' m' else py_lt x y
         end) l m
  | _, _ =>
      match num_of a, num_of b with
      | Some x, Some y => Ok (Qltb x y)
      | _, _ => Raise TypeError
      end
  end.

(** [a > b] *)
Definition py_gt (a b : pyval) : res bool := py_lt b a.

(** [a - b] *)
Definition py_sub (a b : pyval) : res Q :=
  match num_of a, num_of b with
  | Some x, Some y => Ok (x - y)
  | _, _ => Raise TypeError
  end.

(** Truth value, as used by [or]. *)
Definition truthy (v : pyval) : bool :=
  match v with
  | VNone => false
  | VBool b => b
  | VNum q => negb (Qeq_bool q 0)
  | VStr s => negb (String.eqb s "")
  | VList l => negb (Nat.eqb (length l) 0)
  | VDict d => negb (Nat.eqb (length d) 0)
  end.

(** [a or b] *)
Definition py_or (a b : pyval) : pyval := if truthy a then a else b.

(** Lists and dicts are unhashable: they cannot be set members or dict keys. *)
Definition hashable (v : pyval) : bool :=
  match v with
  | VList _ | VDict _ => false
  | _ => true
  end.

(** [int(x)] of a number: truncation towards zero. *)
Definition py_int (q : Q) : Z :=
  if Qltb q 0 then Qceiling q else Qfloor q.

(** [round(x, 2)]: to the nearest hundredth, ties to the even one. *)
Definition round_half_even (q : Q) : Z :=
  let f := Qfloor q in
  match Qcompare (q - inject_Z f) (1 # 2) with
  | Lt => f
  | Gt => (f + 1)%Z
  | Eq => if Z.even f then f else (f + 1)%Z
  end.

Definition py_round2 (q : Q) : Q := inject_Z (round_half_even (q * 100)) / 100.

(** [s.lower()], on the ASCII letters (the only ones that matter for a
    comparison with an ASCII literal). *)
Definition ascii_lower (c : ascii) : ascii :=
  let n := nat_of_ascii c in
  if (Nat.leb 65 n && Nat.leb n 90)%bool then ascii_of_nat (n + 32) else c.

Fixpoint str_lower (s : string) : string :=
  match s with
  | EmptyString => EmptyString
  | String c s' => String (ascii_lower c) (str_lower s')
  end.

(** ** Incidents and the in-memory stores *)

(** An incident is only ever built by the two constructors of the program,
    so its keys are fixed.  [vendor], [domain] and [is_correlated] exist on
    single-domain incidents only; [inc.get("vendor")] on an incident
    without the key is [None].  On a correlated incident [node_id] holds the
    group key. *)
Record incident : Type := mkIncident {
  incident_id : string;
  vendor : option pyval;
  domain : option pyval;
  node_id : pyval;
  is_correlated : option bool;
  probable_root_cause : string;
  supporting_events : list event;
  confidence : Q;
  explanation : string;
  timestamp : Q;
  is_critical : bool
}.

(** The module-level globals, and the number of clock readings so far. *)
Record world : Type := mkWorld {
  normalized_events : list event;
  incidents : list incident;
  single_domain_incidents : list incident;
  ticks : nat
}.

Definition init : world := mkWorld [] [] [] 0.

Definition set_normalized_events (l : list event) (w : world) : world :=
  mkWorld l (incidents w) (single_domain_incidents w) (ticks w).
Definition set_incidents (l : list incident) (w : world) : world :=
  mkWorld (normalized_events w) l (single_domain_incidents w) (ticks w).
Definition set_single_domain_incidents (l : list incident) (w : world) : world :=
  mkWorld (normalized_events w) (incidents w) l (ticks w).

(** ** Computations: global state, with exceptions that keep the state *)

Definition M (A : Type) : Type := world -> res A * world.

Definition ret {A} (a : A) : M A := fun w => (Ok a, w).
Definition raise {A} (e : exn) : M A := fun w => (Raise e, w).
Definition bind {A B} (m : M A) (k : A -> M B) : M B :=
  fun w =>
    match m w with
    | (Ok a, w') => k a w'
    | (Raise e, w') => (Raise e, w')
    end.
Definition lift {A} (r : res A) : M A := fun w => (r, w).
Definition gets {A} (f : world -> A) : M A := fun w => (Ok (f w), w).
Definition modify (f : world -> world) : M unit := fun w => (Ok tt, f w).

Declare Scope M_scope.
Delimit Scope M_scope with M.
Notation "x <- e ;; k" := (bind e (fun x => k))
  (at level 100, e at next level, right associativity) : M_scope.
Notation "e ;;; k" := (bind e (fun _ => k))
  (at level 100, right associativity) : M_scope.

(** [for x in l: body(x)] *)
Fixpoint for_each {A} (body : A -> M unit) (l : list A) : M unit :=
  match l with
  | [] => ret tt
  | x :: l' => (body x ;;; for_each body l')%M
  end.

(** ** Helpers shared by the correlation pass *)

(** A dict keyed by hashable values, in insertion order. *)
Definition pgroups : Type := list (pyval * list event).

(** [d.setdefault(k, []).append(x)] *)
Fixpoint setdefault_append (k : pyval) (x : event) (d : pgroups) : pgroups :=
  match d with
  | [] => [(k, [x])]
  | (k', xs) :: d' =>
      if py_eq k' k then (k', xs ++ [x]) :: d'
      else (k', xs) :: setdefault_append k x d'
  end.

(** [d[k] = v] on a dict with string keys: an existing key keeps its place. *)
Fixpoint dict_set {A} (k : string) (v : A) (d : list (string * A)) : list (string * A) :=
  match d with
  | [] => [(k, v)]
  | (k', v') :: d' =>
      if String.eqb k' k then (k', v) :: d' else (k', v') :: dict_set k v d'
  end.

(** [x in s] *)
Definition py_in (v : pyval) (s : list pyval) : bool := existsb (py_eq v) s.

(** [set(l)]: raises on an unhashable element. *)
Fixpoint py_set_from (l : list pyval) (acc : list pyval) : res (list pyval) :=
  match l with
  | [] => Ok acc
  | v :: l' =>
      if hashable v
      then py_set_from l' (if py_in v acc then acc else acc ++ [v])
      else Raise TypeError
  end.
Definition py_set (l : list pyval) : res (list pyval) := py_set_from l [].

(** [max(evs, key=lambda x: x.get("timestamp", 0))]: the first event whose
    key is not exceeded; each later key is compared with [>] to the best
    one so far. *)
Fixpoint max_by_timestamp_from (best : event) (rest : list event) : res event :=
  match rest with
  | [] => Ok best
  | e :: rest' =>
      (gt <~ py_gt (get e "timestamp" (VNum 0)) (get best "timestamp" (VNum 0)) ;;
       max_by_timestamp_from (if gt then e else best) rest')%res
  end.
Definition max_by_timestamp (evs : list event) : res event :=
  match evs with
  | [] => Raise ValueError
  | e :: rest => max_by_timestamp_from e rest
  end.

(** [max(values)] and [min(values)] *)
Fixpoint py_max_from (best : pyval) (rest : list pyval) : res pyval :=
  match rest with
  | [] => Ok best
  | v :: rest' =>
      (gt <~ py_gt v best ;; py_max_from (if gt then v else best) rest')%res
  end.
Fixpoint py_min_from (best : pyval) (rest : list pyval) : res pyval :=
  match rest with
  | [] => Ok best
  | v :: rest' =>
      (lt <~ py_lt v best ;; py_min_from (if lt then v else best) rest')%res
  end.
Definition py_max (l : list pyval) : res pyval :=
  match l with
  | [] => Raise ValueError
  | v :: rest => py_max_from v rest
  end.
Definition py_min (l : list pyval) : res pyval :=
  match l with
  | [] => Raise ValueError
  | v :: rest => py_min_from v rest
  end.

(** [e.get("severity", "").lower() == "critical"] *)
Definition severity_is_critical (e : event) : res bool :=
  match get e "severity" (VStr "") with
  | VStr s => Ok (String.eqb (str_lower s) "critical")
  | _ => Raise AttributeError
  end.

(** [any(... for e in events)]: stops at the first critical event. *)
Fixpoint any_critical (events : list event) : res bool :=
  match events with
  | [] => Ok false
  | e :: rest =>
      (c <~ severity_is_critical e ;; if c then Ok true else any_critical rest)%res
  end.

(** [sum(1.2 if e.get("severity") == "major" else 0.8 for e in events)] *)
Definition severity_weight (e : event) : Q :=
  if py_eq (get e "severity" VNone) (VStr "major") then 12 # 10 else 8 # 10.
Fixpoint severity_sum (events : list event) : Q :=
  match events with
  | [] => 0
  | e :: rest => severity_weight e + severity_sum rest
  end.

(** Stable sort by [timestamp], newest first:
    [l.sort(key=lambda x: x.get("timestamp", 0), reverse=True)]. *)
Fixpoint insert_desc (x : incident) (l : list incident) : list incident :=
  match l with
  | [] => [x]
  | y :: l' =>
      if Qltb (timestamp x) (timestamp y) then y :: insert_desc x l' else x :: l
  end.
Definition sort_desc (l : list incident) : list incident :=
  fold_right insert_desc [] l.

(** The [while] loop that drops stale events from the front of the window.
    It returns what is left of the list, also when a comparison raises. *)
Fixpoint evict_front (cutoff : Q) (evs : list event) : res unit * list event :=
  match evs with
  | [] => (Ok tt, [])
  | e :: rest =>
      match dict_lookup "timestamp" e with
      | None => (Raise KeyError, evs)
      | Some t =>
          match py_lt t (VNum cutoff) with
          | Ok true => evict_front cutoff rest
          | Ok false => (Ok tt, evs)
          | Raise x => (Raise x, evs)
          end
      end
  end.

Definition CONFIDENCE_BASE : Q := 7 # 10.
Definition nat_Q (n : nat) : Q := inject_Z (Z.of_nat n).

(** ** The engine *)

Section Engine.

(** [CORRELATION_WINDOW_SECONDS = int(os.getenv(..., "30"))] *)
Variable CORRELATION_WINDOW_SECONDS : Z.
(** The reading of [time.time()] at each tick. *)
Variable clk : nat -> Q.
(** [str(v)], as interpolated by f-strings. *)
Variable py_str : pyval -> string.

Definition window : Q := inject_Z CORRELATION_WINDOW_SECONDS.

Definition time_time : M Q :=
  fun w => (Ok (clk (ticks w)),
            mkWorld (normalized_events w) (incidents w)
                    (single_domain_incidents w) (S (ticks w))).

(** The default [time.time()] of [payload.get("ts", time.time())] is
    evaluated whether or not the key is present. *)
Definition map_to_canonical (payload : dict) : M event :=
  let v := get payload "vendor" (VStr "unknown") in
  if py_eq v (VStr "VendorA") then
    (t <- time_time ;;
     ret [("timestamp", get payload "ts" (VNum t));
          ("vendor", v);
          ("domain", VStr "RAN");
          ("node_id", py_or (get payload "cell" VNone) (get payload "node" VNone));
          ("alarm_type", get payload "desc" VNone);
          ("severity", get payload "severity" (VStr "major"));
          ("metrics", get payload "metrics" (VDict []))])%M
  else if py_eq v (VStr "VendorB") then
    (t <- time_time ;;
     ret [("timestamp", get payload "time" (VNum t));
          ("vendor", v);
          ("domain", VStr "CORE");
          ("node_id", get payload "core_id" VNone);
          ("alarm_type", get payload "alarm" VNone);
          ("severity", get payload "level" (VStr "minor"));
          ("metrics", get payload "metrics" (VDict []))])%M
  else if py_eq v (VStr "VendorC") then
    (t <- time_time ;;
     ret [("timestamp", get payload "ts" (VNum t));
          ("vendor", v);
          ("domain", VStr "TRANSPORT");
          ("node_id", py_or (get payload "link" VNone) (get payload "node" VNone));
          ("alarm_type", get payload "type" VNone);
          ("severity", get payload "severity" (VStr "minor"));
          ("metrics", get payload "metrics" (VDict []))])%M
  else
    (t <- time_time ;;
     ret [("timestamp", get payload "ts" (VNum t));
          ("vendor", v);
          ("domain", get payload "domain" (VStr "UNKNOWN"));
          ("node_id", get payload "node_id" (VStr "unknown"));
          ("alarm_type", get payload "alarm_type" (VStr "unknown"));
          ("severity", get payload "severity" (VStr "minor"));
          ("metrics", get payload "metrics" (VDict []))])%M.

(** *** The single-domain deduplicator *)

(** The condition of the [for inc in single_domain_incidents] loop. *)
Definition is_recent_for (vendor' node_id' : pyval) (recent_cutoff : Q)
    (inc : incident) : bool :=
  py_eq (default VNone (vendor inc)) vendor' &&
  py_eq (node_id inc) node_id' &&
  Qltb recent_cutoff (timestamp inc).

(** The three assignments of the update branch. *)
Definition refresh (ev : event) (ts : Q) (expl : string) (inc : incident) : incident :=
  mkIncident (incident_id inc) (vendor inc) (domain inc) (node_id inc)
             (is_correlated inc) (probable_root_cause inc)
             [ev] (confidence inc) expl ts (is_critical inc).

(** The loop: the first recent incident for the pair is updated in place and
    the function returns; [None] when the loop falls through. *)
Fixpoint update_recent (vendor' node_id' : pyval) (recent_cutoff : Q)
    (upd : incident -> incident) (l : list incident) : option (list incident) :=
  match l with
  | [] => None
  | inc :: rest =>
      if is_recent_for vendor' node_id' recent_cutoff inc
      then Some (upd inc :: rest)
      else option_map (cons inc) (update_recent vendor' node_id' recent_cutoff upd rest)
  end.

(** [int(timestamp)] followed by [timestamp - 60]: together they go through
    for numbers only (a numeric string passes [int] and fails at the
    subtraction), and nothing is written in between. *)
Definition numeric (v : pyval) : res Q :=
  match num_of v with
  | Some q => Ok q
  | None => Raise TypeError
  end.

(** Lines 502-529: the incident created when no recent one exists. *)
Definition new_single_domain_incident (ev : event) (ts : Q) (is_critical' : bool)
    : incident :=
  let vendor' := get ev "vendor" (VStr "Unknown") in
  let domain' := get ev "domain" (VStr "Unknown") in
  let node_id' := get ev "node_id" (VStr "unknown") in
  let alarm_type := get ev "alarm_type" (VStr "unknown") in
  let incident_id' :=
    ("INC-" ++ py_str vendor' ++ "-" ++ py_str node_id' ++ "-"
       ++ py_str (VNum (inject_Z (py_int ts))))%string in
  let confidence' := if is_critical' then 85 # 100 else 6 # 10 in
  let root_cause := (py_str domain' ++ " issue: " ++ py_str alarm_type)%string in
  let explanation' :=
    ("Single " ++ py_str domain' ++ " issue on " ++ py_str node_id')%string in
  mkIncident incident_id' (Some vendor') (Some domain') node_id'
    (Some false)
    (if is_critical' then ("CRITICAL: " ++ root_cause)%string else root_cause)
    [ev] confidence'
    (if is_critical' then ("CRITICAL ALERT: " ++ explanation')%string
     else explanation')
    ts is_critical'.

Definition process_single_domain_incident (ev : event) : M unit :=
  let vendor' := get ev "vendor" (VStr "Unknown") in
  let domain' := get ev "domain" (VStr "Unknown") in
  let node_id' := get ev "node_id" (VStr "unknown") in
  (t <- time_time ;;
   ts <- lift (numeric (get ev "timestamp" (VNum t))) ;;
   let recent_cutoff := ts - 60 in
   sdi <- gets single_domain_incidents ;;
   match update_recent vendor' node_id' recent_cutoff
           (refresh ev ts ("Updated " ++ py_str domain' ++ " issue on "
                             ++ py_str node_id')%string) sdi with
   | Some sdi' => modify (set_single_domain_incidents sdi')
   | None =>
       is_critical' <- lift (severity_is_critical ev) ;;
       modify (fun w => set_single_domain_incidents
                          (single_domain_incidents w
                             ++ [new_single_domain_incident ev ts is_critical']) w)
   end)%M.

(** *** The correlation pass *)

(** Lines 92-93. *)
Definition evict_events (cutoff : Q) : M unit :=
  fun w =>
    let '(r, evs) := evict_front cutoff (normalized_events w) in
    (r, set_normalized_events evs w).

(** [[inc for inc in l if inc.get("timestamp", 0) > old_incident_cutoff]] *)
Definition newer_than (old_incident_cutoff : Q) (l : list incident) : list incident :=
  List.filter (fun inc => Qltb old_incident_cutoff (timestamp inc)) l.

(** [if len(l) > cap: l.sort(..., reverse=True); l = l[:cap]] *)
Definition cap_newest (cap : nat) (l : list incident) : list incident :=
  if Nat.ltb cap (length l) then firstn cap (sort_desc l) else l.

(** Lines 114-118. *)
Fixpoint group_by_node (evs : list event) (node_grouped : pgroups) : res pgroups :=
  match evs with
  | [] => Ok node_grouped
  | e :: rest =>
      let node_id' := get e "node_id" (VStr "unknown") in
      if negb (py_eq node_id' (VStr "unknown")) then
        if hashable node_id'
        then group_by_node rest (setdefault_append node_id' e node_grouped)
        else Raise TypeError
      else group_by_node rest node_grouped
  end.

(** Lines 121-124. *)
Fixpoint group_by_domain (evs : list event) (domains_grouped : pgroups) : res pgroups :=
  match evs with
  | [] => Ok domains_grouped
  | e :: rest =>
      let domain' := get e "domain" (VStr "UNKNOWN") in
      if hashable domain'
      then group_by_domain rest (setdefault_append domain' e domains_grouped)
      else Raise TypeError
  end.

(** Lines 139-144: the most recent event of each domain of the node. *)
Fixpoint most_recent_per_domain (events : list event) (domains : list pyval)
    : res (list event) :=
  match domains with
  | [] => Ok []
  | domain' :: rest =>
      let domain_events :=
        List.filter (fun e => py_eq (get e "domain" (VStr "UNKNOWN")) domain') events in
      match domain_events with
      | [] => most_recent_per_domain events rest
      | _ :: _ =>
          (most_recent <~ max_by_timestamp domain_events ;;
           others <~ most_recent_per_domain events rest ;;
           Ok (most_recent :: others))%res
      end
  end.

(** Lines 156-160: the most recent event of each domain of the window. *)
Fixpoint most_recent_each (groups : list (list event)) : res (list event) :=
  match groups with
  | [] => Ok []
  | domain_events :: rest =>
      match domain_events with
      | [] => most_recent_each rest
      | _ :: _ =>
          (most_recent <~ max_by_timestamp domain_events ;;
           others <~ most_recent_each rest ;;
           Ok (most_recent :: others))%res
      end
  end.

(** Lines 130-148. *)
Fixpoint node_loop (node_grouped : pgroups) (grouped : list (string * list event))
    : M (list (string * list event)) :=
  match node_grouped with
  | [] => ret grouped
  | (node_id', events) :: rest =>
      (domains <- lift (py_set (map (fun e => get e "domain" (VStr "UNKNOWN")) events)) ;;
       if Nat.leb 2 (length domains) then
         let key := ("node-" ++ py_str node_id')%string in
         reps <- lift (most_recent_per_domain events domains) ;;
         node_loop rest (dict_set key reps grouped)
       else
         for_each process_single_domain_incident events ;;;
         node_loop rest grouped)%M
  end.

(** Lines 151-160. *)
Definition cross_domain (domains_grouped : pgroups)
    (grouped : list (string * list event)) : M (list (string * list event)) :=
  if Nat.leb 2 (length domains_grouped) then
    (t <- time_time ;;
     let timestamp' := py_int t in
     let key := ("cross-domain-" ++ py_str (VNum (inject_Z (timestamp' mod 100))))%string in
     reps <- lift (most_recent_each (map snd domains_grouped)) ;;
     ret (dict_set key reps grouped))%M
  else ret grouped.

(** Lines 175-177. *)
Definition severity_factor (events : list event) : Q :=
  severity_sum events / nat_Q (length events).

Definition temporal_proximity (events : list event) : res Q :=
  let stamps := map (fun e => get e "timestamp" (VNum 0)) events in
  (hi <~ py_max stamps ;;
   lo <~ py_min stamps ;;
   span <~ py_sub hi lo ;;
   if Z.eqb CORRELATION_WINDOW_SECONDS 0 then Raise ZeroDivisionError
   else Ok (1 - span / window))%res.

(** Lines 180-185. *)
Definition root_cause_of (domains : list pyval) : string :=
  if py_in (VStr "TRANSPORT") domains &&
     (py_in (VStr "RAN") domains || py_in (VStr "CORE") domains)
  then "Cross-domain congestion in transport layer"
  else if py_in (VStr "RAN") domains && py_in (VStr "CORE") domains
  then "End-to-end connectivity issue"
  else "Domain-specific degradation".

(** Lines 191-196. *)
Definition raw_confidence (events : list event) (domains : list pyval)
    (tp : Q) (has_critical : bool) : Q :=
  Qmin (99 # 100)
       (CONFIDENCE_BASE
        + (1 # 10) * nat_Q (length events)
        + (5 # 100) * nat_Q (length domains)
        + (1 # 10) * severity_factor events
        + (1 # 10) * tp
        + (if has_critical then 3 # 10 else 0)).

(** Lines 174-214: the incident built from one group. *)
Definition synthesize (key : string) (events : list event) (domains : list pyval)
    : M incident :=
  (tp <- lift (temporal_proximity events) ;;
   has_critical <- lift (any_critical events) ;;
   let confidence' := raw_confidence events domains tp has_critical in
   let probable_rc := root_cause_of domains in
   let summary :=
     (py_str (VNum (nat_Q (length events))) ++ " correlated events across domains "
        ++ py_str (VList domains))%string in
   t1 <- time_time ;;
   t2 <- time_time ;;
   ret (mkIncident
          ("INC-" ++ key ++ "-" ++ py_str (VNum (inject_Z (py_int t1))))%string
          None None (VStr key) None
          (if has_critical then ("CRITICAL: " ++ probable_rc)%string else probable_rc)
          events
          (py_round2 (Qmin confidence' (99 # 100)))
          (if has_critical then ("CRITICAL ALERT: " ++ summary)%string else summary)
          t2 has_critical))%M.

(** Lines 218-219: replace any incident of the same key, then append. *)
Definition upsert (key : string) (inc : incident) (l : list incident) : list incident :=
  List.filter (fun old => negb (py_eq (node_id old) (VStr key))) l ++ [inc].

(** Lines 162-220. *)
Fixpoint synth_loop (grouped : list (string * list event))
    (new_incidents : list incident) : M (list incident) :=
  match grouped with
  | [] => ret new_incidents
  | (key, events) :: rest =>
      (vendors <- lift (py_set (map (fun ev => get ev "vendor" VNone) events)) ;;
       domains <- lift (py_set (map (fun ev => get ev "domain" VNone) events)) ;;
       if Nat.leb 2 (length events) && Nat.leb 2 (length domains) then
         inc <- synthesize key events domains ;;
         modify (fun w => set_incidents (upsert key inc (incidents w)) w) ;;;
         synth_loop rest (new_incidents ++ [inc])
       else synth_loop rest new_incidents)%M
  end.

(** Lines 95-107: age eviction, then the caps. *)
Definition retention (now : Q) : M unit :=
  let old_incident_cutoff := now - window * 2 in
  (modify (fun w => set_incidents (newer_than old_incident_cutoff (incidents w)) w) ;;;
   modify (fun w => set_single_domain_incidents
                      (newer_than old_incident_cutoff (single_domain_incidents w)) w) ;;;
   modify (fun w => set_incidents (cap_newest 50 (incidents w)) w) ;;;
   modify (fun w => set_single_domain_incidents
                      (cap_newest 100 (single_domain_incidents w)) w))%M.

(** Lines 113-223: grouping and synthesis over the current window. *)
Definition correlate : M (list incident) :=
  (evs <- gets normalized_events ;;
   node_grouped <- lift (group_by_node evs []) ;;
   domains_grouped <- lift (group_by_domain evs []) ;;
   grouped <- node_loop node_grouped [] ;;
   grouped <- cross_domain domains_grouped grouped ;;
   synth_loop grouped [])%M.

(** The parameter [event] is not used by the body. *)
Definition _process_for_correlation (event' : event) : M (list incident) :=
  (now <- time_time ;;
   let cutoff := now - window in
   evict_events cutoff ;;;
   retention now ;;;
   correlate)%M.

(** Lines 72-74: the normalized event is stored, then the pass runs. *)
Definition ingest (norm : event) : M (list incident) :=
  (modify (fun w => set_normalized_events (normalized_events w ++ [norm]) w) ;;;
   _process_for_correlation norm)%M.

(** [POST /normalize], from the decoded payload on. *)
Definition normalize (payload : dict) : M event :=
  (norm <- map_to_canonical payload ;;
   ingest norm ;;;
   ret norm)%M.

(** [POST /orchestrate]: two clock readings, then the logged event. *)
Definition orchestrate (action : dict) : M unit :=
  (t1 <- time_time ;;
   t2 <- time_time ;;
   target <- lift (match get action "params" (VDict []) with
                   | VDict params => Ok (get params "target" (VStr "orchestrator"))
                   | _ => Raise AttributeError
                   end) ;;
   modify (fun w => set_normalized_events
     (normalized_events w ++
        [[("timestamp", VNum t2); ("vendor", VStr "VISION");
          ("domain", VStr "ORCHESTRATOR"); ("node_id", target);
          ("alarm_type", VStr ("ORCH_" ++ py_str (get action "action" VNone))%string);
          ("severity", VStr "info"); ("metrics", VDict [])]]) w))%M.

(** The requests that write to the stores, and the states they reach. *)
Inductive request : Type :=
| Normalize (payload : dict)
| Orchestrate (action : dict).

Definition handle (r : request) (w : world) : world :=
  match r with
  | Normalize payload => snd (normalize payload w)
  | Orchestrate action => snd (orchestrate action w)
  end.

Inductive reachable : world -> Prop :=
| reach_init : reachable init
| reach_step (r : request) (w : world) : reachable w -> reachable (handle r w).

End Engine.

(** ** The analytics rollup *)

(** The identity of a hashable value as a set member or dict key: equal
    numbers are one key, whatever their Python type. *)
Inductive hkey : Type :=
| HNone
| HNum (n : Z) (d : positive)
| HStr (s : string).

#[global] Instance hkey_eq_dec : EqDecision hkey.
Proof. solve_decision. Defined.

#[global] Instance hkey_countable : Countable hkey.
Proof.
  refine (inj_countable'
    (fun k => match k with
              | HNone => inl tt
              | HNum n d => inr (inl (n, d))
              | HStr s => inr (inr s)
              end)
    (fun x => match x with
              | inl _ => HNone
              | inr (inl (n, d)) => HNum n d
              | inr (inr s) => HStr s
              end) _).
  intros []; reflexivity.
Defined.

Definition key_of (v : pyval) : option hkey :=
  match v with
  | VNone => Some HNone
  | VBool b => Some (HNum (if b then 1 else 0) 1)
  | VNum q => Some (HNum (Qnum (Qred q)) (Qden (Qred q)))
  | VStr s => Some (HStr s)
  | VList _ | VDict _ => None
  end.

Record analytics : Type := mkAnalytics {
  vendor_counts : gmap hkey nat;
  type_counts : gmap hkey nat;
  total_incidents : nat;
  network_health : string
}.

(** [counts[k] = counts.get(k, 0) + 1] *)
Definition incr (k : hkey) (counts : gmap hkey nat) : gmap hkey nat :=
  <[k := (default 0 (counts !! k) + 1)%nat]> counts.

(** Lines 453-457: the vendors and the domains of one incident. *)
Fixpoint event_keys (evs : list event) (inc_vendors inc_domains : gset hkey)
    : res (gset hkey * gset hkey) :=
  match evs with
  | [] => Ok (inc_vendors, inc_domains)
  | ev :: rest =>
      match key_of (get ev "vendor" (VStr "Unknown")),
            key_of (get ev "domain" (VStr "Unknown")) with
      | Some v, Some d => event_keys rest ({[v]} ∪ inc_vendors) ({[d]} ∪ inc_domains)
      | _, _ => Raise TypeError
      end
  end.

(** Lines 448-463. *)
Fixpoint rollup (all_incidents : list incident) (vc tc : gmap hkey nat)
    : res (gmap hkey nat * gmap hkey nat) :=
  match all_incidents with
  | [] => Ok (vc, tc)
  | inc :: rest =>
      match event_keys (supporting_events inc) ∅ ∅ with
      | Ok (inc_vendors, inc_domains) =>
          rollup rest (set_fold incr vc inc_vendors) (set_fold incr tc inc_domains)
      | Raise e => Raise e
      end
  end.

Definition health_of (total : nat) : string :=
  if Nat.ltb total 5 then "Healthy"
  else if Nat.ltb total 15 then "Warning"
  else "Critical".

(** [GET /analytics] *)
Definition get_analytics (w : world) : res analytics :=
  match incidents w with
  | [] => Ok (mkAnalytics ∅ ∅ 0 "Unknown")
  | _ :: _ =>
      let all_incidents := incidents w ++ single_domain_incidents w in
      match rollup all_incidents ∅ ∅ with
      | Ok (vc, tc) =>
          Ok (mkAnalytics vc tc (length all_incidents)
                          (health_of (length all_incidents)))
      | Raise e => Raise e
      end
  end.

(** * Definitions used to state the properties *)


(** [keeps Inv m]: [m] maintains the property [Inv] of the correlated
    store, whether it returns or raises. *)
Definition keeps (Inv : list incident -> Prop) {A} (m : M A) : Prop :=
  forall w, Inv (incidents w) -> Inv (incidents (snd (m w))).

(** [untouched m]: [m] never writes the correlated store. *)
Definition untouched {A} (m : M A) : Prop :=
  forall w, incidents (snd (m w)) = incidents w.

(** Newest first. *)
Definition descending (l : list incident) : Prop :=
  StronglySorted (fun a b => timestamp b <= timestamp a) l.

(** What the cap drops. *)
Definition cap_dropped (cap : nat) (l : list incident) : list incident :=
  if Nat.ltb cap (length l) then skipn cap (sort_desc l) else [].

Definition keys (l : list incident) : list pyval := map node_id l.

Definition numval (v : pyval) : Q := default 0 (num_of v).

(** The numeric value of an event's timestamp. *)
Definition stamp (e : event) : Q := numval (get e "timestamp" (VNum 0)).

Fixpoint Qmax_list (best : Q) (l : list Q) : Q :=
  match l with
  | [] => best
  | v :: l' => Qmax_list (Qmax best v) l'
  end.

Fixpoint Qmin_list (best : Q) (l : list Q) : Q :=
  match l with
  | [] => best
  | v :: l' => Qmin_list (Qmin best v) l'
  end.

(** The largest and the smallest timestamp of a group. *)
Definition max_stamp (events : list event) : Q :=
  match events with
  | [] => 0
  | e :: rest => Qmax_list (stamp e) (map stamp rest)
  end.

Definition min_stamp (events : list event) : Q :=
  match events with
  | [] => 0
  | e :: rest => Qmin_list (stamp e) (map stamp rest)
  end.

(** The severity test of the code: case-insensitive. *)
Definition is_critical_lower (e : event) : bool :=
  match get e "severity" (VStr "") with
  | VStr s => String.eqb (str_lower s) "critical"
  | _ => false
  end.



(** The distinct values of a list, in first-occurrence order. *)
Definition distinct (l : list pyval) : list pyval :=
  fold_left (fun acc v => if py_in v acc then acc else acc ++ [v]) l [].

Definition distinct_domains (events : list event) : nat :=
  length (distinct (map (fun ev => get ev "domain" VNone) events)).



(** The code computes the score in binary64 and stores [round(x, 2)] of
    it, where this development computes in exact rationals.  The two
    agree up to the rounding errors of binary64, which can move the stored
    value to the neighbouring hundredth when the exact score is close to a
    tie.  [binary64_range] is the range in which those errors stay far
    below half a hundredth: at most a million events, timestamps of
    magnitude at most 2^53 (where binary64 holds every integer) and a
    span of at most a million windows.  The statements that compare a
    stored confidence with an exact value are made within this range and
    with a tolerance that covers the rounding. *)
Definition binary64_range (W : Z) (events : list event) : Prop :=
  (Z.of_nat (length events) <= 1000000)%Z /\
  Forall (fun e => Qabs (stamp e) <= inject_Z (2 ^ 53)) events /\
  max_stamp events - min_stamp events <= inject_Z (1000000 * Z.abs W).

(** [str(v)]: exact on [None], booleans, integers and strings; the items of
    a list are shown as [repr] does, strings quoted; a number that is not
    an integer is shown as a fraction. *)
Fixpoint render (quoted : bool) (v : pyval) : string :=
  match v with
  | VNone => "None"
  | VBool true => "True"
  | VBool false => "False"
  | VNum q =>
      if Qeq_bool q (inject_Z (Qfloor q)) then pretty (Qfloor q)
      else (pretty (Qnum q) ++ "/" ++ pretty (Zpos (Qden q)))%string
  | VStr s => if quoted then ("'" ++ s ++ "'")%string else s
  | VList l =>
      ("[" ++ (fix items (l : list pyval) : string :=
                 match l with
                 | [] => ""
                 | [x] => render true x
                 | x :: l' => render true x ++ ", " ++ items l'
                 end) l ++ "]")%string
  | VDict _ => "{...}"
  end.

Definition py_str_of (v : pyval) : string := render false v.

(** A clock that stands at 1000 s. *)
Definition clock_1000 (n : nat) : Q := 1000.

(** The states reached by a list of requests, window 30 s. *)
Definition run (rs : list request) : world :=
  fold_left (fun w r => handle 30 clock_1000 py_str_of r w) rs init.

(** A RAN alarm of VendorA and a CORE alarm of VendorB. *)
Definition ran_alarm (cell : string) (ts : Q) (severity : string) : dict :=
  [("vendor", VStr "VendorA"); ("cell", VStr cell); ("ts", VNum ts);
   ("severity", VStr severity); ("desc", VStr "RTT_SPIKE")].

Definition core_alarm (core_id : string) (ts : Q) (level : string) : dict :=
  [("vendor", VStr "VendorB"); ("core_id", VStr core_id); ("time", VNum ts);
   ("level", VStr level); ("alarm", VStr "CPU_HIGH")].

(** A fresh RAN alarm on Cell-1, then a CORE alarm on the same node whose
    timestamp is 90 s old and whose level is spelled in capitals. *)
Definition stale_capital_run : world :=
  run [Normalize (ran_alarm "Cell-1" 1000 "minor");
       Normalize (core_alarm "Cell-1" 910 "CRITICAL")].

(** The same with a lower-case level and a timestamp 990 s old. *)
Definition very_stale_run : world :=
  run [Normalize (ran_alarm "Cell-1" 1000 "minor");
       Normalize (core_alarm "Cell-1" 10 "minor")].

(** A RAN alarm and a CORE alarm on Cell-1, two seconds apart. *)
Definition scenario_run : world :=
  run [Normalize (ran_alarm "Cell-1" 998 "major");
       Normalize (core_alarm "Cell-1" 1000 "critical")].

Definition scenario_incident : incident :=
  Eval vm_compute in
    match incidents scenario_run with
    | inc :: _ => inc
    | [] => mkIncident "" None None VNone None "" [] 0 "" 0 false
    end.

(** The state after one reading of the clock. *)
Definition tick (w : world) : world :=
  mkWorld (normalized_events w) (incidents w) (single_domain_incidents w) (S (ticks w)).

(** The state after one minor RAN alarm on Cell-1, the single-domain
    incident it creates, and a critical alarm of the same vendor and node. *)
Definition one_minor_alarm_run : world :=
  run [Normalize (ran_alarm "Cell-1" 995 "minor")].

Definition critical_event : event :=
  [("timestamp", VNum 1000); ("vendor", VStr "VendorA"); ("domain", VStr "RAN");
   ("node_id", VStr "Cell-1"); ("alarm_type", VStr "RTT_SPIKE");
   ("severity", VStr "critical"); ("metrics", VDict [])].

Definition minor_incident : incident :=
  Eval vm_compute in
    match single_domain_incidents one_minor_alarm_run with
    | inc :: _ => inc
    | [] => mkIncident "" None None VNone None "" [] 0 "" 0 false
    end.

(** The score before the critical boost, the cap and the rounding. *)
Definition uncapped_score (W : Z) (events : list event) : Q :=
  CONFIDENCE_BASE
  + (1 # 10) * nat_Q (length events)
  + (5 # 100) * nat_Q (distinct_domains events)
  + (1 # 10) * severity_factor events
  + (1 # 10) * (1 - (max_stamp events - min_stamp events) / inject_Z W).

Definition canonical_event (ts : Q) (vendor' domain' node severity : string) : event :=
  [("timestamp", VNum ts); ("vendor", VStr vendor'); ("domain", VStr domain');
   ("node_id", VStr node); ("alarm_type", VStr "ALARM");
   ("severity", VStr severity); ("metrics", VDict [])].

(** Two groups that differ in the severity of one event only. *)
Definition group_with (ts : Q) (severity : string) : list event :=
  [canonical_event 1000 "VendorA" "RAN" "Cell-1" "minor";
   canonical_event ts "VendorB" "CORE" "Cell-1" severity].

Definition incident_of (events : list event) : incident :=
  match fst (synthesize 30 clock_1000 py_str_of "node-Cell-1" events
               [VStr "RAN"; VStr "CORE"] init) with
  | Ok inc => inc
  | Raise _ => mkIncident "" None None VNone None "" [] 0 "" 0 false
  end.

Definition vendor_key (ev : event) : option hkey :=
  key_of (get ev "vendor" (VStr "Unknown")).
Definition domain_key (ev : event) : option hkey :=
  key_of (get ev "domain" (VStr "Unknown")).

(** The incident has a supporting event of vendor (of domain) [k]. *)
Definition mentions_vendor (k : hkey) (inc : incident) : bool :=
  bool_decide (Some k ∈ map vendor_key (supporting_events inc)).
Definition mentions_domain (k : hkey) (inc : incident) : bool :=
  bool_decide (Some k ∈ map domain_key (supporting_events inc)).

(** The entry of a count dict for a key counted [n] times. *)
Definition entry (n : nat) : option nat := if Nat.eqb n 0 then None else Some n.

(** The vendors and domains of the supporting events are hashable. *)
Definition scalar_keys (inc : incident) : Prop :=
  Forall (fun ev => hashable (get ev "vendor" (VStr "Unknown")) = true /\
                    hashable (get ev "domain" (VStr "Unknown")) = true)
         (supporting_events inc).

(** A count dict that holds, for each key, the number [base k] so far. *)
Definition counts_are (counts : gmap hkey nat) (base : hkey -> nat) : Prop :=
  forall k, counts !! k = entry (base k).











Section EnginePredicates.

Variable CORRELATION_WINDOW_SECONDS : Z.
Variable clk : nat -> Q.
Variable py_str : pyval -> string.

(** An incident that the synthesis loop can insert under [key]. *)
Definition synthesized (key : string) (events : list event) (inc : incident) : Prop :=
  exists domains w,
    py_set (map (fun ev => get ev "domain" VNone) events) = Ok domains /\
    (2 <= length events)%nat /\ (2 <= length domains)%nat /\
    fst (synthesize CORRELATION_WINDOW_SECONDS clk py_str key events domains w) = Ok inc.

(** A property of the correlated store that survives filtering, the sort
    and truncation, and the upsert of a synthesized incident. *)
Record store_invariant (Inv : list incident -> Prop) : Prop := {
  inv_filter : forall f l, Inv l -> Inv (List.filter f l);
  inv_cap : forall n l, Inv l -> Inv (cap_newest n l);
  inv_upsert : forall key events inc l,
    synthesized key events inc -> Inv l -> Inv (upsert key inc l)
}.

(** The facts that tie a correlated incident to the group it was built from. *)
Definition well_synthesized (inc : incident) : Prop :=
  exists domains tp hc,
    py_set (map (fun ev => get ev "domain" VNone) (supporting_events inc)) = Ok domains /\
    (2 <= length (supporting_events inc))%nat /\
    (2 <= length domains)%nat /\
    temporal_proximity CORRELATION_WINDOW_SECONDS (supporting_events inc) = Ok tp /\
    any_critical (supporting_events inc) = Ok hc /\
    confidence inc =
      py_round2 (Qmin (raw_confidence (supporting_events inc) domains tp hc) (99 # 100)) /\
    is_critical inc = hc.

End EnginePredicates.



(** * The query endpoints and further predicates *)

(** [GET /incidents] and [GET /all-incidents] answer with these dicts. *)
Record incidents_response : Type := mkIncidentsResponse {
  resp_incidents : list incident;
  resp_normalized_count : nat;
  resp_incident_count : nat
}.

Record all_incidents_response : Type := mkAllIncidentsResponse {
  all_incidents : list incident;
  all_normalized_count : nat;
  correlated_count : nat;
  single_domain_count : nat;
  total_incident_count : nat
}.

Section Queries.

Variable py_str : pyval -> string.

(** Lines 234-235: the id of a supporting event that has the three keys. *)
Definition event_id (evt : event) : option string :=
  match dict_lookup "timestamp" evt, dict_lookup "vendor" evt, dict_lookup "node_id" evt with
  | Some t, Some v, Some n =>
      Some (py_str v ++ "-" ++ py_str n ++ "-" ++ py_str t)%string
  | _, _, _ => None
  end.

(** Lines 231-236: the set of the ids of the supporting events. *)
Definition add_event_ids (ids : gset string) (inc : incident) : gset string :=
  fold_left (fun ids evt => match event_id evt with
                            | Some i => {[i]} ∪ ids
                            | None => ids
                            end)
            (supporting_events inc) ids.

Definition event_ids (incs : list incident) : gset string :=
  fold_left add_event_ids incs ∅.

(** [GET /incidents] *)
Definition get_incidents (w : world) : incidents_response :=
  let sorted_inc := sort_desc (incidents w) in
  let event_count :=
    Nat.max (Nat.max (length (normalized_events w)) (size (event_ids sorted_inc)))
            (length (incidents w)) in
  mkIncidentsResponse sorted_inc event_count (length (incidents w)).

(** [GET /all-incidents] *)
Definition get_all_incidents (w : world) : all_incidents_response :=
  let all_inc := incidents w ++ single_domain_incidents w in
  let sorted_all := sort_desc all_inc in
  let event_count :=
    Nat.max (Nat.max (length (normalized_events w)) (size (event_ids all_inc)))
            (length (incidents w) + length (single_domain_incidents w)) in
  mkAllIncidentsResponse sorted_all event_count
    (length (incidents w)) (length (single_domain_incidents w))
    (length (incidents w) + length (single_domain_incidents w)).

End Queries.

(** [preserves f m]: the computation [m] leaves the part [f] of the state as
    it found it, whether it returns or raises. *)
Definition preserves {A B} (f : world -> B) (m : M A) : Prop :=
  forall w, f (snd (m w)) = f w.

(** The seven keys of a canonical event, in the order the code writes them. *)
Definition canonical_keys : list string :=
  ["timestamp"; "vendor"; "domain"; "node_id"; "alarm_type"; "severity"; "metrics"].

Definition canonical (e : event) : Prop := map fst e = canonical_keys.

(** The shape of a single-domain incident. *)
Definition single_domain_shape (inc : incident) : Prop :=
  (exists ev, supporting_events inc = [ev]) /\
  is_correlated inc = Some false /\
  vendor inc <> None /\
  domain inc <> None /\
  confidence inc = (if is_critical inc then 85 # 100 else 6 # 10).

(** The shape of a correlated incident, for a window of [W] seconds. *)
Definition correlated_shape (W : Z) (inc : incident) : Prop :=
  vendor inc = None /\ domain inc = None /\ is_correlated inc = None /\
  (exists key, node_id inc = VStr key) /\
  (2 <= length (supporting_events inc))%nat /\
  (2 <= distinct_domains (supporting_events inc))%nat /\
  Forall (fun e => num_of (get e "timestamp" (VNum 0)) <> None) (supporting_events inc) /\
  W <> 0%Z /\
  is_critical inc = existsb is_critical_lower (supporting_events inc) /\
  probable_root_cause inc =
    ((if is_critical inc then "CRITICAL: " else "")
       ++ root_cause_of
            (distinct (map (fun ev => get ev "domain" VNone) (supporting_events inc))))%string.

(** The front event of the window has a timestamp that is not a number. *)
Definition poisoned (w : world) : Prop :=
  exists e rest t,
    normalized_events w = e :: rest /\
    dict_lookup "timestamp" e = Some t /\ num_of t = None.

(** A payload with a string for a timestamp. *)
Definition text_stamp_payload : dict :=
  [("vendor", VStr "Acme"); ("node_id", VStr "N7"); ("ts", VStr "2024-01-01T00:00:00Z")].

(** ** Predicates and examples for the further properties *)

(** A window of three RAN events in arrival order, the first one stale. *)
Definition in_order_window : world :=
  mkWorld [canonical_event 900 "VendorA" "RAN" "Cell-1" "minor";
           canonical_event 980 "VendorA" "RAN" "Cell-1" "minor";
           canonical_event 1000 "VendorA" "RAN" "Cell-2" "minor"] [] [] 0.

(** The state after one alarm whose timestamp is a string. *)
Definition poisoned_run : world := run [Normalize text_stamp_payload].

(** [maintains f Inv m]: [m] keeps the property [Inv] of the part [f] of the
    state, whether it returns or raises. *)
Definition maintains {A B} (f : world -> B) (Inv : B -> Prop) (m : M A) : Prop :=
  forall w, Inv (f w) -> Inv (f (snd (m w))).

(** The first event of the window of the scenario. *)
Definition scenario_first_event : event :=
  Eval vm_compute in
    match normalized_events scenario_run with
    | e :: _ => e
    | [] => []
    end.

(** Two RAN alarms and a CORE alarm on one node. *)
Definition three_alarms : list event :=
  [canonical_event 990 "VendorA" "RAN" "Cell-1" "minor";
   canonical_event 1000 "VendorB" "CORE" "Cell-1" "major";
   canonical_event 995 "VendorA" "RAN" "Cell-1" "critical"].

(** The event is grouped under the domain [d]. *)
Definition in_domain (d : pyval) (e : event) : Prop :=
  get e "domain" (VStr "UNKNOWN") = d.

(** Two RAN alarms on two cells. *)
Definition ran_only_run : world :=
  run [Normalize (ran_alarm "Cell-1" 995 "critical");
       Normalize (ran_alarm "Cell-2" 996 "major")].

(** A RAN alarm on a third cell. *)
Definition third_ran_event : event := canonical_event 997 "VendorA" "RAN" "Cell-3" "critical".

(** The event passes the test of the node grouping. *)
Definition known_event (e : event) : Prop :=
  py_eq (get e "node_id" (VStr "unknown")) (VStr "unknown") = false /\
  hashable (get e "node_id" (VStr "unknown")) = true.

(** The incident stands for one event of a known node. *)
Definition tracks_known_node (inc : incident) : Prop :=
  exists ev,
    supporting_events inc = [ev] /\
    py_eq (node_id inc) (get ev "node_id" (VStr "unknown")) = true /\
    (forall v, dict_lookup "timestamp" ev = Some v -> num_of v = Some (timestamp inc)) /\
    py_eq (node_id inc) (VStr "unknown") = false /\
    hashable (node_id inc) = true.

(** An alarm of an unlisted vendor that names no node, then a RAN alarm. *)
Definition nodeless_run : world :=
  run [Normalize [("vendor", VStr "Acme"); ("ts", VNum 995); ("domain", VStr "RAN")];
       Normalize (ran_alarm "Cell-1" 996 "minor")].

(** The single-domain incident of that run. *)
Definition cell_1_incident : incident :=
  Eval vm_compute in
    match single_domain_incidents nodeless_run with
    | inc :: _ => inc
    | [] => mkIncident "" None None VNone None "" [] 0 "" 0 false
    end.

(** [old] has the node_id of one of the incidents [added]. *)
Definition replaced_by (added : list incident) (old : incident) : bool :=
  existsb (fun inc => py_eq (node_id old) (node_id inc)) added.

(** The number of events held by the groups. *)
Definition group_total (g : pgroups) : nat := list_sum (map (fun kv => length (snd kv)) g).

(** The fields the pass reads hold values it can work with: a number for
    a timestamp, hashable values for node, domain and vendor, a string (or
    nothing) for the severity. *)
Definition well_formed (e : event) : Prop :=
  (exists v t, dict_lookup "timestamp" e = Some v /\ num_of v = Some t) /\
  hashable (get e "node_id" VNone) = true /\
  hashable (get e "domain" VNone) = true /\
  hashable (get e "vendor" VNone) = true /\
  (exists s, get e "severity" (VStr "") = VStr s).

(** A number that the float arithmetic of the code can take in: of
    magnitude at most 10^300.  (In Python an int beyond the range of
    binary64, about 1.8 * 10^308, raises OverflowError when it meets a float
    or is divided; this development knows no such bound, so the statements
    that a request returns are made for numbers in this range.) *)
Definition in_float_range (q : Q) : Prop := Qabs q <= inject_Z (10 ^ 300).

(** The groups of a dict keyed by domain: the keys are hashable and differ
    from one another, no group is empty, and every event of a group has
    the domain of its key. *)
Definition keyed (d : pgroups) : Prop :=
  List.NoDup (map (fun kv => key_of (fst kv)) d) /\
  Forall (fun kv => hashable (fst kv) = true /\ snd kv <> [] /\
                    Forall (fun e => key_of (get e "domain" (VStr "UNKNOWN"))
                                     = key_of (fst kv)) (snd kv)) d.

(** The event a minor RAN alarm on Cell-1 is mapped to. *)
Definition cell_1_event : event :=
  Eval vm_compute in
    match normalized_events one_minor_alarm_run with
    | e :: _ => e
    | [] => []
    end.

(** A CORE alarm on another node. *)
Definition core_9_event : event := canonical_event 1000 "VendorB" "CORE" "Core-9" "major".

(** * Properties *)

Example str_lower_ex : str_lower "CRITICAL: x9" = "critical: x9".
Proof. reflexivity. Qed.

Example py_round2_ex : py_round2 (1234 # 1000) == 123 # 100.
Proof. reflexivity. Qed.

(** ** Comparisons *)

Lemma Qltb_lt (x y : Q) : Qltb x y = true <-> x < y.
Proof.
  unfold Qltb. rewrite negb_true_iff, <- not_true_iff_false, Qle_bool_iff.
  split; [apply Qnot_le_lt | apply Qlt_not_le].
Qed.

Lemma Qltb_ge (x y : Q) : Qltb x y = false <-> y <= x.
Proof.
  unfold Qltb. rewrite negb_false_iff. apply Qle_bool_iff.
Qed.

Lemma py_eq_str (s t : string) : py_eq (VStr s) (VStr t) = String.eqb s t.
Proof. reflexivity. Qed.

Lemma py_eq_refl_hashable (v : pyval) : hashable v = true -> py_eq v v = true.
Proof.
  destruct v as [|b|q|s|l|d]; simpl; intros H; try discriminate; try reflexivity.
  - destruct b; reflexivity.
  - apply Qeq_bool_refl.
  - apply String.eqb_refl.
Qed.

(** ** Reasoning about computations *)



Lemma untouched_keeps {A} (Inv : list incident -> Prop) (m : M A) :
  untouched m -> keeps Inv m.
Proof. intros H w Hw. rewrite H. exact Hw. Qed.

Lemma keeps_bind {A B} (Inv : list incident -> Prop) (m : M A) (k : A -> M B) :
  keeps Inv m -> (forall a, keeps Inv (k a)) -> keeps Inv (bind m k).
Proof.
  intros Hm Hk w Hw. specialize (Hm w Hw). unfold bind.
  destruct (m w) as [[a|e] w1]; simpl in *; [apply Hk, Hm | exact Hm].
Qed.

Lemma untouched_bind {A B} (m : M A) (k : A -> M B) :
  untouched m -> (forall a, untouched (k a)) -> untouched (bind m k).
Proof.
  intros Hm Hk w. specialize (Hm w). unfold bind.
  destruct (m w) as [[a|e] w1]; simpl in *; [rewrite Hk | ]; exact Hm.
Qed.

Lemma untouched_ret {A} (a : A) : untouched (ret a).
Proof. intros w. reflexivity. Qed.

Lemma untouched_lift {A} (r : res A) : untouched (lift r).
Proof. intros w. reflexivity. Qed.

Lemma untouched_gets {A} (f : world -> A) : untouched (gets f).
Proof. intros w. reflexivity. Qed.

Lemma untouched_time_time (clk : nat -> Q) : untouched (time_time clk).
Proof. intros w. reflexivity. Qed.

Lemma untouched_modify (f : world -> world) :
  (forall w, incidents (f w) = incidents w) -> untouched (modify f).
Proof. intros H w. apply H. Qed.

Lemma untouched_for_each {A} (body : A -> M unit) (l : list A) :
  (forall x, untouched (body x)) -> untouched (for_each body l).
Proof.
  intros H. induction l as [|x l IH]; simpl.
  - apply untouched_ret.
  - apply untouched_bind; [apply H | intros _; exact IH].
Qed.

Lemma keeps_modify (Inv : list incident -> Prop) (f : list incident -> list incident) :
  (forall l, Inv l -> Inv (f l)) ->
  keeps Inv (modify (fun w => set_incidents (f (incidents w)) w)).
Proof. intros H w Hw. simpl. apply H, Hw. Qed.

Create HintDb untouched.
#[local] Hint Resolve untouched_ret untouched_lift untouched_gets
  untouched_time_time : untouched.

(** ** What the pass does to the correlated store *)

#[local] Arguments Nat.leb : simpl never.
#[local] Arguments Nat.ltb : simpl never.
#[local] Arguments Qltb : simpl never.

Section StoreInvariants.

Variable CORRELATION_WINDOW_SECONDS : Z.
Variable clk : nat -> Q.
Variable py_str : pyval -> string.

Abbreviation pass := (_process_for_correlation CORRELATION_WINDOW_SECONDS clk py_str).
Abbreviation synth := (synthesize CORRELATION_WINDOW_SECONDS clk py_str).

Lemma untouched_process_single_domain_incident (ev : event) :
  untouched (process_single_domain_incident clk py_str ev).
Proof.
  unfold process_single_domain_incident.
  apply untouched_bind; [auto with untouched | intros t].
  apply untouched_bind; [auto with untouched | intros ts].
  apply untouched_bind; [auto with untouched | intros sdi].
  destruct (update_recent _ _ _ _ sdi) as [sdi'|].
  - apply untouched_modify. reflexivity.
  - apply untouched_bind; [auto with untouched | intros c].
    apply untouched_modify. reflexivity.
Qed.

Lemma untouched_evict_events (cutoff : Q) : untouched (evict_events cutoff).
Proof.
  intros w. unfold evict_events.
  destruct (evict_front cutoff (normalized_events w)) as [r evs]. reflexivity.
Qed.

Lemma untouched_node_loop (node_grouped : pgroups) :
  forall grouped, untouched (node_loop clk py_str node_grouped grouped).
Proof.
  induction node_grouped as [|[node_id' events] rest IH]; intros grouped;
    cbn [node_loop].
  - apply untouched_ret.
  - apply untouched_bind; [auto with untouched | intros domains].
    destruct (Nat.leb 2 (length domains)).
    + apply untouched_bind; [auto with untouched | intros reps]. apply IH.
    + apply untouched_bind; [| intros _; apply IH].
      apply untouched_for_each, untouched_process_single_domain_incident.
Qed.

Lemma untouched_cross_domain (domains_grouped : pgroups) grouped :
  untouched (cross_domain clk py_str domains_grouped grouped).
Proof.
  unfold cross_domain. destruct (Nat.leb 2 (length domains_grouped)).
  - apply untouched_bind; [auto with untouched | intros t].
    apply untouched_bind; [auto with untouched | intros reps].
    apply untouched_ret.
  - apply untouched_ret.
Qed.

(** [synthesize] reads the clock and nothing else. *)
Lemma untouched_synthesize key events domains :
  untouched (synth key events domains).
Proof.
  unfold synthesize.
  apply untouched_bind; [auto with untouched | intros tp].
  apply untouched_bind; [auto with untouched | intros hc].
  apply untouched_bind; [auto with untouched | intros t1].
  apply untouched_bind; [auto with untouched | intros t2].
  apply untouched_ret.
Qed.

Section WithInvariant.

Variable Inv : list incident -> Prop.
Hypothesis HInv : store_invariant CORRELATION_WINDOW_SECONDS clk py_str Inv.

Lemma keeps_retention (now : Q) :
  keeps Inv (retention CORRELATION_WINDOW_SECONDS now).
Proof.
  unfold retention.
  apply keeps_bind; [| intros _].
  { apply keeps_modify. intros l. apply (inv_filter _ _ _ _ HInv). }
  apply keeps_bind; [| intros _].
  { apply untouched_keeps, untouched_modify. reflexivity. }
  apply keeps_bind; [| intros _].
  { apply keeps_modify. intros l. apply (inv_cap _ _ _ _ HInv). }
  apply untouched_keeps, untouched_modify. reflexivity.
Qed.

Lemma keeps_synth_loop (grouped : list (string * list event)) :
  forall new_incidents,
    keeps Inv (synth_loop CORRELATION_WINDOW_SECONDS clk py_str grouped new_incidents).
Proof.
  induction grouped as [|[key events] rest IH]; intros new_incidents;
    cbn [synth_loop].
  - apply untouched_keeps, untouched_ret.
  - apply keeps_bind; [apply untouched_keeps; auto with untouched | intros vendors].
    intros w Hw. unfold bind, lift at 1.
    destruct (py_set (map (fun ev => get ev "domain" VNone) events))
      as [domains|e] eqn:Hdom; simpl; [| exact Hw].
    destruct (Nat.leb 2 (length events)) eqn:Hn; simpl; [| apply IH, Hw].
    destruct (Nat.leb 2 (length domains)) eqn:Hd; simpl; [| apply IH, Hw].
    pose proof (untouched_synthesize key events domains w) as Hu.
    destruct (synth key events domains w) as [[inc|e] w1] eqn:Hs; simpl in *.
    + apply IH. simpl. rewrite Hu.
      apply (inv_upsert _ _ _ _ HInv key events); [| exact Hw].
      exists domains, w. rewrite Hs.
      repeat split; auto; apply Nat.leb_le; assumption.
    + rewrite Hu. exact Hw.
Qed.

Lemma keeps_pass (ev : event) : keeps Inv (pass ev).
Proof.
  unfold _process_for_correlation, correlate.
  apply keeps_bind; [apply untouched_keeps; auto with untouched | intros now].
  apply keeps_bind; [apply untouched_keeps, untouched_evict_events | intros _].
  apply keeps_bind; [apply keeps_retention | intros _].
  apply keeps_bind; [apply untouched_keeps; auto with untouched | intros evs].
  apply keeps_bind; [apply untouched_keeps; auto with untouched | intros ng].
  apply keeps_bind; [apply untouched_keeps; auto with untouched | intros dg].
  apply keeps_bind; [apply untouched_keeps, untouched_node_loop | intros g].
  apply keeps_bind; [apply untouched_keeps, untouched_cross_domain | intros g'].
  apply keeps_synth_loop.
Qed.

Lemma untouched_map_to_canonical (payload : dict) :
  untouched (map_to_canonical clk payload).
Proof.
  unfold map_to_canonical.
  repeat match goal with |- context [if ?c then _ else _] => destruct c end;
    (apply untouched_bind; [auto with untouched | intros t; apply untouched_ret]).
Qed.

Lemma keeps_normalize (payload : dict) :
  keeps Inv (normalize CORRELATION_WINDOW_SECONDS clk py_str payload).
Proof.
  unfold normalize, ingest.
  apply keeps_bind; [apply untouched_keeps, untouched_map_to_canonical | intros norm].
  apply keeps_bind; [| intros _; apply untouched_keeps, untouched_ret].
  apply keeps_bind; [apply untouched_keeps, untouched_modify; reflexivity | intros _].
  apply keeps_pass.
Qed.

Lemma untouched_orchestrate (action : dict) : untouched (orchestrate clk py_str action).
Proof.
  unfold orchestrate.
  apply untouched_bind; [auto with untouched | intros t1].
  apply untouched_bind; [auto with untouched | intros t2].
  apply untouched_bind; [auto with untouched | intros target].
  apply untouched_modify. reflexivity.
Qed.

(** Every state the server can reach satisfies a store invariant that
    holds of the empty store. *)
Lemma reachable_invariant (w : world) :
  Inv [] ->
  reachable CORRELATION_WINDOW_SECONDS clk py_str w -> Inv (incidents w).
Proof.
  intros H0 Hr. induction Hr as [|r w Hr IH]; [exact H0 |].
  destruct r as [payload|action]; simpl.
  - apply keeps_normalize, IH.
  - rewrite untouched_orchestrate. exact IH.
Qed.

End WithInvariant.

End StoreInvariants.

(** ** The sort and the cap *)

Lemma insert_desc_perm (x : incident) (l : list incident) :
  Permutation (insert_desc x l) (x :: l).
Proof.
  induction l as [|y l IH]; simpl; [reflexivity |].
  destruct (Qltb (timestamp x) (timestamp y)); [| reflexivity].
  rewrite IH. apply perm_swap.
Qed.

Lemma sort_desc_perm (l : list incident) : Permutation (sort_desc l) l.
Proof.
  induction l as [|x l IH]; simpl; [reflexivity |].
  rewrite insert_desc_perm. apply perm_skip, IH.
Qed.

Lemma insert_desc_sorted (x : incident) (l : list incident) :
  descending l -> descending (insert_desc x l).
Proof.
  unfold descending. induction l as [|y l IH]; intros Hs; simpl.
  - constructor; constructor.
  - inversion Hs as [|? ? Hl Hy]; subst.
    destruct (Qltb (timestamp x) (timestamp y)) eqn:Hc.
    + apply Qltb_lt in Hc. constructor; [apply IH, Hl |].
      apply (Permutation_Forall (Permutation_sym (insert_desc_perm x l))).
      constructor; [apply Qlt_le_weak, Hc | exact Hy].
    + apply Qltb_ge in Hc. constructor; [exact Hs |].
      constructor; [exact Hc |].
      eapply List.Forall_impl; [| exact Hy].
      intros z Hz. simpl in Hz. eapply Qle_trans; eauto.
Qed.

Lemma sort_desc_sorted (l : list incident) : descending (sort_desc l).
Proof.
  induction l as [|x l IH]; simpl; [constructor | apply insert_desc_sorted, IH].
Qed.


Lemma cap_newest_length (cap : nat) (l : list incident) :
  (length (cap_newest cap l) <= cap)%nat.
Proof.
  unfold cap_newest. destruct (Nat.ltb cap (length l)) eqn:Hc.
  - apply firstn_le_length.
  - apply Nat.ltb_ge in Hc. exact Hc.
Qed.

Lemma cap_newest_perm (cap : nat) (l : list incident) :
  Permutation (cap_newest cap l ++ cap_dropped cap l) l.
Proof.
  unfold cap_newest, cap_dropped. destruct (Nat.ltb cap (length l)).
  - rewrite firstn_skipn. apply sort_desc_perm.
  - rewrite app_nil_r. reflexivity.
Qed.


Lemma Forall_cap_newest (P : incident -> Prop) (cap : nat) (l : list incident) :
  Forall P l -> Forall P (cap_newest cap l).
Proof.
  intros H. apply (Permutation_Forall (Permutation_sym (cap_newest_perm cap l))) in H.
  apply List.Forall_app in H. apply H.
Qed.

(** ** The group key of a correlated incident *)

Lemma NoDup_keys_filter (f : incident -> bool) (l : list incident) :
  NoDup (keys l) -> NoDup (keys (List.filter f l)).
Proof.
  unfold keys. induction l as [|x l IH]; simpl; intros H; [constructor |].
  inversion H as [|? ? Hx Hl]; subst.
  destruct (f x); simpl; [| apply IH, Hl].
  constructor; [| apply IH, Hl].
  intros Hin. apply Hx. apply list_elem_of_In in Hin. apply list_elem_of_In.
  apply in_map_iff in Hin as (y & Hy & Hin).
  apply in_map_iff. exists y. split; [exact Hy |].
  apply List.filter_In in Hin. apply Hin.
Qed.

Lemma NoDup_keys_cap (cap : nat) (l : list incident) :
  NoDup (keys l) -> NoDup (keys (cap_newest cap l)).
Proof.
  unfold keys. intros H.
  rewrite <- (Permutation_map node_id (cap_newest_perm cap l)), map_app in H.
  apply NoDup_app in H. apply H.
Qed.

Lemma key_absent_after_filter (key : string) (l : list incident) :
  ~ In (VStr key)
       (keys (List.filter (fun old => negb (py_eq (node_id old) (VStr key))) l)).
Proof.
  unfold keys. intros Hin. apply in_map_iff in Hin as (y & Hy & Hin).
  apply List.filter_In in Hin as [_ Hf]. rewrite Hy, py_eq_str, String.eqb_refl in Hf.
  discriminate.
Qed.

Lemma NoDup_keys_upsert (key : string) (inc : incident) (l : list incident) :
  node_id inc = VStr key -> NoDup (keys l) -> NoDup (keys (upsert key inc l)).
Proof.
  intros Hk H. unfold upsert, keys. rewrite map_app. simpl. rewrite Hk.
  apply NoDup_app; repeat split.
  - apply NoDup_keys_filter, H.
  - intros v Hv Hin. apply list_elem_of_In in Hv, Hin. destruct Hin as [<- | []].
    exact (key_absent_after_filter key l Hv).
  - constructor; [intros Hin; apply list_elem_of_In in Hin; destruct Hin | constructor].
Qed.

(** The upserted incident is the only one left under its key. *)
Lemma upsert_replaces (key : string) (inc : incident) (l : list incident) :
  node_id inc = VStr key ->
  List.filter (fun old => py_eq (node_id old) (VStr key)) (upsert key inc l) = [inc].
Proof.
  intros Hk. unfold upsert. rewrite List.filter_app. simpl.
  rewrite Hk, py_eq_str, String.eqb_refl.
  replace (List.filter _ (List.filter _ l)) with (@nil incident); [reflexivity |].
  symmetry. induction l as [|x l IH]; simpl; [reflexivity |].
  destruct (py_eq (node_id x) (VStr key)) eqn:Hx; simpl; [exact IH |].
  rewrite Hx. exact IH.
Qed.

(** ** Timestamps of a synthesized group *)

Lemma Qltb_compare (x y : Q) : Qltb x y = true <-> Qcompare x y = Lt.
Proof. rewrite Qltb_lt. apply Qlt_alt. Qed.

Lemma Qmax_if (b v : Q) : (if Qltb b v then v else b) = Qmax b v.
Proof.
  unfold Qmax, GenericMinMax.gmax.
  destruct (Qltb b v) eqn:H.
  - apply Qltb_compare in H. rewrite H. reflexivity.
  - destruct (Qcompare b v) eqn:Hc; try reflexivity.
    apply Qltb_compare in Hc. congruence.
Qed.

Lemma Qmin_if (b v : Q) : (if Qltb v b then v else b) = Qmin b v.
Proof.
  unfold Qmin, GenericMinMax.gmin.
  destruct (Qltb v b) eqn:H.
  - apply Qltb_lt, Qgt_alt in H. rewrite H. reflexivity.
  - destruct (Qcompare b v) eqn:Hc; try reflexivity.
    apply Qgt_alt, Qltb_lt in Hc. congruence.
Qed.

(** A comparison that involves a number goes through between numbers only. *)
Lemma py_lt_numeric (a b : pyval) (r : bool) :
  py_lt a b = Ok r ->
  num_of a <> None \/ num_of b <> None ->
  exists x y, num_of a = Some x /\ num_of b = Some y /\ r = Qltb x y.
Proof.
  destruct a, b; simpl; intros H Hn; try discriminate;
    try (destruct Hn as [Hn | Hn]; congruence);
    injection H as <-; eauto.
Qed.

Lemma py_max_from_numeric (rest : list pyval) :
  forall best hi h,
    py_max_from best rest = Ok hi -> num_of hi = Some h ->
    exists b, num_of best = Some b /\
              Forall (fun v => num_of v <> None) rest /\
              h = Qmax_list b (map numval rest).
Proof.
  induction rest as [|v rest IH]; intros best hi h Hm Hh; simpl in Hm.
  - injection Hm as <-. exists h. repeat split; [exact Hh | constructor].
  - unfold py_gt in Hm. destruct (py_lt best v) as [gt|e] eqn:Hlt; [| discriminate].
    simpl in Hm. destruct (IH _ _ _ Hm Hh) as (b' & Hb' & Hrest & Hq).
    destruct (py_lt_numeric _ _ _ Hlt) as (x & y & Hx & Hy & Hgt).
    { destruct gt; [right | left]; congruence. }
    exists x. split; [exact Hx |]. split.
    + constructor; [congruence | exact Hrest].
    + simpl. unfold numval at 1. rewrite Hy. simpl.
      rewrite <- Qmax_if, <- Hgt. destruct gt; congruence.
Qed.

Lemma py_min_from_numeric (rest : list pyval) :
  forall best lo h,
    py_min_from best rest = Ok lo -> num_of lo = Some h ->
    exists b, num_of best = Some b /\ h = Qmin_list b (map numval rest).
Proof.
  induction rest as [|v rest IH]; intros best lo h Hm Hh; simpl in Hm.
  - injection Hm as <-. exists h. split; [exact Hh | reflexivity].
  - destruct (py_lt v best) as [lt|e] eqn:Hlt; [| discriminate].
    simpl in Hm. destruct (IH _ _ _ Hm Hh) as (b' & Hb' & Hq).
    destruct (py_lt_numeric _ _ _ Hlt) as (x & y & Hx & Hy & Hgt).
    { destruct lt; [left | right]; congruence. }
    exists y. split; [exact Hy |].
    simpl. unfold numval at 1. rewrite Hx. simpl.
    rewrite <- Qmin_if, <- Hgt. destruct lt; congruence.
Qed.

(** When [temporal_proximity] returns, every timestamp of the group is a
    number and the value is the one of the formula. *)
Lemma temporal_proximity_inv (W : Z) (events : list event) (tp : Q) :
  temporal_proximity W events = Ok tp ->
  W <> 0%Z /\
  Forall (fun e => num_of (get e "timestamp" (VNum 0)) <> None) events /\
  tp = 1 - (max_stamp events - min_stamp events) / inject_Z W.
Proof.
  unfold temporal_proximity. destruct events as [|e rest]; [discriminate |].
  cbn [map py_max py_min].
  destruct (py_max_from _ _) as [hi|] eqn:Hhi; [| discriminate]. cbn [res_bind].
  destruct (py_min_from _ _) as [lo|] eqn:Hlo; [| discriminate]. cbn [res_bind].
  unfold py_sub.
  destruct (num_of hi) as [h|] eqn:Hh; [| discriminate].
  destruct (num_of lo) as [l|] eqn:Hl; [| discriminate]. cbn [res_bind].
  destruct (Z.eqb W 0) eqn:HW; [discriminate |]. intros [= <-].
  apply Z.eqb_neq in HW.
  destruct (py_max_from_numeric _ _ _ _ Hhi Hh) as (b & Hb & Hrest & ->).
  destruct (py_min_from_numeric _ _ _ _ Hlo Hl) as (b' & Hb' & ->).
  assert (b' = b) as -> by congruence.
  split; [exact HW |]. split.
  - constructor; [congruence |].
    rewrite List.Forall_map in Hrest. exact Hrest.
  - unfold max_stamp, min_stamp, stamp, window.
    rewrite !map_map. replace (numval (get e "timestamp" (VNum 0))) with b;
      [reflexivity | unfold numval; rewrite Hb; reflexivity].
Qed.

(** ** What a synthesized incident records *)

Lemma any_critical_existsb (events : list event) (hc : bool) :
  any_critical events = Ok hc -> hc = existsb is_critical_lower events.
Proof.
  revert hc. induction events as [|e rest IH]; intros hc; simpl.
  - intros [= <-]. reflexivity.
  - unfold severity_is_critical, is_critical_lower.
    destruct (get e "severity" (VStr "")) as [| | |s| |]; try discriminate.
    simpl. destruct (String.eqb (str_lower s) "critical"); simpl.
    + intros [= <-]. reflexivity.
    + apply IH.
Qed.


Lemma py_set_from_distinct (l : list pyval) :
  forall acc s, py_set_from l acc = Ok s ->
    s = fold_left (fun acc v => if py_in v acc then acc else acc ++ [v]) l acc.
Proof.
  induction l as [|v l IH]; intros acc s; simpl.
  - intros [= <-]. reflexivity.
  - destruct (hashable v); [apply IH | discriminate].
Qed.

Lemma py_set_distinct (l s : list pyval) : py_set l = Ok s -> s = distinct l.
Proof. apply py_set_from_distinct. Qed.


Section Synthesis.

Variable CORRELATION_WINDOW_SECONDS : Z.
Variable clk : nat -> Q.
Variable py_str : pyval -> string.

Lemma synthesize_inv key events domains w inc :
  fst (synthesize CORRELATION_WINDOW_SECONDS clk py_str key events domains w) = Ok inc ->
  exists tp hc,
    temporal_proximity CORRELATION_WINDOW_SECONDS events = Ok tp /\
    any_critical events = Ok hc /\
    node_id inc = VStr key /\
    supporting_events inc = events /\
    confidence inc = py_round2 (Qmin (raw_confidence events domains tp hc) (99 # 100)) /\
    is_critical inc = hc /\
    timestamp inc = clk (S (ticks w)).
Proof.
  unfold synthesize, bind, lift.
  destruct (temporal_proximity _ events) as [tp|]; [| discriminate].
  destruct (any_critical events) as [hc|]; [| discriminate].
  simpl. intros [= <-]. exists tp, hc. simpl. repeat split; reflexivity.
Qed.

Lemma synthesized_key key events inc :
  synthesized CORRELATION_WINDOW_SECONDS clk py_str key events inc ->
  node_id inc = VStr key.
Proof.
  intros (domains & w & _ & _ & _ & Hs).
  apply synthesize_inv in Hs as (tp & hc & _ & _ & Hk & _). exact Hk.
Qed.

Lemma synthesized_well key events inc :
  synthesized CORRELATION_WINDOW_SECONDS clk py_str key events inc ->
  (well_synthesized CORRELATION_WINDOW_SECONDS) inc.
Proof.
  intros (domains & w & Hd & Hn & Hm & Hs).
  apply synthesize_inv in Hs as (tp & hc & Htp & Hhc & _ & He & Hc & Hi & _).
  exists domains, tp, hc. rewrite He. repeat split; assumption.
Qed.

(** The two store invariants. *)
Lemma unique_keys_invariant :
  store_invariant CORRELATION_WINDOW_SECONDS clk py_str (fun l => NoDup (keys l)).
Proof.
  constructor.
  - intros f l. apply NoDup_keys_filter.
  - intros n l. apply NoDup_keys_cap.
  - intros key events inc l Hs. apply NoDup_keys_upsert.
    eapply synthesized_key, Hs.
Qed.

Lemma well_synthesized_invariant :
  store_invariant CORRELATION_WINDOW_SECONDS clk py_str (Forall (well_synthesized CORRELATION_WINDOW_SECONDS)).
Proof.
  constructor.
  - intros f l H. rewrite List.Forall_forall in *. intros x Hx.
    apply List.filter_In in Hx. apply H, Hx.
  - intros n l. apply Forall_cap_newest.
  - intros key events inc l Hs H. unfold upsert. apply List.Forall_app. split.
    + rewrite List.Forall_forall in *. intros x Hx.
      apply List.filter_In in Hx. apply H, Hx.
    + constructor; [eapply synthesized_well, Hs | constructor].
Qed.


End Synthesis.

(** ** Rounding *)

Lemma round_half_even_ge_floor (q : Q) : (Qfloor q <= round_half_even q)%Z.
Proof.
  unfold round_half_even.
  destruct (Qcompare _ _); [destruct (Z.even _) | |]; lia.
Qed.

Lemma round_half_even_le (n : Z) (q : Q) :
  q <= inject_Z n -> (round_half_even q <= n)%Z.
Proof.
  intros Hq. unfold round_half_even.
  assert (Hf : (Qfloor q <= n)%Z).
  { rewrite <- (Qfloor_Z n). apply Qfloor_resp_le, Hq. }
  pose proof (Qfloor_le q) as Hfq.
  destruct (Qcompare (q - inject_Z (Qfloor q)) (1 # 2)) eqn:Hc; [| exact Hf |].
  - apply Qeq_alt in Hc.
    assert ((Qfloor q < n)%Z); [| destruct (Z.even _); lia].
    destruct (Z.eq_dec (Qfloor q) n) as [E|]; [| lia].
    rewrite E in Hc. lra.
  - apply Qgt_alt in Hc.
    assert ((Qfloor q < n)%Z); [| lia].
    destruct (Z.eq_dec (Qfloor q) n) as [E|]; [| lia].
    rewrite E in Hc. lra.
Qed.

Lemma py_round2_le_99 (x : Q) : x <= 99 # 100 -> py_round2 x <= 99 # 100.
Proof.
  intros Hx. unfold py_round2.
  assert (H : (round_half_even (x * 100) <= 99)%Z).
  { apply round_half_even_le. change (inject_Z 99) with 99. lra. }
  rewrite Zle_Qle in H. change (inject_Z 99) with 99 in H.
  apply Qle_shift_div_r; lra.
Qed.

Lemma py_round2_nonneg (x : Q) : 0 <= x -> 0 <= py_round2 x.
Proof.
  intros Hx. unfold py_round2.
  assert (H : (0 <= round_half_even (x * 100))%Z).
  { etransitivity; [| apply round_half_even_ge_floor].
    rewrite <- (Qfloor_Z 0). apply Qfloor_resp_le. change (inject_Z 0) with 0. lra. }
  rewrite Zle_Qle in H. change (inject_Z 0) with 0 in H.
  apply Qle_shift_div_l; lra.
Qed.

Lemma severity_sum_nonneg (events : list event) : 0 <= severity_sum events.
Proof.
  induction events as [|e rest IH]; simpl; [lra |].
  unfold severity_weight. destruct (py_eq _ _); lra.
Qed.

Lemma nat_Q_ge_2 (n : nat) : (2 <= n)%nat -> 2 <= nat_Q n.
Proof.
  intros H. unfold nat_Q. change 2 with (inject_Z 2). rewrite <- Zle_Qle. lia.
Qed.

(** ** The example runs are reachable *)

Lemma run_reachable (rs : list request) : reachable 30 clock_1000 py_str_of (run rs).
Proof.
  unfold run. generalize init, (reach_init 30 clock_1000 py_str_of).
  induction rs as [|r rs IH]; intros w Hw; simpl; [exact Hw |].
  apply IH. constructor. exact Hw.
Defined.

(** ** C1: the confidence formula *)







(** ** C7: bounds of the confidence *)

Lemma raw_confidence_le_99 events domains tp hc :
  Qmin (raw_confidence events domains tp hc) (99 # 100) <= 99 # 100.
Proof. apply Q.le_min_r. Qed.

Lemma severity_factor_nonneg (events : list event) :
  (2 <= length events)%nat -> 0 <= severity_factor events.
Proof.
  intros Hn. unfold severity_factor. apply nat_Q_ge_2 in Hn.
  apply Qle_shift_div_l; [lra |].
  pose proof (severity_sum_nonneg events). lra.
Qed.

(** C7, as stated, fails: after a fresh RAN alarm and a CORE alarm on the
    same node whose timestamp is 990 s older, the synthesized incident has
    confidence -2.12. *)
Lemma C7_counterexample :
  exists inc rest,
    incidents very_stale_run = inc :: rest /\
    confidence inc == - (212 # 100) /\
    confidence inc < 0.
Proof.
  eexists. eexists. split; [vm_compute; reflexivity |].
  split; vm_compute; reflexivity.
Qed.

(** C7, amended: in every reachable state, the confidence of a correlated
    incident is at most 0.99; it is at least 0 when the window is positive
    and the timestamps of the supporting events span at most the window.
    (With a larger span nothing keeps it from being negative.) *)
Theorem C7_confidence_bounds (W : Z) (clk : nat -> Q) (py_str : pyval -> string)
    (w : world) (inc : incident) :
  reachable W clk py_str w ->
  In inc (incidents w) ->
  confidence inc <= 99 # 100 /\
  ((0 < W)%Z ->
   max_stamp (supporting_events inc) - min_stamp (supporting_events inc) <= inject_Z W ->
   0 <= confidence inc).
Proof.
  intros Hr Hin.
  pose proof (reachable_invariant W clk py_str _
                (well_synthesized_invariant W clk py_str) w
                (List.Forall_nil _) Hr) as Hall.
  rewrite List.Forall_forall in Hall.
  destruct (Hall inc Hin) as (domains & tp & hc & Hd & Hn & Hm & Htp & Hhc & Hc & Hi).
  rewrite Hc. split.
  - apply py_round2_le_99, raw_confidence_le_99.
  - intros HW Hspan. apply py_round2_nonneg.
    apply temporal_proximity_inv in Htp as (_ & _ & ->).
    assert (HWq : 0 < inject_Z W) by (change 0 with (inject_Z 0); rewrite <- Zlt_Qlt; exact HW).
    assert (Htp : 0 <= 1 - (max_stamp (supporting_events inc)
                            - min_stamp (supporting_events inc)) / inject_Z W).
    { assert ((max_stamp (supporting_events inc)
               - min_stamp (supporting_events inc)) / inject_Z W <= 1);
        [apply Qle_shift_div_r; lra | lra]. }
    pose proof (severity_factor_nonneg _ Hn) as Hsf.
    apply nat_Q_ge_2 in Hn, Hm.
    apply Q.min_glb; [| lra].
    unfold raw_confidence, CONFIDENCE_BASE.
    apply Q.min_glb; [lra |].
    destruct hc; lra.
Qed.

Lemma C7_confidence_bounds_witness :
  reachable 30 clock_1000 py_str_of scenario_run /\
  In scenario_incident (incidents scenario_run) /\
  (0 < 30)%Z /\
  max_stamp (supporting_events scenario_incident)
    - min_stamp (supporting_events scenario_incident) <= inject_Z 30 /\
  confidence scenario_incident <= 99 # 100 /\
  0 <= confidence scenario_incident.
Proof.
  assert (Hr : reachable 30 clock_1000 py_str_of scenario_run)
    by apply run_reachable.
  assert (Hin : In scenario_incident (incidents scenario_run))
    by (vm_compute; left; reflexivity).
  assert (HW : (0 < 30)%Z) by lia.
  assert (Hspan : max_stamp (supporting_events scenario_incident)
                  - min_stamp (supporting_events scenario_incident) <= inject_Z 30)
    by (vm_compute; discriminate).
  destruct (C7_confidence_bounds 30 clock_1000 py_str_of scenario_run
              scenario_incident Hr Hin) as [Hup Hlow].
  exact (conj Hr (conj Hin (conj HW (conj Hspan (conj Hup (Hlow HW Hspan)))))).
Defined.

(** ** C9: one correlated incident per group key *)

Lemma reachable_unique_keys (W : Z) (clk : nat -> Q) (py_str : pyval -> string)
    (w : world) :
  reachable W clk py_str w -> NoDup (keys (incidents w)).
Proof.
  intros Hr.
  apply (reachable_invariant W clk py_str _ (unique_keys_invariant W clk py_str) w);
    [constructor | exact Hr].
Qed.

(** C9: in every reachable state no two correlated incidents carry the same
    group key; and upserting a synthesized incident into the store leaves it
    as the only incident of its key (replace, not merge). *)
Theorem C9_one_incident_per_key (W : Z) (clk : nat -> Q) (py_str : pyval -> string)
    (w : world) :
  reachable W clk py_str w ->
  NoDup (keys (incidents w)) /\
  (forall key events inc,
     synthesized W clk py_str key events inc ->
     List.filter (fun old => py_eq (node_id old) (VStr key))
                 (upsert key inc (incidents w)) = [inc]).
Proof.
  intros Hr. split.
  - apply (reachable_unique_keys W clk py_str), Hr.
  - intros key events inc Hs. apply upsert_replaces.
    eapply synthesized_key, Hs.
Qed.

Lemma C9_one_incident_per_key_witness :
  reachable 30 clock_1000 py_str_of scenario_run /\
  NoDup (keys (incidents scenario_run)).
Proof.
  assert (Hr : reachable 30 clock_1000 py_str_of scenario_run)
    by apply run_reachable.
  split; [exact Hr |].
  exact (proj1 (C9_one_incident_per_key 30 clock_1000 py_str_of scenario_run Hr)).
Defined.

(** ** C2: eviction from the event window *)

(** The loop removes a prefix of the window and stops at the first event
    that is not stale. *)
Lemma evict_front_prefix (cutoff : Q) (evs : list event) :
  exists dropped,
    evs = dropped ++ snd (evict_front cutoff evs) /\
    Forall (fun e => exists t, num_of (get e "timestamp" (VNum 0)) = Some t /\ t < cutoff)
           dropped.
Proof.
  induction evs as [|e rest IH]; simpl.
  - exists []. split; [reflexivity | constructor].
  - destruct (dict_lookup "timestamp" e) as [t|] eqn:Ht;
      [| exists []; split; [reflexivity | constructor]].
    destruct (py_lt t (VNum cutoff)) as [[|]|x] eqn:Hlt;
      try (exists []; split; [reflexivity | constructor]).
    destruct IH as (dropped & Heq & Hall).
    exists (e :: dropped). split; [simpl; congruence |].
    constructor; [| exact Hall].
    destruct (py_lt_numeric _ _ _ Hlt) as (x & y & Hx & Hy & Hr);
      [right; discriminate |].
    injection Hy as <-. exists x. split.
    + unfold get. rewrite Ht. exact Hx.
    + apply Qltb_lt. congruence.
Qed.

(** When the timestamps are numbers in arrival order, nothing stale is left. *)
Lemma evict_front_sorted (cutoff : Q) (evs : list event) :
  Forall (fun e => exists t, dict_lookup "timestamp" e = Some t /\ num_of t <> None) evs ->
  StronglySorted (fun a b => stamp a <= stamp b) evs ->
  fst (evict_front cutoff evs) = Ok tt /\
  Forall (fun e => cutoff <= stamp e) (snd (evict_front cutoff evs)).
Proof.
  induction evs as [|e rest IH]; intros Hnum Hs; simpl.
  - split; [reflexivity | constructor].
  - inversion Hnum as [|? ? (t & Ht & Hn) Hnum']; subst.
    inversion Hs as [|? ? Hs' Hle]; subst.
    rewrite Ht. destruct (num_of t) as [q|] eqn:Hq; [| congruence].
    assert (He : stamp e = q) by (unfold stamp, get, numval; rewrite Ht, Hq; reflexivity).
    assert (Hlt : py_lt t (VNum cutoff) = Ok (Qltb q cutoff)).
    { destruct t; simpl in *; try discriminate; injection Hq as <-; reflexivity. }
    rewrite Hlt. destruct (Qltb q cutoff) eqn:Hc.
    + apply IH; assumption.
    + apply Qltb_ge in Hc. simpl. split; [reflexivity |].
      constructor; [rewrite He; exact Hc |].
      eapply List.Forall_impl; [| exact Hle].
      intros a Ha. simpl in Ha. rewrite He in Ha. eapply Qle_trans; eauto.
Qed.

(** C2 fails on the code (a defect of the code): after a fresh RAN alarm,
    a CORE alarm whose timestamp 910 is below the cutoff 1000 - 30 is
    ingested; the pass it triggers leaves it in the window, behind the
    fresh event at the front. *)
Theorem C2_stale_event_retained :
  exists fresh stale,
    normalized_events stale_capital_run = [fresh; stale] /\
    stamp fresh == 1000 /\
    stamp stale == 910 /\
    stamp stale < clock_1000 0 - window 30.
Proof.
  eexists. eexists. split; [vm_compute; reflexivity |].
  repeat split; vm_compute; reflexivity.
Qed.

(** ** C4: the canonical event mapper *)

(** C4, as stated, fails: for a VendorA payload without a severity the
    mapper returns severity "major", not "minor" (and, without "cell" and
    "node", the node_id [None]). *)
Lemma C4_counterexample :
  exists ev,
    fst (map_to_canonical clock_1000 [("vendor", VStr "VendorA")] init) = Ok ev /\
    dict_lookup "severity" [("vendor", VStr "VendorA")] = None /\
    get ev "severity" VNone = VStr "major" /\
    get ev "severity" VNone <> VStr "minor" /\
    get ev "node_id" VNone = VNone.
Proof.
  eexists. split; [reflexivity |]. repeat split; try reflexivity. discriminate.
Qed.

(** C4, amended: the mapper returns an event for every payload, after one
    reading of the clock.  A missing timestamp field defaults to the current
    time for every vendor.  For VendorA, VendorB and VendorC the domain is
    fixed (RAN, CORE, TRANSPORT) and a missing severity field defaults to
    "major" for VendorA and to "minor" for VendorB and VendorC.  For any
    other vendor, missing fields default to domain "UNKNOWN", node_id
    "unknown" and severity "minor". *)
Theorem C4_mapper_total (clk : nat -> Q) (payload : dict) (w : world) :
  exists ev,
    map_to_canonical clk payload w = (Ok ev, tick w) /\
    let v := get payload "vendor" (VStr "unknown") in
    let now := VNum (clk (ticks w)) in
    if py_eq v (VStr "VendorA") then
      get ev "domain" VNone = VStr "RAN" /\
      (dict_lookup "ts" payload = None -> get ev "timestamp" VNone = now) /\
      (dict_lookup "severity" payload = None -> get ev "severity" VNone = VStr "major")
    else if py_eq v (VStr "VendorB") then
      get ev "domain" VNone = VStr "CORE" /\
      (dict_lookup "time" payload = None -> get ev "timestamp" VNone = now) /\
      (dict_lookup "level" payload = None -> get ev "severity" VNone = VStr "minor")
    else if py_eq v (VStr "VendorC") then
      get ev "domain" VNone = VStr "TRANSPORT" /\
      (dict_lookup "ts" payload = None -> get ev "timestamp" VNone = now) /\
      (dict_lookup "severity" payload = None -> get ev "severity" VNone = VStr "minor")
    else
      (dict_lookup "ts" payload = None -> get ev "timestamp" VNone = now) /\
      (dict_lookup "domain" payload = None -> get ev "domain" VNone = VStr "UNKNOWN") /\
      (dict_lookup "node_id" payload = None -> get ev "node_id" VNone = VStr "unknown") /\
      (dict_lookup "severity" payload = None -> get ev "severity" VNone = VStr "minor").
Proof.
  unfold map_to_canonical. cbv zeta.
  destruct (py_eq _ (VStr "VendorA"));
    [| destruct (py_eq _ (VStr "VendorB"));
       [| destruct (py_eq _ (VStr "VendorC"))]];
    (eexists; split; [reflexivity |]);
    repeat split; try reflexivity;
    intros H; unfold get at 1; simpl; unfold get; rewrite H; reflexivity.
Qed.

Lemma C4_mapper_total_witness :
  exists ev,
    map_to_canonical clock_1000 [("vendor", VStr "Acme"); ("alarm_type", VStr "LOS")] init
      = (Ok ev, tick init) /\
    get ev "timestamp" VNone = VNum 1000 /\
    get ev "domain" VNone = VStr "UNKNOWN" /\
    get ev "node_id" VNone = VStr "unknown" /\
    get ev "severity" VNone = VStr "minor".
Proof.
  destruct (C4_mapper_total clock_1000
              [("vendor", VStr "Acme"); ("alarm_type", VStr "LOS")] init)
    as (ev & Hrun & Hts & Hdom & Hnode & Hsev).
  exists ev. split; [exact Hrun |].
  exact (conj (Hts eq_refl) (conj (Hdom eq_refl) (conj (Hnode eq_refl) (Hsev eq_refl)))).
Defined.

(** ** C10: what an update of a single-domain incident leaves alone *)

Lemma update_recent_first (vendor' node_id' : pyval) (cutoff : Q)
    (upd : incident -> incident) (before after : list incident) (inc : incident) :
  Forall (fun old => is_recent_for vendor' node_id' cutoff old = false) before ->
  is_recent_for vendor' node_id' cutoff inc = true ->
  update_recent vendor' node_id' cutoff upd (before ++ inc :: after)
    = Some (before ++ upd inc :: after).
Proof.
  intros Hb Hi. induction Hb as [|old before Hold Hb IH]; simpl.
  - rewrite Hi. reflexivity.
  - rewrite Hold, IH. reflexivity.
Qed.

(** C10: when the deduplicator finds a recent incident for the pair (the
    first one in the store that matches), the call returns normally and
    replaces that incident by one with the new supporting event, timestamp
    and explanation; its incident_id, vendor, domain, node_id, root cause,
    confidence and is_critical flag are the old ones, whatever the severity
    of the new event; every other incident, the correlated store and the
    event window are unchanged. *)
Theorem C10_update_frame (clk : nat -> Q) (py_str : pyval -> string)
    (ev : event) (w : world) (ts : Q)
    (before after : list incident) (inc : incident) :
  num_of (get ev "timestamp" (VNum (clk (ticks w)))) = Some ts ->
  single_domain_incidents w = before ++ inc :: after ->
  Forall (fun old => is_recent_for (get ev "vendor" (VStr "Unknown"))
                       (get ev "node_id" (VStr "unknown")) (ts - 60) old = false)
         before ->
  is_recent_for (get ev "vendor" (VStr "Unknown"))
                (get ev "node_id" (VStr "unknown")) (ts - 60) inc = true ->
  exists inc',
    process_single_domain_incident clk py_str ev w
      = (Ok tt, set_single_domain_incidents (before ++ inc' :: after) (tick w)) /\
    supporting_events inc' = [ev] /\
    timestamp inc' = ts /\
    explanation inc' =
      ("Updated " ++ py_str (get ev "domain" (VStr "Unknown")) ++ " issue on "
         ++ py_str (get ev "node_id" (VStr "unknown")))%string /\
    confidence inc' = confidence inc /\
    is_critical inc' = is_critical inc /\
    probable_root_cause inc' = probable_root_cause inc /\
    incident_id inc' = incident_id inc /\
    vendor inc' = vendor inc /\
    domain inc' = domain inc /\
    node_id inc' = node_id inc /\
    is_correlated inc' = is_correlated inc.
Proof.
  intros Hts Hsd Hb Hi.
  eexists. split.
  - unfold process_single_domain_incident, bind, time_time, lift, gets, numeric, modify.
    cbn [ticks single_domain_incidents]. rewrite Hts. rewrite Hsd.
    rewrite (update_recent_first _ _ _ _ before after inc Hb Hi). reflexivity.
  - repeat split; reflexivity.
Qed.

Lemma C10_update_frame_witness :
  exists inc',
    process_single_domain_incident clock_1000 py_str_of critical_event
        one_minor_alarm_run
      = (Ok tt, set_single_domain_incidents ([] ++ inc' :: [])
                  (tick one_minor_alarm_run)) /\
    supporting_events inc' = [critical_event] /\
    confidence inc' = 6 # 10 /\
    is_critical inc' = false /\
    incident_id inc' = "INC-VendorA-Cell-1-995".
Proof.
  destruct (C10_update_frame clock_1000 py_str_of critical_event
              one_minor_alarm_run 1000 [] [] minor_incident)
    as (inc' & Hrun & Hev & _ & _ & Hc & Hi & _ & Hid & _).
  - reflexivity.
  - vm_compute. reflexivity.
  - constructor.
  - vm_compute. reflexivity.
  - exists inc'. split; [exact Hrun |].
    exact (conj Hev (conj Hc (conj Hi Hid))).
Defined.

(** ** More on rounding *)

Lemma round_half_even_comp (x y : Q) : x == y -> round_half_even x = round_half_even y.
Proof.
  intros H. unfold round_half_even.
  rewrite (Qfloor_comp _ _ H).
  assert (Hc : Qcompare (x - inject_Z (Qfloor y)) (1 # 2)
               = Qcompare (y - inject_Z (Qfloor y)) (1 # 2)).
  { apply Qcompare_comp; [rewrite H; reflexivity | reflexivity]. }
  rewrite Hc. reflexivity.
Qed.

Lemma py_round2_comp (x y : Q) : x == y -> py_round2 x = py_round2 y.
Proof.
  intros H. unfold py_round2.
  rewrite (round_half_even_comp (x * 100) (y * 100)); [reflexivity |].
  rewrite H. reflexivity.
Qed.

Lemma Qfloor_shift (x : Q) (n : Z) : Qfloor (x + inject_Z n) = (Qfloor x + n)%Z.
Proof.
  pose proof (Qfloor_le x) as H1. pose proof (Qlt_floor x) as H2.
  pose proof (Qfloor_le (x + inject_Z n)) as H3.
  pose proof (Qlt_floor (x + inject_Z n)) as H4.
  rewrite inject_Z_plus in H2, H4. change (inject_Z 1) with 1 in H2, H4.
  assert (Ha : inject_Z (Qfloor x + n) < inject_Z (Qfloor (x + inject_Z n)) + 1).
  { rewrite inject_Z_plus. lra. }
  assert (Hb : inject_Z (Qfloor (x + inject_Z n)) < inject_Z (Qfloor x + n) + 1).
  { rewrite inject_Z_plus. lra. }
  change 1 with (inject_Z 1) in Ha, Hb.
  rewrite <- inject_Z_plus, <- Zlt_Qlt in Ha, Hb. lia.
Qed.

Lemma round_half_even_shift (x : Q) (n : Z) :
  Z.even n = true ->
  round_half_even (x + inject_Z n) = (round_half_even x + n)%Z.
Proof.
  intros Hn. unfold round_half_even. rewrite Qfloor_shift.
  assert (Hc : Qcompare (x + inject_Z n - inject_Z (Qfloor x + n)) (1 # 2)
               = Qcompare (x - inject_Z (Qfloor x)) (1 # 2)).
  { apply Qcompare_comp; [rewrite inject_Z_plus; ring | reflexivity]. }
  rewrite Hc. clear Hc.
  destruct (Qcompare (x - inject_Z (Qfloor x)) (1 # 2)); try lia.
  rewrite Z.even_add, Hn. destruct (Z.even (Qfloor x)); simpl; lia.
Qed.

Lemma round_half_even_mono (x y : Q) :
  x <= y -> (round_half_even x <= round_half_even y)%Z.
Proof.
  intros Hxy.
  pose proof (Qfloor_resp_le _ _ Hxy) as Hf.
  destruct (Z.eq_dec (Qfloor x) (Qfloor y)) as [E|N].
  - unfold round_half_even. rewrite <- E.
    destruct (Qcompare (x - inject_Z (Qfloor x)) (1 # 2)) eqn:Hx;
      destruct (Qcompare (y - inject_Z (Qfloor x)) (1 # 2)) eqn:Hy;
      try (destruct (Z.even (Qfloor x)); lia); try lia; exfalso.
    + apply Qeq_alt in Hx. apply Qlt_alt in Hy. lra.
    + apply Qgt_alt in Hx. apply Qeq_alt in Hy. lra.
    + apply Qgt_alt in Hx. apply Qlt_alt in Hy. lra.
  - transitivity (Qfloor x + 1)%Z.
    + unfold round_half_even.
      destruct (Qcompare _ _); [destruct (Z.even _) | |]; lia.
    + transitivity (Qfloor y); [lia | apply round_half_even_ge_floor].
Qed.

Lemma py_round2_mono (x y : Q) : x <= y -> py_round2 x <= py_round2 y.
Proof.
  intros H. unfold py_round2.
  assert (Hr : (round_half_even (x * 100) <= round_half_even (y * 100))%Z)
    by (apply round_half_even_mono; lra).
  rewrite Zle_Qle in Hr.
  unfold Qdiv. apply Qmult_le_compat_r; [exact Hr | vm_compute; discriminate].
Qed.

Lemma py_round2_shift_30 (x : Q) : py_round2 (x + (3 # 10)) == py_round2 x + (3 # 10).
Proof.
  unfold py_round2.
  rewrite (round_half_even_comp ((x + (3 # 10)) * 100) (x * 100 + inject_Z 30)).
  - rewrite round_half_even_shift by reflexivity.
    rewrite inject_Z_plus. change (inject_Z 30) with 30. field.
  - change (inject_Z 30) with 30. ring.
Qed.

(** ** C6: the boost for a critical event *)

Ltac synthesized_by_computation :=
  exists [VStr "RAN"; VStr "CORE"], init;
  split; [reflexivity |]; split; [simpl; lia |]; split; [simpl; lia |];
  vm_compute; reflexivity.

(** C6, as stated, fails: two groups with the same events up to one
    severity ("critical" against "minor"), all timestamps equal, both get
    confidence 0.99: the cap leaves no room for the boost. *)
Lemma C6_counterexample :
  synthesized 30 clock_1000 py_str_of "node-Cell-1"
    (group_with 1000 "critical") (incident_of (group_with 1000 "critical")) /\
  synthesized 30 clock_1000 py_str_of "node-Cell-1"
    (group_with 1000 "minor") (incident_of (group_with 1000 "minor")) /\
  is_critical (incident_of (group_with 1000 "critical")) = true /\
  is_critical (incident_of (group_with 1000 "minor")) = false /\
  severity_factor (group_with 1000 "critical") == severity_factor (group_with 1000 "minor") /\
  confidence (incident_of (group_with 1000 "critical")) == 99 # 100 /\
  confidence (incident_of (group_with 1000 "minor")) == 99 # 100 /\
  ~ confidence (incident_of (group_with 1000 "minor")) + (3 # 10)
      <= confidence (incident_of (group_with 1000 "critical")).
Proof.
  split; [synthesized_by_computation |].
  split; [synthesized_by_computation |].
  split; [reflexivity |]. split; [reflexivity |].
  split; [vm_compute; reflexivity |].
  split; [vm_compute; reflexivity |].
  split; [vm_compute; reflexivity |].
  vm_compute. intros H. apply H. reflexivity.
Qed.

(** C6, amended: of two synthesized groups with the same number of events,
    the same number of distinct domains, the same severity_factor and the
    same extreme timestamps, both within the range of [binary64_range], one
    flagged critical and the other not, the critical one has a confidence
    that is never lower and less than 0.32 higher; it is more than 0.28
    higher (0.3 up to the rounding of the two stored values) when the
    critical group's score stays within the cap, that is when the common
    uncapped score plus 0.3 is at most 0.99; the two confidences are equal
    when the common uncapped score is 0.99 or more. *)
Theorem C6_critical_boost (W : Z) (clk : nat -> Q) (py_str : pyval -> string)
    (key1 key2 : string) (events1 events2 : list event) (inc1 inc2 : incident) :
  synthesized W clk py_str key1 events1 inc1 ->
  synthesized W clk py_str key2 events2 inc2 ->
  length events1 = length events2 ->
  distinct_domains events1 = distinct_domains events2 ->
  severity_factor events1 == severity_factor events2 ->
  max_stamp events1 == max_stamp events2 ->
  min_stamp events1 == min_stamp events2 ->
  is_critical inc1 = true ->
  is_critical inc2 = false ->
  binary64_range W events1 ->
  binary64_range W events2 ->
  confidence inc2 <= confidence inc1 /\
  confidence inc1 - confidence inc2 < 32 # 100 /\
  (uncapped_score W events2 + (3 # 10) <= 99 # 100 ->
   28 # 100 < confidence inc1 - confidence inc2) /\
  (99 # 100 <= uncapped_score W events2 -> confidence inc1 == confidence inc2).
Proof.
  intros (d1 & w1 & Hd1 & _ & _ & Hs1) (d2 & w2 & Hd2 & _ & _ & Hs2)
         Hlen Hdom Hsf Hmax Hmin Hc1 Hc2 _ _.
  apply synthesize_inv in Hs1 as (tp1 & hc1 & Htp1 & _ & _ & _ & Hconf1 & Hi1 & _).
  apply synthesize_inv in Hs2 as (tp2 & hc2 & Htp2 & _ & _ & _ & Hconf2 & Hi2 & _).
  rewrite Hc1 in Hi1. rewrite Hc2 in Hi2. subst hc1 hc2.
  apply temporal_proximity_inv in Htp1 as (_ & _ & ->).
  apply temporal_proximity_inv in Htp2 as (_ & _ & ->).
  apply py_set_distinct in Hd1, Hd2.
  assert (Hlen1 : length d1 = distinct_domains events1) by (rewrite Hd1; reflexivity).
  assert (Hlen2 : length d2 = distinct_domains events2) by (rewrite Hd2; reflexivity).
  set (B1 := uncapped_score W events1).
  set (B2 := uncapped_score W events2).
  assert (HB : B1 == B2).
  { unfold B1, B2, uncapped_score. rewrite Hlen, Hdom, Hsf, Hmax, Hmin. reflexivity. }
  assert (E1 : raw_confidence events1 d1
                 (1 - (max_stamp events1 - min_stamp events1) / inject_Z W) true
               = Qmin (99 # 100) (B1 + (3 # 10))).
  { unfold raw_confidence, B1, uncapped_score. rewrite Hlen1. reflexivity. }
  assert (E2 : raw_confidence events2 d2
                 (1 - (max_stamp events2 - min_stamp events2) / inject_Z W) false
               = Qmin (99 # 100) (B2 + 0)).
  { unfold raw_confidence, B2, uncapped_score. rewrite Hlen2. reflexivity. }
  rewrite Hconf1, Hconf2, E1, E2. clear Hconf1 Hconf2 E1 E2.
  set (m1 := Qmin (Qmin (99 # 100) (B1 + (3 # 10))) (99 # 100)).
  set (m2 := Qmin (Qmin (99 # 100) (B2 + 0)) (99 # 100)).
  assert (Hm1 : m1 == Qmin (99 # 100) (B2 + (3 # 10))).
  { unfold m1. rewrite Q.min_comm, Q.min_assoc, Q.min_id, HB. reflexivity. }
  assert (Hm2 : m2 == Qmin (99 # 100) B2).
  { unfold m2. rewrite Q.min_comm, Q.min_assoc, Q.min_id.
    apply Q.min_compat; [reflexivity | ring]. }
  assert (Hle : m2 <= m1).
  { rewrite Hm1, Hm2. apply Q.min_le_compat_l. lra. }
  assert (Hup : m1 <= m2 + (3 # 10)).
  { rewrite Hm1, Hm2.
    destruct (Q.min_spec (99 # 100) B2) as [[_ ->] | [_ ->]];
      destruct (Q.min_spec (99 # 100) (B2 + (3 # 10))) as [[H ->] | [H ->]]; lra. }
  split; [apply py_round2_mono, Hle |]. split; [| split].
  - apply py_round2_mono in Hup. rewrite py_round2_shift_30 in Hup. lra.
  - intros Hcap.
    rewrite (py_round2_comp m1 (B2 + (3 # 10))).
    + rewrite (py_round2_comp m2 B2).
      * rewrite py_round2_shift_30. lra.
      * rewrite Hm2. apply Q.min_r. lra.
    + rewrite Hm1. apply Q.min_r. lra.
  - intros Hcap.
    rewrite (py_round2_comp m1 (99 # 100)), (py_round2_comp m2 (99 # 100)).
    + reflexivity.
    + rewrite Hm2. apply Q.min_l. exact Hcap.
    + rewrite Hm1. apply Q.min_l. lra.
Qed.

(** The second event is 150 s older than the first: the score is 0.68
    without a critical event and 0.98 with one. *)
Lemma C6_critical_boost_witness :
  synthesized 30 clock_1000 py_str_of "node-Cell-1"
    (group_with 850 "critical") (incident_of (group_with 850 "critical")) /\
  synthesized 30 clock_1000 py_str_of "node-Cell-1"
    (group_with 850 "minor") (incident_of (group_with 850 "minor")) /\
  binary64_range 30 (group_with 850 "critical") /\
  binary64_range 30 (group_with 850 "minor") /\
  uncapped_score 30 (group_with 850 "minor") + (3 # 10) <= 99 # 100 /\
  confidence (incident_of (group_with 850 "minor"))
    <= confidence (incident_of (group_with 850 "critical")) /\
  confidence (incident_of (group_with 850 "critical"))
    - confidence (incident_of (group_with 850 "minor")) < 32 # 100 /\
  28 # 100 < confidence (incident_of (group_with 850 "critical"))
             - confidence (incident_of (group_with 850 "minor")).
Proof.
  assert (H1 : synthesized 30 clock_1000 py_str_of "node-Cell-1"
                 (group_with 850 "critical") (incident_of (group_with 850 "critical")))
    by synthesized_by_computation.
  assert (H2 : synthesized 30 clock_1000 py_str_of "node-Cell-1"
                 (group_with 850 "minor") (incident_of (group_with 850 "minor")))
    by synthesized_by_computation.
  assert (Hb1 : binary64_range 30 (group_with 850 "critical")).
  { split; [vm_compute; discriminate |]. split.
    - repeat (constructor; [vm_compute; discriminate |]). constructor.
    - vm_compute. discriminate. }
  assert (Hb2 : binary64_range 30 (group_with 850 "minor")).
  { split; [vm_compute; discriminate |]. split.
    - repeat (constructor; [vm_compute; discriminate |]). constructor.
    - vm_compute. discriminate. }
  assert (Hcap : uncapped_score 30 (group_with 850 "minor") + (3 # 10) <= 99 # 100)
    by (vm_compute; discriminate).
  destruct (C6_critical_boost 30 clock_1000 py_str_of "node-Cell-1" "node-Cell-1"
              (group_with 850 "critical") (group_with 850 "minor")
              (incident_of (group_with 850 "critical"))
              (incident_of (group_with 850 "minor")) H1 H2)
    as (Hle & Hhi & Hlo & _); try reflexivity; try assumption.
  exact (conj H1 (conj H2 (conj Hb1 (conj Hb2 (conj Hcap (conj Hle (conj Hhi (Hlo Hcap)))))))).
Defined.

(** ** C3: the analytics rollup *)

Lemma key_of_hashable (v : pyval) : hashable v = true -> exists k, key_of v = Some k.
Proof. destruct v; simpl; intros H; try discriminate; eauto. Qed.

Lemma event_keys_spec (evs : list event) :
  Forall (fun ev => hashable (get ev "vendor" (VStr "Unknown")) = true /\
                    hashable (get ev "domain" (VStr "Unknown")) = true) evs ->
  forall vs ds : gset hkey,
  exists vs' ds' : gset hkey,
    event_keys evs vs ds = Ok (vs', ds') /\
    (forall k, k ∈ vs' <-> k ∈ vs \/ Some k ∈ map vendor_key evs) /\
    (forall k, k ∈ ds' <-> k ∈ ds \/ Some k ∈ map domain_key evs).
Proof.
  induction 1 as [|ev evs [Hv Hd] _ IH]; intros vs ds; simpl.
  - exists vs, ds. split; [reflexivity |].
    split; intros k; rewrite elem_of_nil; tauto.
  - destruct (key_of_hashable _ Hv) as (kv & Hkv).
    destruct (key_of_hashable _ Hd) as (kd & Hkd).
    rewrite Hkv, Hkd.
    destruct (IH ({[kv]} ∪ vs) ({[kd]} ∪ ds)) as (vs' & ds' & Hrun & Hvs & Hds).
    exists vs', ds'. split; [exact Hrun |].
    assert (Hinj : forall a b : hkey, Some a = Some b <-> a = b)
      by (intros a b; split; [intros [= ->] | intros ->]; reflexivity).
    split; intros k; [rewrite Hvs | rewrite Hds];
      rewrite elem_of_union, elem_of_singleton, elem_of_cons;
      unfold vendor_key, domain_key; rewrite ?Hkv, ?Hkd, Hinj; tauto.
Qed.

Lemma set_fold_incr (counts : gmap hkey nat) (s : gset hkey) (k : hkey) :
  set_fold incr counts s !! k =
  if bool_decide (k ∈ s) then Some (default 0 (counts !! k) + 1)%nat else counts !! k.
Proof.
  revert k.
  refine (set_fold_ind_L
           (fun (r : gmap hkey nat) (X : gset hkey) =>
              forall k, r !! k =
                if bool_decide (k ∈ X) then Some (default 0 (counts !! k) + 1)%nat
                else counts !! k) incr counts _ _ s).
  - intros k. rewrite bool_decide_eq_false_2; [reflexivity | apply not_elem_of_empty].
  - intros x X r Hx IH k. unfold incr.
    destruct (decide (x = k)) as [->|Hne].
    + rewrite lookup_insert_eq, IH.
      rewrite (bool_decide_eq_false_2 _ Hx).
      rewrite bool_decide_eq_true_2; [reflexivity | set_solver].
    + rewrite lookup_insert_ne by exact Hne. rewrite IH.
      destruct (bool_decide (k ∈ X)) eqn:Hk.
      * apply bool_decide_eq_true_1 in Hk.
        rewrite bool_decide_eq_true_2; [reflexivity | set_solver].
      * apply bool_decide_eq_false_1 in Hk.
        rewrite bool_decide_eq_false_2; [reflexivity |].
        rewrite elem_of_union, elem_of_singleton. intros [E | E]; auto.
Qed.

Lemma entry_default (n : nat) : default 0%nat (entry n) = n.
Proof. unfold entry. destruct n; reflexivity. Qed.

Lemma rollup_spec (all_incidents : list incident) :
  Forall scalar_keys all_incidents ->
  forall (vc tc : gmap hkey nat) (bv bd : hkey -> nat),
    counts_are vc bv -> counts_are tc bd ->
    exists vc' tc',
      rollup all_incidents vc tc = Ok (vc', tc') /\
      counts_are vc' (fun k => bv k + length (List.filter (mentions_vendor k) all_incidents))%nat /\
      counts_are tc' (fun k => bd k + length (List.filter (mentions_domain k) all_incidents))%nat.
Proof.
  unfold counts_are.
  induction 1 as [|inc rest Hinc _ IH]; intros vc tc bv bd Hvc Htc; simpl.
  - exists vc, tc. split; [reflexivity |].
    split; intros k; rewrite Nat.add_0_r; [apply Hvc | apply Htc].
  - destruct (event_keys_spec _ Hinc ∅ ∅) as (vs & ds & Hrun & Hvs & Hds).
    rewrite Hrun.
    destruct (IH (set_fold incr vc vs) (set_fold incr tc ds)
                 (fun k => bv k + (if mentions_vendor k inc then 1 else 0))%nat
                 (fun k => bd k + (if mentions_domain k inc then 1 else 0))%nat)
      as (vc' & tc' & Hroll & Hvc' & Htc').
    + intros k. rewrite set_fold_incr, Hvc, entry_default. unfold mentions_vendor.
      rewrite (bool_decide_ext (k ∈ vs) (Some k ∈ map vendor_key (supporting_events inc)))
        by (rewrite Hvs, elem_of_empty; tauto).
      destruct (bool_decide _); [| rewrite Nat.add_0_r; reflexivity].
      unfold entry. rewrite Nat.add_1_r. reflexivity.
    + intros k. rewrite set_fold_incr, Htc, entry_default. unfold mentions_domain.
      rewrite (bool_decide_ext (k ∈ ds) (Some k ∈ map domain_key (supporting_events inc)))
        by (rewrite Hds, elem_of_empty; tauto).
      destruct (bool_decide _); [| rewrite Nat.add_0_r; reflexivity].
      unfold entry. rewrite Nat.add_1_r. reflexivity.
    + exists vc', tc'. split; [exact Hroll |].
      split; intros k; [rewrite Hvc' | rewrite Htc']; f_equal;
        [destruct (mentions_vendor k inc) | destruct (mentions_domain k inc)];
        simpl; lia.
Qed.

(** C3, as stated, fails: with no correlated incident and one single-domain
    incident (of VendorA, in domain RAN) the rollup reports no vendor, no
    domain, a total of 0 and health "Unknown". *)
Lemma C3_counterexample :
  incidents one_minor_alarm_run = [] /\
  single_domain_incidents one_minor_alarm_run = [minor_incident] /\
  mentions_vendor (HStr "VendorA") minor_incident = true /\
  get_analytics one_minor_alarm_run = Ok (mkAnalytics ∅ ∅ 0 "Unknown").
Proof.
  split; [reflexivity |]. split; [reflexivity |]. split; reflexivity.
Qed.

(** C3, amended: when the correlated collection is not empty (and the
    vendors and domains of the supporting events are hashable values), the
    rollup returns, over the union of the two collections, for each vendor
    and for each domain the number of incidents that have a supporting
    event of it (no entry when that number is 0), the total number of
    incidents, and the health "Healthy" below 5 incidents, "Warning" below
    15, "Critical" otherwise.  When both collections are empty it returns
    empty counts, a total of 0 and the health "Unknown". *)
Theorem C3_analytics_rollup (w : world) :
  (incidents w = [] -> single_domain_incidents w = [] ->
   get_analytics w = Ok (mkAnalytics ∅ ∅ 0 "Unknown")) /\
  (incidents w <> [] ->
   Forall scalar_keys (incidents w ++ single_domain_incidents w) ->
   exists a,
     get_analytics w = Ok a /\
     (forall k, vendor_counts a !! k =
                entry (length (List.filter (mentions_vendor k)
                                 (incidents w ++ single_domain_incidents w)))) /\
     (forall k, type_counts a !! k =
                entry (length (List.filter (mentions_domain k)
                                 (incidents w ++ single_domain_incidents w)))) /\
     total_incidents a = length (incidents w ++ single_domain_incidents w) /\
     ((total_incidents a < 5)%nat -> network_health a = "Healthy") /\
     ((5 <= total_incidents a < 15)%nat -> network_health a = "Warning") /\
     ((15 <= total_incidents a)%nat -> network_health a = "Critical")).
Proof.
  split.
  - intros Hi _. unfold get_analytics. rewrite Hi. reflexivity.
  - intros Hne Hall. unfold get_analytics.
    destruct (incidents w) as [|inc rest] eqn:Hi; [congruence |].
    destruct (rollup_spec _ Hall ∅ ∅ (fun _ => 0%nat) (fun _ => 0%nat))
      as (vc & tc & Hroll & Hvc & Htc).
    + intros k. apply lookup_empty.
    + intros k. apply lookup_empty.
    + rewrite Hroll. eexists. split; [reflexivity |].
      cbn [vendor_counts type_counts total_incidents network_health].
      split; [exact Hvc |]. split; [exact Htc |]. split; [reflexivity |].
      unfold health_of.
      split; [| split]; intros Hn.
      * apply Nat.ltb_lt in Hn. rewrite Hn. reflexivity.
      * destruct Hn as [H5 H15].
        apply Nat.ltb_ge in H5. apply Nat.ltb_lt in H15. rewrite H5, H15. reflexivity.
      * assert (H5 : (5 <= length ((inc :: rest) ++ single_domain_incidents w))%nat) by lia.
        apply Nat.ltb_ge in H5, Hn. rewrite H5, Hn. reflexivity.
Qed.

Lemma scenario_scalar_keys :
  Forall scalar_keys (incidents scenario_run ++ single_domain_incidents scenario_run).
Proof.
  vm_compute. repeat (constructor; [repeat constructor |]). constructor.
Defined.

Lemma C3_analytics_rollup_witness :
  get_analytics init = Ok (mkAnalytics ∅ ∅ 0 "Unknown") /\
  incidents scenario_run <> [] /\
  exists a,
    get_analytics scenario_run = Ok a /\
    vendor_counts a !! HStr "VendorA" = Some 3%nat /\
    type_counts a !! HStr "CORE" = Some 2%nat /\
    total_incidents a = 3%nat /\
    network_health a = "Healthy".
Proof.
  split; [exact (proj1 (C3_analytics_rollup init) eq_refl eq_refl) |].
  assert (Hne : incidents scenario_run <> []) by (vm_compute; discriminate).
  split; [exact Hne |].
  destruct (proj2 (C3_analytics_rollup scenario_run) Hne scenario_scalar_keys)
    as (a & Hrun & Hvc & Htc & Htot & Hh & _).
  exists a. split; [exact Hrun |].
  split; [rewrite Hvc; vm_compute; reflexivity |].
  split; [rewrite Htc; vm_compute; reflexivity |].
  split; [rewrite Htot; vm_compute; reflexivity |].
  apply Hh. rewrite Htot. vm_compute. lia.
Defined.

(** ** C5: the retention cap *)




Section Cap.

Variable CORRELATION_WINDOW_SECONDS : Z.
Variable clk : nat -> Q.
Variable py_str : pyval -> string.




End Cap.




(** ** C8: deduplication of single-domain incidents *)

#[local] Arguments Qminus : simpl never.
#[local] Arguments Qplus : simpl never.
#[local] Arguments Qmult : simpl never.
#[local] Arguments inject_Z : simpl never.




Section SingleDomain.

Variable CORRELATION_WINDOW_SECONDS : Z.
Variable clk : nat -> Q.
Variable py_str : pyval -> string.

Abbreviation process := (process_single_domain_incident clk py_str).



(** Events of one node, all in one domain. *)
Variables node dom : pyval.
Hypothesis node_hashable : hashable node = true.
Hypothesis dom_hashable : hashable dom = true.
Hypothesis node_known : py_eq node (VStr "unknown") = false.





End SingleDomain.



Section Dedup.

Variable CORRELATION_WINDOW_SECONDS : Z.
Variable clk : nat -> Q.
Variable py_str : pyval -> string.
Variables v n d : pyval.
Hypothesis v_hashable : hashable v = true.
Hypothesis n_hashable : hashable n = true.
Hypothesis d_hashable : hashable d = true.
Hypothesis n_known : py_eq n (VStr "unknown") = false.

Abbreviation process := (process_single_domain_incident clk py_str).
Abbreviation W := (window CORRELATION_WINDOW_SECONDS).






End Dedup.




(** * Further properties of the engine *)

(** ** Parts of the state a computation leaves alone *)

Lemma preserves_ret {A B} (f : world -> B) (a : A) : preserves f (ret a).
Proof. intros w. reflexivity. Qed.

Lemma preserves_lift {A B} (f : world -> B) (r : res A) : preserves f (lift r).
Proof. intros w. reflexivity. Qed.

Lemma preserves_gets {A B} (f : world -> B) (g : world -> A) : preserves f (gets g).
Proof. intros w. reflexivity. Qed.

Lemma preserves_bind {A B C} (f : world -> C) (m : M A) (k : A -> M B) :
  preserves f m -> (forall a, preserves f (k a)) -> preserves f (bind m k).
Proof.
  intros Hm Hk w. specialize (Hm w). unfold bind.
  destruct (m w) as [[a|e] w1]; simpl in *; [rewrite Hk | ]; exact Hm.
Qed.

Lemma preserves_modify {B} (f : world -> B) (g : world -> world) :
  (forall w, f (g w) = f w) -> preserves f (modify g).
Proof. intros H w. apply H. Qed.

Lemma preserves_time_time {B} (f : world -> B) (clk : nat -> Q) :
  (forall w, f (tick w) = f w) -> preserves f (time_time clk).
Proof. intros H w. apply H. Qed.

Lemma preserves_for_each {A B} (f : world -> B) (body : A -> M unit) (l : list A) :
  (forall x, preserves f (body x)) -> preserves f (for_each body l).
Proof.
  intros H. induction l as [|x l IH]; simpl.
  - apply preserves_ret.
  - apply preserves_bind; [apply H | intros _; exact IH].
Qed.

Create HintDb preserves.
#[local] Hint Resolve preserves_ret preserves_lift preserves_gets : preserves.

Section Frames.

Variable CORRELATION_WINDOW_SECONDS : Z.
Variable clk : nat -> Q.
Variable py_str : pyval -> string.

Lemma window_process (ev : event) :
  preserves normalized_events (process_single_domain_incident clk py_str ev).
Proof.
  unfold process_single_domain_incident.
  apply preserves_bind; [apply preserves_time_time; reflexivity | intros t].
  apply preserves_bind; [auto with preserves | intros ts].
  apply preserves_bind; [auto with preserves | intros sdi].
  destruct (update_recent _ _ _ _ sdi) as [sdi'|].
  - apply preserves_modify. reflexivity.
  - apply preserves_bind; [auto with preserves | intros c].
    apply preserves_modify. reflexivity.
Qed.

Lemma window_node_loop (node_grouped : pgroups) :
  forall grouped, preserves normalized_events (node_loop clk py_str node_grouped grouped).
Proof.
  induction node_grouped as [|[node_id' events] rest IH]; intros grouped;
    cbn [node_loop].
  - apply preserves_ret.
  - apply preserves_bind; [auto with preserves | intros domains].
    destruct (Nat.leb 2 (length domains)).
    + apply preserves_bind; [auto with preserves | intros reps]. apply IH.
    + apply preserves_bind; [| intros _; apply IH].
      apply preserves_for_each, window_process.
Qed.

Lemma window_cross_domain (domains_grouped : pgroups) grouped :
  preserves normalized_events (cross_domain clk py_str domains_grouped grouped).
Proof.
  unfold cross_domain. destruct (Nat.leb 2 (length domains_grouped)).
  - apply preserves_bind; [apply preserves_time_time; reflexivity | intros t].
    apply preserves_bind; [auto with preserves | intros reps].
    apply preserves_ret.
  - apply preserves_ret.
Qed.

Lemma synthesize_frame {B} (f : world -> B) key events domains :
  (forall w, f (tick w) = f w) ->
  preserves f (synthesize CORRELATION_WINDOW_SECONDS clk py_str key events domains).
Proof.
  intros Hf. unfold synthesize.
  apply preserves_bind; [auto with preserves | intros tp].
  apply preserves_bind; [auto with preserves | intros hc].
  apply preserves_bind; [apply preserves_time_time, Hf | intros t1].
  apply preserves_bind; [apply preserves_time_time, Hf | intros t2].
  apply preserves_ret.
Qed.

Lemma synth_loop_frame {B} (f : world -> B) (grouped : list (string * list event)) :
  (forall w, f (tick w) = f w) ->
  (forall l w, f (set_incidents l w) = f w) ->
  forall new_incidents,
    preserves f (synth_loop CORRELATION_WINDOW_SECONDS clk py_str grouped new_incidents).
Proof.
  intros Hf Hs.
  induction grouped as [|[key events] rest IH]; intros new_incidents;
    cbn [synth_loop].
  - apply preserves_ret.
  - apply preserves_bind; [auto with preserves | intros vendors].
    apply preserves_bind; [auto with preserves | intros domains].
    destruct (Nat.leb 2 (length events) && Nat.leb 2 (length domains)); [| apply IH].
    apply preserves_bind; [apply synthesize_frame, Hf | intros inc].
    apply preserves_bind; [| intros _; apply IH].
    apply preserves_modify. intros w. apply Hs.
Qed.

Lemma window_retention (now : Q) :
  preserves normalized_events (retention CORRELATION_WINDOW_SECONDS now).
Proof. intros w. reflexivity. Qed.

Lemma window_correlate :
  preserves normalized_events (correlate CORRELATION_WINDOW_SECONDS clk py_str).
Proof.
  unfold correlate.
  apply preserves_bind; [auto with preserves | intros evs].
  apply preserves_bind; [auto with preserves | intros ng].
  apply preserves_bind; [auto with preserves | intros dg].
  apply preserves_bind; [apply window_node_loop | intros g].
  apply preserves_bind; [apply window_cross_domain | intros g'].
  apply synth_loop_frame; reflexivity.
Qed.

(** The pass, stage by stage: the clock, the eviction, the retention
    step, then grouping and synthesis. *)
Lemma pass_by_stages (ev : event) (w : world) :
  _process_for_correlation CORRELATION_WINDOW_SECONDS clk py_str ev w =
  let now := clk (ticks w) in
  match evict_front (now - window CORRELATION_WINDOW_SECONDS) (normalized_events w) with
  | (Ok _, kept) =>
      correlate CORRELATION_WINDOW_SECONDS clk py_str
        (mkWorld kept
           (cap_newest 50 (newer_than (now - window CORRELATION_WINDOW_SECONDS * 2)
                             (incidents w)))
           (cap_newest 100 (newer_than (now - window CORRELATION_WINDOW_SECONDS * 2)
                              (single_domain_incidents w)))
           (S (ticks w)))
  | (Raise x, kept) =>
      (Raise x, mkWorld kept (incidents w) (single_domain_incidents w) (S (ticks w)))
  end.
Proof.
  unfold _process_for_correlation, bind at 1, time_time.
  unfold bind at 1, evict_events. cbn [normalized_events].
  destruct (evict_front _ (normalized_events w)) as [[[]|x] kept]; reflexivity.
Qed.

(** What a pass does to the window is what the eviction loop does. *)
Lemma window_after_pass (ev : event) (w : world) :
  normalized_events (snd (_process_for_correlation CORRELATION_WINDOW_SECONDS clk py_str ev w))
  = snd (evict_front (clk (ticks w) - window CORRELATION_WINDOW_SECONDS)
                     (normalized_events w)).
Proof.
  rewrite pass_by_stages. cbv zeta.
  destruct (evict_front _ (normalized_events w)) as [[[]|x] kept]; [| reflexivity].
  rewrite window_correlate. reflexivity.
Qed.

End Frames.

(** X1: a correlation pass, whether it returns or raises, changes the event
    window only by removing events from its front: what it removes is a
    prefix of events whose timestamps are numbers below the cutoff
    (the clock reading minus the window); the events it keeps stay in
    their order. *)
Theorem X_pass_removes_stale_prefix (W : Z) (clk : nat -> Q) (py_str : pyval -> string)
    (ev : event) (w : world) :
  exists dropped,
    normalized_events w
      = dropped ++ normalized_events (snd (_process_for_correlation W clk py_str ev w)) /\
    Forall (fun e => exists t, num_of (get e "timestamp" (VNum 0)) = Some t /\
                               t < clk (ticks w) - window W) dropped.
Proof.
  rewrite window_after_pass. apply evict_front_prefix.
Qed.

(** X2: when every event of the window carries a number for a timestamp
    and the timestamps are in arrival order, the pass leaves no event
    older than the cutoff in the window. *)
Theorem X_pass_window_in_order (W : Z) (clk : nat -> Q) (py_str : pyval -> string)
    (ev : event) (w : world) :
  Forall (fun e => exists t, dict_lookup "timestamp" e = Some t /\ num_of t <> None)
         (normalized_events w) ->
  StronglySorted (fun a b => stamp a <= stamp b) (normalized_events w) ->
  Forall (fun e => clk (ticks w) - window W <= stamp e)
         (normalized_events (snd (_process_for_correlation W clk py_str ev w))).
Proof.
  intros Hnum Hsorted. rewrite window_after_pass.
  apply evict_front_sorted; assumption.
Qed.

Lemma X_pass_window_in_order_witness :
  Forall (fun e => clock_1000 0 - window 30 <= stamp e)
    (normalized_events
       (snd (_process_for_correlation 30 clock_1000 py_str_of critical_event
               in_order_window))).
Proof.
  apply (X_pass_window_in_order 30 clock_1000 py_str_of critical_event in_order_window).
  - repeat constructor; eexists; (split; [reflexivity | discriminate]).
  - repeat constructor; vm_compute; discriminate.
Defined.

(** ** The mapper, once more *)

Lemma map_to_canonical_returns (clk : nat -> Q) (payload : dict) (w : world) :
  exists ev, map_to_canonical clk payload w = (Ok ev, tick w) /\ canonical ev.
Proof.
  unfold map_to_canonical.
  destruct (py_eq _ (VStr "VendorA"));
    [| destruct (py_eq _ (VStr "VendorB"));
       [| destruct (py_eq _ (VStr "VendorC"))]];
    (eexists; split; [reflexivity | reflexivity]).
Qed.

(** ** The deduplicator, case by case *)

Section Deduplicator.

Variable clk : nat -> Q.
Variable py_str : pyval -> string.

Abbreviation process := (process_single_domain_incident clk py_str).

Lemma process_cases (ev : event) (w : world) :
  process ev w =
  match numeric (get ev "timestamp" (VNum (clk (ticks w)))) with
  | Raise x => (Raise x, tick w)
  | Ok ts =>
      match update_recent (get ev "vendor" (VStr "Unknown"))
              (get ev "node_id" (VStr "unknown")) (ts - 60)
              (refresh ev ts
                 ("Updated " ++ py_str (get ev "domain" (VStr "Unknown"))
                    ++ " issue on " ++ py_str (get ev "node_id" (VStr "unknown")))%string)
              (single_domain_incidents w) with
      | Some sdi' => (Ok tt, set_single_domain_incidents sdi' (tick w))
      | None =>
          match severity_is_critical ev with
          | Ok c =>
              (Ok tt,
               set_single_domain_incidents
                 (single_domain_incidents w ++ [new_single_domain_incident py_str ev ts c])
                 (tick w))
          | Raise x => (Raise x, tick w)
          end
      end
  end.
Proof.
  unfold process_single_domain_incident, bind, time_time, lift, gets, modify.
  cbn [ticks single_domain_incidents].
  destruct (numeric _) as [ts|x]; [| reflexivity].
  cbn [single_domain_incidents].
  destruct (update_recent _ _ _ _ _) as [sdi'|]; [reflexivity |].
  destruct (severity_is_critical ev) as [c|x]; reflexivity.
Qed.

Lemma update_recent_length v n c upd (l l' : list incident) :
  update_recent v n c upd l = Some l' -> length l' = length l.
Proof.
  revert l'. induction l as [|inc rest IH]; intros l'; simpl; [discriminate |].
  destruct (is_recent_for v n c inc).
  - intros [= <-]. reflexivity.
  - destruct (update_recent v n c upd rest) as [r|]; [| discriminate].
    intros [= <-]. simpl. f_equal. apply IH. reflexivity.
Qed.

Lemma update_recent_Forall (P : incident -> Prop) v n c upd (l l' : list incident) :
  (forall inc, P inc -> P (upd inc)) ->
  update_recent v n c upd l = Some l' -> Forall P l -> Forall P l'.
Proof.
  intros Hupd. revert l'. induction l as [|inc rest IH]; intros l'; simpl; [discriminate |].
  intros Hrun Hall. inversion Hall as [|? ? Hinc Hrest]; subst.
  destruct (is_recent_for v n c inc).
  - injection Hrun as <-. constructor; [apply Hupd, Hinc | exact Hrest].
  - destruct (update_recent v n c upd rest) as [r|]; [| discriminate].
    injection Hrun as <-. constructor; [exact Hinc | apply IH; [reflexivity | exact Hrest]].
Qed.

End Deduplicator.

(** X3: one call of the single-domain deduplicator reads the clock once and
    never writes the event window or the correlated store.  When it raises,
    the single-domain store is unchanged; when it returns, the store has
    kept its length (an incident was refreshed) or grown by exactly one
    incident at the end (none was recent): it never removes an incident. *)
Theorem X_deduplicator_frame (clk : nat -> Q) (py_str : pyval -> string)
    (ev : event) (w : world) :
  let w' := snd (process_single_domain_incident clk py_str ev w) in
  normalized_events w' = normalized_events w /\
  incidents w' = incidents w /\
  ticks w' = S (ticks w) /\
  (forall x, fst (process_single_domain_incident clk py_str ev w) = Raise x ->
             single_domain_incidents w' = single_domain_incidents w) /\
  (fst (process_single_domain_incident clk py_str ev w) = Ok tt ->
   length (single_domain_incidents w') = length (single_domain_incidents w) \/
   exists inc, single_domain_incidents w' = single_domain_incidents w ++ [inc] /\
               supporting_events inc = [ev]).
Proof.
  cbv zeta. rewrite process_cases.
  destruct (numeric _) as [ts|x]; [| simpl; repeat split; auto; discriminate].
  destruct (update_recent _ _ _ _ _) as [sdi'|] eqn:Hupd.
  - simpl. repeat split; auto; [discriminate |].
    intros _. left. eapply update_recent_length, Hupd.
  - destruct (severity_is_critical ev) as [c|x];
      [| simpl; repeat split; auto; discriminate].
    simpl. repeat split; auto; [discriminate |].
    intros _. right. eexists. split; reflexivity.
Qed.

(** ** An event whose timestamp is not a number *)

Lemma py_lt_not_a_number (t : pyval) (c : Q) :
  num_of t = None -> py_lt t (VNum c) = Raise TypeError.
Proof. destruct t; simpl; intros H; try discriminate; reflexivity. Qed.

Lemma evict_front_poisoned (cutoff : Q) (e : event) (rest : list event) (t : pyval) :
  dict_lookup "timestamp" e = Some t -> num_of t = None ->
  evict_front cutoff (e :: rest) = (Raise TypeError, e :: rest).
Proof.
  intros Ht Hn. simpl. rewrite Ht, (py_lt_not_a_number t cutoff Hn). reflexivity.
Qed.

Lemma poisoned_normalize (W : Z) (clk : nat -> Q) (py_str : pyval -> string)
    (payload : dict) (w : world) :
  poisoned w ->
  exists norm w',
    normalize W clk py_str payload w = (Raise TypeError, w') /\
    normalized_events w' = normalized_events w ++ [norm] /\
    incidents w' = incidents w /\
    single_domain_incidents w' = single_domain_incidents w /\
    poisoned w'.
Proof.
  intros (e & rest & t & Hw & Ht & Hn).
  destruct (map_to_canonical_returns clk payload w) as (norm & Hmap & _).
  exists norm. eexists. split.
  - unfold normalize, bind at 1. rewrite Hmap.
    unfold bind at 1, ingest, bind at 1, modify.
    rewrite pass_by_stages. cbv zeta.
    cbn [normalized_events set_normalized_events tick].
    rewrite Hw. cbn [app].
    rewrite (evict_front_poisoned _ e (rest ++ [norm]) t Ht Hn). reflexivity.
  - cbn [normalized_events incidents single_domain_incidents set_normalized_events tick].
    rewrite Hw. repeat split; try reflexivity.
    exists e, (rest ++ [norm]), t. auto.
Qed.

(** X4: once the front event of the window carries a timestamp that is not
    a number (a string, null, a list), the comparison in the eviction loop
    raises TypeError in every pass: every later /normalize request fails
    after appending its event, the two incident stores are never written
    again and the window only grows. *)
Theorem X_poisoned_window (W : Z) (clk : nat -> Q) (py_str : pyval -> string)
    (w : world) (payloads : list dict) :
  poisoned w ->
  let w' := fold_left (fun w p => handle W clk py_str (Normalize p) w) payloads w in
  (forall p, fst (normalize W clk py_str p w') = Raise TypeError) /\
  incidents w' = incidents w /\
  single_domain_incidents w' = single_domain_incidents w /\
  length (normalized_events w') = (length (normalized_events w) + length payloads)%nat /\
  poisoned w'.
Proof.
  cbv zeta. revert w. induction payloads as [|p ps IH]; intros w Hp; cbn [fold_left].
  - split; [| simpl; rewrite Nat.add_0_r; auto].
    intros p. destruct (poisoned_normalize W clk py_str p w Hp) as (n & w' & Hrun & _).
    rewrite Hrun. reflexivity.
  - destruct (poisoned_normalize W clk py_str p w Hp)
      as (norm & w1 & Hrun & Hwin & Hinc & Hsd & Hp1).
    assert (Hstep : handle W clk py_str (Normalize p) w = w1)
      by (unfold handle; rewrite Hrun; reflexivity).
    rewrite Hstep.
    destruct (IH w1 Hp1) as (Hall & Hi & Hs & Hl & Hpp).
    split; [exact Hall |]. rewrite Hi, Hs, Hl, Hinc, Hsd, Hwin, length_app. simpl.
    repeat split; auto. lia.
Qed.

Lemma X_poisoned_window_witness :
  poisoned poisoned_run /\
  fst (normalize 30 clock_1000 py_str_of (ran_alarm "Cell-1" 1000 "critical")
         (handle 30 clock_1000 py_str_of (Normalize (core_alarm "Cell-1" 1000 "major"))
            poisoned_run)) = Raise TypeError /\
  incidents (handle 30 clock_1000 py_str_of (Normalize (core_alarm "Cell-1" 1000 "major"))
               poisoned_run) = [].
Proof.
  assert (Hp : poisoned poisoned_run).
  { eexists. eexists. eexists. split; [vm_compute; reflexivity |].
    split; reflexivity. }
  destruct (X_poisoned_window 30 clock_1000 py_str_of poisoned_run
              [core_alarm "Cell-1" 1000 "major"] Hp) as (Hall & Hi & _).
  split; [exact Hp |]. split; [apply Hall | exact Hi].
Defined.

(** ** Invariants of the window and of the single-domain store *)

Lemma preserves_maintains {A B} (f : world -> B) (Inv : B -> Prop) (m : M A) :
  preserves f m -> maintains f Inv m.
Proof. intros H w Hw. rewrite H. exact Hw. Qed.

Lemma maintains_bind {A B C} (f : world -> C) (Inv : C -> Prop) (m : M A) (k : A -> M B) :
  maintains f Inv m -> (forall a, maintains f Inv (k a)) -> maintains f Inv (bind m k).
Proof.
  intros Hm Hk w Hw. specialize (Hm w Hw). unfold bind.
  destruct (m w) as [[a|e] w1]; simpl in *; [apply Hk, Hm | exact Hm].
Qed.

Lemma maintains_for_each {A B} (f : world -> B) (Inv : B -> Prop)
    (body : A -> M unit) (l : list A) :
  (forall x, maintains f Inv (body x)) -> maintains f Inv (for_each body l).
Proof.
  intros H. induction l as [|x l IH]; simpl.
  - apply preserves_maintains, preserves_ret.
  - apply maintains_bind; [apply H | intros _; exact IH].
Qed.

Lemma new_single_domain_incident_shape (py_str : pyval -> string) ev ts c :
  single_domain_shape (new_single_domain_incident py_str ev ts c).
Proof.
  unfold single_domain_shape, new_single_domain_incident. simpl.
  split; [eexists; reflexivity |]. repeat split; try discriminate.
Qed.

Lemma refresh_shape ev ts expl inc :
  single_domain_shape inc -> single_domain_shape (refresh ev ts expl inc).
Proof.
  intros (_ & Hc & Hv & Hd & Hconf). unfold single_domain_shape. simpl.
  split; [eexists; reflexivity |]. auto.
Qed.

Section Shapes.

Variable CORRELATION_WINDOW_SECONDS : Z.
Variable clk : nat -> Q.
Variable py_str : pyval -> string.

Abbreviation sd_ok := (Forall single_domain_shape).

Lemma sd_process (ev : event) :
  maintains single_domain_incidents sd_ok (process_single_domain_incident clk py_str ev).
Proof.
  intros w Hw. rewrite process_cases.
  destruct (numeric _) as [ts|x]; [| exact Hw].
  destruct (update_recent _ _ _ _ _) as [sdi'|] eqn:Hupd.
  - simpl. eapply update_recent_Forall; [| exact Hupd | exact Hw].
    intros inc. apply refresh_shape.
  - destruct (severity_is_critical ev) as [c|x]; [| exact Hw].
    simpl. apply List.Forall_app. split; [exact Hw |].
    constructor; [apply new_single_domain_incident_shape | constructor].
Qed.

Lemma sd_node_loop (node_grouped : pgroups) :
  forall grouped,
    maintains single_domain_incidents sd_ok (node_loop clk py_str node_grouped grouped).
Proof.
  induction node_grouped as [|[node_id' events] rest IH]; intros grouped;
    cbn [node_loop].
  - apply preserves_maintains, preserves_ret.
  - apply maintains_bind; [apply preserves_maintains; auto with preserves | intros domains].
    destruct (Nat.leb 2 (length domains)).
    + apply maintains_bind; [apply preserves_maintains; auto with preserves | intros reps].
      apply IH.
    + apply maintains_bind; [| intros _; apply IH].
      apply maintains_for_each, sd_process.
Qed.

Lemma sd_cross_domain (domains_grouped : pgroups) grouped :
  preserves single_domain_incidents (cross_domain clk py_str domains_grouped grouped).
Proof.
  unfold cross_domain. destruct (Nat.leb 2 (length domains_grouped)).
  - apply preserves_bind; [apply preserves_time_time; reflexivity | intros t].
    apply preserves_bind; [auto with preserves | intros reps].
    apply preserves_ret.
  - apply preserves_ret.
Qed.

Lemma sd_pass (ev : event) :
  maintains single_domain_incidents sd_ok
    (_process_for_correlation CORRELATION_WINDOW_SECONDS clk py_str ev).
Proof.
  intros w Hw. rewrite pass_by_stages. cbv zeta.
  destruct (evict_front _ (normalized_events w)) as [[[]|x] kept]; [| exact Hw].
  set (w3 := mkWorld kept _ _ _).
  assert (H3 : sd_ok (single_domain_incidents w3)).
  { unfold w3. cbn [single_domain_incidents]. apply Forall_cap_newest.
    unfold newer_than. rewrite List.Forall_forall in *. intros x Hx.
    apply List.filter_In in Hx. apply Hw, Hx. }
  revert H3. generalize w3. clear w3 Hw w.
  change (maintains single_domain_incidents sd_ok
            (correlate CORRELATION_WINDOW_SECONDS clk py_str)).
  unfold correlate.
  apply maintains_bind; [apply preserves_maintains; auto with preserves | intros evs].
  apply maintains_bind; [apply preserves_maintains; auto with preserves | intros ng].
  apply maintains_bind; [apply preserves_maintains; auto with preserves | intros dg].
  apply maintains_bind; [apply sd_node_loop | intros g].
  apply maintains_bind; [apply preserves_maintains, sd_cross_domain | intros g'].
  apply preserves_maintains, synth_loop_frame; reflexivity.
Qed.

(** The state a /normalize request ends in is the one its pass ends in. *)
Lemma normalize_state (payload : dict) (w : world) :
  exists norm,
    canonical norm /\
    snd (normalize CORRELATION_WINDOW_SECONDS clk py_str payload w)
    = snd (_process_for_correlation CORRELATION_WINDOW_SECONDS clk py_str norm
             (set_normalized_events (normalized_events w ++ [norm]) (tick w))).
Proof.
  destruct (map_to_canonical_returns clk payload w) as (norm & Hmap & Hcan).
  exists norm. split; [exact Hcan |].
  unfold normalize, bind at 1. rewrite Hmap.
  unfold bind at 1, ingest, bind at 1, modify.
  cbn [normalized_events tick set_normalized_events].
  match goal with
  | |- context [_process_for_correlation ?a ?b ?c ?d ?e] =>
      destruct (_process_for_correlation a b c d e) as [[news|x] w']
  end; reflexivity.
Qed.

(** What /orchestrate does to the state. *)
Lemma orchestrate_state (action : dict) (w : world) :
  snd (orchestrate clk py_str action w) = tick (tick w) \/
  exists ev,
    canonical ev /\
    get ev "domain" VNone = VStr "ORCHESTRATOR" /\
    get ev "timestamp" VNone = VNum (clk (S (ticks w))) /\
    snd (orchestrate clk py_str action w)
    = set_normalized_events (normalized_events w ++ [ev]) (tick (tick w)).
Proof.
  unfold orchestrate, bind, time_time, lift, modify.
  cbn [ticks]. destruct (get action "params" (VDict [])) as [| | | | |params];
    try (left; reflexivity).
  right. eexists. split; [| split; [| split; [| reflexivity]]]; reflexivity.
Qed.

Lemma reachable_shapes (w : world) :
  reachable CORRELATION_WINDOW_SECONDS clk py_str w ->
  Forall canonical (normalized_events w) /\
  Forall single_domain_shape (single_domain_incidents w).
Proof.
  induction 1 as [|r w Hr [IHw IHs]]; [split; constructor |].
  destruct r as [payload | action]; cbn [handle].
  - destruct (normalize_state payload w) as (norm & Hcan & ->). split.
    + rewrite window_after_pass.
      destruct (evict_front_prefix
                  (clk (ticks (set_normalized_events (normalized_events w ++ [norm]) (tick w)))
                   - window CORRELATION_WINDOW_SECONDS)
                  (normalized_events
                     (set_normalized_events (normalized_events w ++ [norm]) (tick w))))
        as (dropped & Heq & _).
      assert (Hall : Forall canonical
                (normalized_events
                   (set_normalized_events (normalized_events w ++ [norm]) (tick w)))).
      { cbn [normalized_events set_normalized_events]. apply List.Forall_app.
        split; [exact IHw | constructor; [exact Hcan | constructor]]. }
      rewrite Heq in Hall. apply List.Forall_app in Hall. apply Hall.
    + apply sd_pass. exact IHs.
  - destruct (orchestrate_state action w) as [-> | (ev & Hcan & _ & _ & ->)].
    + split; assumption.
    + split; [| exact IHs].
      cbn [normalized_events set_normalized_events]. apply List.Forall_app.
      split; [exact IHw | constructor; [exact Hcan | constructor]].
Qed.

End Shapes.

(** X5: in every reachable state, each event of the window has exactly the
    seven canonical keys (timestamp, vendor, domain, node_id, alarm_type,
    severity, metrics): the defaults of the [.get] calls of the pass are
    never used on a window event. *)
Theorem X_window_events_canonical (W : Z) (clk : nat -> Q) (py_str : pyval -> string)
    (w : world) (e : event) (k : string) (dflt : pyval) :
  reachable W clk py_str w ->
  In e (normalized_events w) ->
  In k canonical_keys ->
  map fst e = canonical_keys /\ dict_lookup k e <> None /\
  get e k dflt = get e k VNone.
Proof.
  intros Hr He Hk.
  pose proof (proj1 (reachable_shapes W clk py_str w Hr)) as Hall.
  rewrite List.Forall_forall in Hall. specialize (Hall e He).
  unfold canonical in Hall. split; [exact Hall |].
  assert (Hsome : dict_lookup k e <> None).
  { unfold canonical_keys in *.
    destruct e as [|[k1 v1] [|[k2 v2] [|[k3 v3] [|[k4 v4] [|[k5 v5] [|[k6 v6]
      [|[k7 v7] [|]]]]]]]]; try discriminate.
    simpl in Hall. injection Hall as -> -> -> -> -> -> ->.
    simpl in Hk. destruct Hk as [<-|[<-|[<-|[<-|[<-|[<-|[<-|[]]]]]]]];
      simpl; discriminate. }
  split; [exact Hsome |].
  unfold get. destruct (dict_lookup k e); [reflexivity | congruence].
Qed.

Lemma X_window_events_canonical_witness :
  reachable 30 clock_1000 py_str_of scenario_run /\
  In scenario_first_event (normalized_events scenario_run) /\
  In "node_id" canonical_keys /\
  get scenario_first_event "node_id" (VStr "unknown")
    = get scenario_first_event "node_id" VNone.
Proof.
  assert (Hr : reachable 30 clock_1000 py_str_of scenario_run) by apply run_reachable.
  assert (He : In scenario_first_event (normalized_events scenario_run))
    by (vm_compute; left; reflexivity).
  assert (Hk : In "node_id" canonical_keys) by (simpl; auto).
  destruct (X_window_events_canonical 30 clock_1000 py_str_of scenario_run
              scenario_first_event "node_id" (VStr "unknown") Hr He Hk) as (_ & _ & Hg).
  exact (conj Hr (conj He (conj Hk Hg))).
Defined.

(** X6: in every reachable state, each single-domain incident has exactly
    one supporting event, the keys vendor and domain, is_correlated False,
    and confidence 0.85 when its is_critical flag is set and 0.6 otherwise. *)
Theorem X_single_domain_incident_shape (W : Z) (clk : nat -> Q)
    (py_str : pyval -> string) (w : world) (inc : incident) :
  reachable W clk py_str w ->
  In inc (single_domain_incidents w) ->
  (exists ev, supporting_events inc = [ev]) /\
  is_correlated inc = Some false /\
  vendor inc <> None /\
  domain inc <> None /\
  confidence inc = (if is_critical inc then 85 # 100 else 6 # 10).
Proof.
  intros Hr Hin.
  pose proof (proj2 (reachable_shapes W clk py_str w Hr)) as Hall.
  rewrite List.Forall_forall in Hall. exact (Hall inc Hin).
Qed.

Lemma X_single_domain_incident_shape_witness :
  reachable 30 clock_1000 py_str_of one_minor_alarm_run /\
  In minor_incident (single_domain_incidents one_minor_alarm_run) /\
  confidence minor_incident = 6 # 10.
Proof.
  assert (Hr : reachable 30 clock_1000 py_str_of one_minor_alarm_run)
    by apply run_reachable.
  assert (Hin : In minor_incident (single_domain_incidents one_minor_alarm_run))
    by (vm_compute; left; reflexivity).
  destruct (X_single_domain_incident_shape 30 clock_1000 py_str_of
              one_minor_alarm_run minor_incident Hr Hin) as (_ & _ & _ & _ & Hc).
  exact (conj Hr (conj Hin Hc)).
Defined.

(** ** The shape of a correlated incident *)

Section CorrelatedShape.

Variable CORRELATION_WINDOW_SECONDS : Z.
Variable clk : nat -> Q.
Variable py_str : pyval -> string.

Lemma synthesized_shape key events inc :
  synthesized CORRELATION_WINDOW_SECONDS clk py_str key events inc ->
  correlated_shape CORRELATION_WINDOW_SECONDS inc.
Proof.
  intros (domains & w & Hd & Hn & Hm & Hs).
  unfold synthesize, bind, lift in Hs.
  destruct (temporal_proximity _ events) as [tp|] eqn:Htp; [| discriminate].
  destruct (any_critical events) as [hc|] eqn:Hhc; [| discriminate].
  simpl in Hs. injection Hs as <-.
  apply temporal_proximity_inv in Htp as (HW & Hnum & _).
  apply any_critical_existsb in Hhc.
  apply py_set_distinct in Hd.
  unfold correlated_shape. cbn [vendor domain is_correlated node_id supporting_events
    is_critical probable_root_cause].
  repeat split; try reflexivity; try assumption.
  - eexists. reflexivity.
  - unfold distinct_domains. rewrite <- Hd. exact Hm.
  - rewrite <- Hd. destruct hc; reflexivity.
Qed.

Lemma correlated_shape_invariant :
  store_invariant CORRELATION_WINDOW_SECONDS clk py_str
    (Forall (correlated_shape CORRELATION_WINDOW_SECONDS)).
Proof.
  constructor.
  - intros f l H. rewrite List.Forall_forall in *. intros x Hx.
    apply List.filter_In in Hx. apply H, Hx.
  - intros n l. apply Forall_cap_newest.
  - intros key events inc l Hs H. unfold upsert. apply List.Forall_app. split.
    + rewrite List.Forall_forall in *. intros x Hx.
      apply List.filter_In in Hx. apply H, Hx.
    + constructor; [eapply synthesized_shape, Hs | constructor].
Qed.

End CorrelatedShape.

(** X7: in every reachable state, each correlated incident is backed by at
    least two supporting events from at least two distinct domains, all
    with numbers for timestamps (and the window length is then not zero);
    it has no vendor, domain or is_correlated key and a string for its
    group key; its is_critical flag tells whether
    the lower-cased severity of some supporting event is "critical", and
    its root cause is the one chosen from the set of domains, with the
    prefix "CRITICAL: " exactly when the flag is set. *)
Theorem X_correlated_incident_shape (W : Z) (clk : nat -> Q) (py_str : pyval -> string)
    (w : world) (inc : incident) :
  reachable W clk py_str w ->
  In inc (incidents w) ->
  vendor inc = None /\ domain inc = None /\ is_correlated inc = None /\
  (exists key, node_id inc = VStr key) /\
  (2 <= length (supporting_events inc))%nat /\
  (2 <= distinct_domains (supporting_events inc))%nat /\
  Forall (fun e => num_of (get e "timestamp" (VNum 0)) <> None) (supporting_events inc) /\
  W <> 0%Z /\
  is_critical inc = existsb is_critical_lower (supporting_events inc) /\
  probable_root_cause inc =
    ((if is_critical inc then "CRITICAL: " else "")
       ++ root_cause_of
            (distinct (map (fun ev => get ev "domain" VNone) (supporting_events inc))))%string.
Proof.
  intros Hr Hin.
  pose proof (reachable_invariant W clk py_str _
                (correlated_shape_invariant W clk py_str) w
                (List.Forall_nil _) Hr) as Hall.
  rewrite List.Forall_forall in Hall. exact (Hall inc Hin).
Qed.

Lemma X_correlated_incident_shape_witness :
  reachable 30 clock_1000 py_str_of scenario_run /\
  In scenario_incident (incidents scenario_run) /\
  is_critical scenario_incident = true /\
  probable_root_cause scenario_incident = "CRITICAL: End-to-end connectivity issue".
Proof.
  assert (Hr : reachable 30 clock_1000 py_str_of scenario_run) by apply run_reachable.
  assert (Hin : In scenario_incident (incidents scenario_run))
    by (vm_compute; left; reflexivity).
  destruct (X_correlated_incident_shape 30 clock_1000 py_str_of scenario_run
              scenario_incident Hr Hin) as (_ & _ & _ & _ & _ & _ & _ & _ & Hc & Hrc).
  exact (conj Hr (conj Hin (conj Hc Hrc))).
Defined.

(** ** The query endpoints *)

Lemma add_event_ids_size (py_str : pyval -> string) (inc : incident) :
  forall ids : gset string,
    (size (add_event_ids py_str ids inc) <= size ids + length (supporting_events inc))%nat.
Proof.
  unfold add_event_ids. induction (supporting_events inc) as [|evt evs IH]; intros ids; simpl.
  - lia.
  - etransitivity; [apply IH |].
    destruct (event_id py_str evt) as [i|]; [| lia].
    pose proof (size_union_alt {[i]} ids) as Hu.
    pose proof (subseteq_size (ids ∖ {[i]}) ids) as Hd.
    rewrite size_singleton in Hu.
    assert (size (ids ∖ {[i]}) <= size ids)%nat
      by (apply Hd, subseteq_difference_l; reflexivity).
    lia.
Qed.

Lemma event_ids_size (py_str : pyval -> string) (incs : list incident) :
  (size (event_ids py_str incs)
   <= length (flat_map supporting_events incs))%nat.
Proof.
  unfold event_ids.
  assert (H : forall ids : gset string,
             (size (fold_left (add_event_ids py_str) incs ids)
              <= size ids + length (flat_map supporting_events incs))%nat).
  { induction incs as [|inc incs IH]; intros ids; simpl; [lia |].
    etransitivity; [apply IH |].
    pose proof (add_event_ids_size py_str inc ids). rewrite length_app. lia. }
  specialize (H ∅). rewrite size_empty in H. exact H.
Qed.

(** X8: GET /incidents returns the correlated incidents, all of them and
    nothing else, newest first; incident_count is their number;
    normalized_count is at least
    the size of the window and at least incident_count, and at most the
    largest of the window size, the number of incidents and the number of
    supporting events. *)
Theorem X_get_incidents (py_str : pyval -> string) (w : world) :
  let r := get_incidents py_str w in
  Permutation (resp_incidents r) (incidents w) /\
  descending (resp_incidents r) /\
  resp_incident_count r = length (incidents w) /\
  (length (normalized_events w) <= resp_normalized_count r)%nat /\
  (resp_incident_count r <= resp_normalized_count r)%nat /\
  (resp_normalized_count r
   <= Nat.max (Nat.max (length (normalized_events w)) (length (incidents w)))
              (length (flat_map supporting_events (incidents w))))%nat.
Proof.
  cbv zeta. unfold get_incidents. cbn [resp_incidents resp_incident_count
    resp_normalized_count].
  split; [apply sort_desc_perm |]. split; [apply sort_desc_sorted |].
  split; [reflexivity |]. split; [lia |]. split; [lia |].
  pose proof (event_ids_size py_str (sort_desc (incidents w))) as Hs.
  assert (Hlen : length (flat_map supporting_events (sort_desc (incidents w)))
                 = length (flat_map supporting_events (incidents w))).
  { apply Permutation_length, Permutation_flat_map, sort_desc_perm. }
  rewrite Hlen in Hs. lia.
Qed.

(** X9: GET /all-incidents returns the union of the two stores newest
    first; its three counts are the sizes of the correlated store, of the
    single-domain store and their sum, which is the number of incidents
    returned; correlated_count agrees with the incident_count of
    GET /incidents; normalized_count is at least the total. *)
Theorem X_get_all_incidents (py_str : pyval -> string) (w : world) :
  let r := get_all_incidents py_str w in
  Permutation (all_incidents r) (incidents w ++ single_domain_incidents w) /\
  descending (all_incidents r) /\
  correlated_count r = resp_incident_count (get_incidents py_str w) /\
  single_domain_count r = length (single_domain_incidents w) /\
  total_incident_count r = (correlated_count r + single_domain_count r)%nat /\
  total_incident_count r = length (all_incidents r) /\
  (total_incident_count r <= all_normalized_count r)%nat /\
  (length (normalized_events w) <= all_normalized_count r)%nat.
Proof.
  cbv zeta. unfold get_all_incidents, get_incidents.
  cbn [all_incidents correlated_count single_domain_count total_incident_count
       all_normalized_count resp_incident_count].
  split; [apply sort_desc_perm |]. split; [apply sort_desc_sorted |].
  split; [reflexivity |]. split; [reflexivity |]. split; [reflexivity |].
  split; [| split; lia].
  rewrite (Permutation_length (sort_desc_perm _)), length_app. reflexivity.
Qed.

(** ** The representative of a domain *)

Lemma max_by_timestamp_from_spec (rest : list event) :
  forall best e,
    max_by_timestamp_from best rest = Ok e ->
    In e (best :: rest) /\
    (num_of (get e "timestamp" (VNum 0)) <> None ->
     Forall (fun x => num_of (get x "timestamp" (VNum 0)) <> None /\ stamp x <= stamp e)
            (best :: rest)).
Proof.
  induction rest as [|x rest IH]; intros best e Hm; simpl in Hm.
  - injection Hm as <-. split; [left; reflexivity |].
    intros Hn. constructor; [split; [exact Hn | apply Qle_refl] | constructor].
  - unfold py_gt in Hm.
    destruct (py_lt (get best "timestamp" (VNum 0)) (get x "timestamp" (VNum 0)))
      as [gt|] eqn:Hlt; [| discriminate].
    simpl in Hm. destruct (IH _ _ Hm) as (Hin & Hall). split.
    + destruct gt; destruct Hin as [<- | Hin]; simpl; auto.
    + intros Hn. specialize (Hall Hn).
      inversion Hall as [|? ? (Hb' & Hle') Hrest]; subst.
      destruct (py_lt_numeric _ _ _ Hlt) as (b & q & Hb & Hq & Hgt).
      { destruct gt; [right | left]; exact Hb'. }
      assert (Sb : stamp best = b) by (unfold stamp, numval; rewrite Hb; reflexivity).
      assert (Sx : stamp x = q) by (unfold stamp, numval; rewrite Hq; reflexivity).
      destruct gt.
      * symmetry in Hgt. apply Qltb_lt in Hgt.
        constructor; [split; [congruence |] | constructor; [split; [congruence | exact Hle'] | exact Hrest]].
        rewrite Sb. rewrite Sx in Hle'. lra.
      * symmetry in Hgt. apply Qltb_ge in Hgt.
        constructor; [split; [congruence | exact Hle'] | constructor; [split; [congruence |] | exact Hrest]].
        rewrite Sx. rewrite Sb in Hle'. lra.
Qed.

Lemma max_by_timestamp_spec (evs : list event) (e : event) :
  max_by_timestamp evs = Ok e ->
  In e evs /\
  (num_of (get e "timestamp" (VNum 0)) <> None ->
   forall x, In x evs -> stamp x <= stamp e).
Proof.
  destruct evs as [|best rest]; [discriminate |]. intros Hm.
  destruct (max_by_timestamp_from_spec rest best e Hm) as (Hin & Hall).
  split; [exact Hin |]. intros Hn x Hx. specialize (Hall Hn).
  rewrite List.Forall_forall in Hall. apply Hall, Hx.
Qed.

Lemma filter_nil_existsb {A} (f : A -> bool) (l : list A) :
  List.filter f l = [] -> existsb f l = false.
Proof.
  induction l as [|x l IH]; simpl; [reflexivity |].
  destruct (f x); [discriminate | exact IH].
Qed.

Lemma filter_cons_existsb {A} (f : A -> bool) (l : list A) (x : A) (rest : list A) :
  List.filter f l = x :: rest -> existsb f l = true.
Proof.
  intros H. apply existsb_exists. exists x.
  assert (Hin : In x (List.filter f l)) by (rewrite H; left; reflexivity).
  apply List.filter_In in Hin. exact Hin.
Qed.

(** X10: the events picked for a node group are, in the order in which the
    domains of the node are visited, exactly one event for each domain
    that has an event of the node and none for a domain that has none; the
    event picked for a domain is an event of the node in that domain and,
    when its timestamp is a number, no event of the node in that domain
    has a larger timestamp.  Likewise the events picked for the
    cross-domain group are exactly one event for each non-empty domain
    group of the window, in the order of the groups: an event of the group
    that, when its timestamp is a number, has the largest timestamp of the
    group. *)
Theorem X_representatives (events : list event) (domains : list pyval)
    (groups : list (list event)) :
  (forall reps,
     most_recent_per_domain events domains = Ok reps ->
     Forall2 (fun d r =>
                In r events /\
                py_eq (get r "domain" (VStr "UNKNOWN")) d = true /\
                (num_of (get r "timestamp" (VNum 0)) <> None ->
                 forall x, In x events ->
                   py_eq (get x "domain" (VStr "UNKNOWN")) d = true ->
                   stamp x <= stamp r))
             (List.filter
                (fun d => existsb (fun e => py_eq (get e "domain" (VStr "UNKNOWN")) d) events)
                domains)
             reps) /\
  (forall reps,
     most_recent_each groups = Ok reps ->
     Forall2 (fun g r =>
                In r g /\
                (num_of (get r "timestamp" (VNum 0)) <> None ->
                 forall x, In x g -> stamp x <= stamp r))
             (List.filter (fun g => match g with [] => false | _ :: _ => true end) groups)
             reps).
Proof.
  split.
  - induction domains as [|d ds IH]; intros reps Hrun;
      cbn [most_recent_per_domain List.filter] in *.
    + injection Hrun as <-. constructor.
    + destruct (List.filter (fun e => py_eq (get e "domain" (VStr "UNKNOWN")) d) events)
        as [|e0 de] eqn:Hde.
      * rewrite (filter_nil_existsb _ _ Hde). apply IH, Hrun.
      * rewrite (filter_cons_existsb _ _ _ _ Hde).
        destruct (max_by_timestamp (e0 :: de)) as [r|] eqn:Hmax;
          cbn [res_bind] in Hrun; [| discriminate Hrun].
        destruct (most_recent_per_domain events ds) as [others|];
          cbn [res_bind] in Hrun; [| discriminate Hrun].
        injection Hrun as <-. constructor; [| apply IH; reflexivity].
        destruct (max_by_timestamp_spec _ _ Hmax) as (Hin & Hmaxi).
        rewrite <- Hde in Hin, Hmaxi.
        apply List.filter_In in Hin as [Hin Hdom].
        split; [exact Hin |]. split; [exact Hdom |].
        intros Hn x Hx Hxd. apply (Hmaxi Hn). apply List.filter_In. auto.
  - induction groups as [|g gs IH]; intros reps Hrun;
      cbn [most_recent_each List.filter] in *.
    + injection Hrun as <-. constructor.
    + destruct g as [|e0 g']; [apply IH, Hrun |].
      destruct (max_by_timestamp (e0 :: g')) as [r|] eqn:Hmax;
        cbn [res_bind] in Hrun; [| discriminate Hrun].
      destruct (most_recent_each gs) as [others|];
        cbn [res_bind] in Hrun; [| discriminate Hrun].
      injection Hrun as <-. constructor; [| apply IH; reflexivity].
      apply max_by_timestamp_spec, Hmax.
Qed.

Lemma X_representatives_witness :
  most_recent_per_domain three_alarms [VStr "RAN"; VStr "CORE"]
    = Ok [canonical_event 995 "VendorA" "RAN" "Cell-1" "critical";
          canonical_event 1000 "VendorB" "CORE" "Cell-1" "major"] /\
  Forall2 (fun d r =>
             In r three_alarms /\
             py_eq (get r "domain" (VStr "UNKNOWN")) d = true /\
             (num_of (get r "timestamp" (VNum 0)) <> None ->
              forall x, In x three_alarms ->
                py_eq (get x "domain" (VStr "UNKNOWN")) d = true ->
                stamp x <= stamp r))
          (List.filter
             (fun d => existsb (fun e => py_eq (get e "domain" (VStr "UNKNOWN")) d)
                               three_alarms)
             [VStr "RAN"; VStr "CORE"])
          [canonical_event 995 "VendorA" "RAN" "Cell-1" "critical";
           canonical_event 1000 "VendorB" "CORE" "Cell-1" "major"].
Proof.
  assert (Hrun : most_recent_per_domain three_alarms [VStr "RAN"; VStr "CORE"]
                 = Ok [canonical_event 995 "VendorA" "RAN" "Cell-1" "critical";
                       canonical_event 1000 "VendorB" "CORE" "Cell-1" "major"])
    by (vm_compute; reflexivity).
  split; [exact Hrun |].
  exact (proj1 (X_representatives three_alarms [VStr "RAN"; VStr "CORE"] []) _ Hrun).
Defined.

(** ** Windows of one domain *)

Lemma setdefault_append_Forall (P : event -> Prop) (k : pyval) (x : event) (g : pgroups) :
  P x -> Forall (fun kv => Forall P (snd kv)) g ->
  Forall (fun kv => Forall P (snd kv)) (setdefault_append k x g).
Proof.
  intros Hx. induction g as [|[k' xs] g IH]; intros Hg; simpl.
  - repeat constructor. exact Hx.
  - inversion Hg as [|? ? Hxs Hg']; subst. destruct (py_eq k' k).
    + constructor; [| exact Hg']. simpl in *.
      apply List.Forall_app. split; [exact Hxs | repeat constructor; exact Hx].
    + constructor; [exact Hxs | apply IH, Hg'].
Qed.

Lemma group_by_node_Forall (P : event -> Prop) (evs : list event) :
  Forall P evs ->
  forall acc g,
    Forall (fun kv => Forall P (snd kv)) acc ->
    group_by_node evs acc = Ok g ->
    Forall (fun kv => Forall P (snd kv)) g.
Proof.
  induction 1 as [|e evs He Hevs IH]; intros acc g Hacc Hrun; simpl in Hrun.
  - injection Hrun as <-. exact Hacc.
  - destruct (negb (py_eq _ _)).
    + destruct (hashable _); [| discriminate].
      eapply IH; [| exact Hrun]. apply setdefault_append_Forall; assumption.
    + eapply IH; eassumption.
Qed.

Lemma group_by_domain_one (d : pyval) (evs : list event) :
  Forall (in_domain d) evs ->
  forall acc g,
    acc = [] \/ (exists xs, acc = [(d, xs)]) ->
    group_by_domain evs acc = Ok g ->
    (length g <= 1)%nat.
Proof.
  induction 1 as [|e evs He Hevs IH]; intros acc g Hacc Hrun;
    cbn [group_by_domain] in Hrun.
  - injection Hrun as <-. destruct Hacc as [-> | [xs ->]]; simpl; lia.
  - unfold in_domain in He. rewrite He in Hrun.
    destruct (hashable d) eqn:Hh; [| discriminate].
    eapply IH; [| exact Hrun]. right.
    destruct Hacc as [-> | [xs ->]]; simpl.
    + eexists; reflexivity.
    + rewrite (py_eq_refl_hashable d Hh). eexists; reflexivity.
Qed.

Lemma py_set_from_one (d : pyval) (l : list pyval) :
  Forall (eq d) l ->
  forall acc s,
    acc = [] \/ acc = [d] ->
    py_set_from l acc = Ok s ->
    (length s <= 1)%nat.
Proof.
  induction 1 as [|v l Hv Hl IH]; intros acc s Hacc Hrun; simpl in Hrun.
  - injection Hrun as <-. destruct Hacc as [-> | ->]; simpl; lia.
  - subst v. destruct (hashable d) eqn:Hh; [| discriminate].
    eapply IH; [| exact Hrun]. right.
    destruct Hacc as [-> | ->]; simpl; [reflexivity |].
    rewrite (py_eq_refl_hashable d Hh). reflexivity.
Qed.

Section OneDomain.

Variable CORRELATION_WINDOW_SECONDS : Z.
Variable clk : nat -> Q.
Variable py_str : pyval -> string.
Variable d : pyval.

(** Node groups of one domain are handed to the deduplicator: none of
    them becomes a group to synthesize from. *)
Lemma node_loop_one_domain (node_grouped : pgroups) :
  Forall (fun kv => Forall (in_domain d) (snd kv)) node_grouped ->
  forall grouped w g,
    fst (node_loop clk py_str node_grouped grouped w) = Ok g -> g = grouped.
Proof.
  induction 1 as [|[node_id' events] rest Hev Hrest IH]; intros grouped w g;
    cbn [node_loop].
  - intros [= <-]. reflexivity.
  - unfold bind at 1, lift at 1.
    destruct (py_set _) as [domains|x] eqn:Hs; [| discriminate].
    assert (Hlen : (length domains <= 1)%nat).
    { apply (py_set_from_one d (map (fun e => get e "domain" (VStr "UNKNOWN")) events))
        with (acc := []) (s := domains); [| left; reflexivity | exact Hs].
      simpl in Hev. clear -Hev. induction Hev as [|e l He Hl IHl]; simpl.
      - constructor.
      - constructor; [symmetry; exact He | exact IHl]. }
    replace (Nat.leb 2 (length domains)) with false
      by (symmetry; apply Nat.leb_gt; lia).
    unfold bind at 1.
    destruct (for_each _ events w) as [[[]|x] w1]; [| discriminate].
    apply IH.
Qed.

Lemma correlate_one_domain (w : world) (l : list incident) :
  Forall (in_domain d) (normalized_events w) ->
  fst (correlate CORRELATION_WINDOW_SECONDS clk py_str w) = Ok l ->
  l = [] /\
  incidents (snd (correlate CORRELATION_WINDOW_SECONDS clk py_str w)) = incidents w.
Proof.
  intros Hall Hfst.
  destruct (correlate CORRELATION_WINDOW_SECONDS clk py_str w) as [r w'] eqn:Hc.
  cbn [fst snd] in *. subst r. revert Hc.
  unfold correlate, bind at 1, gets.
  unfold bind at 1, lift at 1.
  destruct (group_by_node (normalized_events w) []) as [ng|x] eqn:Hng; [| discriminate].
  unfold bind at 1, lift at 1.
  destruct (group_by_domain (normalized_events w) []) as [dg|x] eqn:Hdg; [| discriminate].
  assert (Hdl : (length dg <= 1)%nat).
  { eapply group_by_domain_one; [exact Hall | left; reflexivity | exact Hdg]. }
  unfold bind at 1.
  destruct (node_loop clk py_str ng [] w) as [[g|x] w1] eqn:Hloop; [| discriminate].
  assert (Hg : g = []).
  { eapply (node_loop_one_domain ng); [| rewrite Hloop; reflexivity].
    eapply group_by_node_Forall; [exact Hall | constructor | exact Hng]. }
  subst g. unfold cross_domain.
  replace (Nat.leb 2 (length dg)) with false by (symmetry; apply Nat.leb_gt; lia).
  unfold bind at 1, ret. cbn [synth_loop]. unfold ret.
  intros [= <- <-]. split; [reflexivity |].
  pose proof (untouched_node_loop clk py_str ng [] w) as Hu.
  rewrite Hloop in Hu. exact Hu.
Qed.

End OneDomain.

Lemma evict_front_suffix (P : event -> Prop) (cutoff : Q) (evs : list event) :
  Forall P evs -> Forall P (snd (evict_front cutoff evs)).
Proof.
  intros H. destruct (evict_front_prefix cutoff evs) as (dropped & Heq & _).
  rewrite Heq in H. apply List.Forall_app in H. apply H.
Qed.

(** A request, stage by stage: the event joins the window, then the pass. *)
Lemma ingest_by_stages (W : Z) (clk : nat -> Q) (py_str : pyval -> string)
    (norm : event) (w : world) :
  ingest W clk py_str norm w =
  let now := clk (ticks w) in
  match evict_front (now - window W) (normalized_events w ++ [norm]) with
  | (Ok _, kept) =>
      correlate W clk py_str
        (mkWorld kept
           (cap_newest 50 (newer_than (now - window W * 2) (incidents w)))
           (cap_newest 100 (newer_than (now - window W * 2) (single_domain_incidents w)))
           (S (ticks w)))
  | (Raise x, kept) =>
      (Raise x, mkWorld kept (incidents w) (single_domain_incidents w) (S (ticks w)))
  end.
Proof.
  unfold ingest, bind at 1, modify. rewrite pass_by_stages. reflexivity.
Qed.

(** X11: while the events of the window, the new one included, all carry
    one and the same domain, a request that returns synthesizes no
    correlated incident, whatever the nodes, vendors and severities of the
    events: the correlated store changes by the retention step alone. *)
Theorem X_one_domain_never_correlates (W : Z) (clk : nat -> Q) (py_str : pyval -> string)
    (d : pyval) (norm : event) (w : world) (news : list incident) :
  let r := ingest W clk py_str norm w in
  Forall (in_domain d) (normalized_events w) ->
  in_domain d norm ->
  fst r = Ok news ->
  news = [] /\
  incidents (snd r)
    = cap_newest 50 (newer_than (clk (ticks w) - window W * 2) (incidents w)).
Proof.
  intros r Hw Hnorm. subst r. rewrite ingest_by_stages. cbv zeta.
  pose proof (evict_front_suffix (in_domain d) (clk (ticks w) - window W)
                (normalized_events w ++ [norm])) as Hkept.
  destruct (evict_front _ (normalized_events w ++ [norm])) as [[[]|x] kept];
    [| discriminate].
  cbn [snd] in Hkept.
  assert (Hall : Forall (in_domain d) kept).
  { apply Hkept, List.Forall_app. split; [exact Hw | repeat constructor; exact Hnorm]. }
  match goal with
  | |- fst (correlate _ _ _ ?w0) = _ -> _ =>
      intros Hrun;
      destruct (correlate_one_domain W clk py_str d w0 news Hall Hrun) as [Hnews Hinc]
  end.
  split; [exact Hnews |]. rewrite Hinc. reflexivity.
Qed.

Lemma X_one_domain_never_correlates_witness :
  fst (ingest 30 clock_1000 py_str_of third_ran_event ran_only_run) = Ok [] /\
  incidents (snd (ingest 30 clock_1000 py_str_of third_ran_event ran_only_run)) = [].
Proof.
  assert (Hrun : fst (ingest 30 clock_1000 py_str_of third_ran_event ran_only_run) = Ok [])
    by (vm_compute; reflexivity).
  split; [exact Hrun |].
  assert (Hw : Forall (in_domain (VStr "RAN")) (normalized_events ran_only_run))
    by (repeat constructor).
  assert (Hn : in_domain (VStr "RAN") third_ran_event) by reflexivity.
  rewrite (proj2 (X_one_domain_never_correlates 30 clock_1000 py_str_of (VStr "RAN")
                    third_ran_event ran_only_run [] Hw Hn Hrun)).
  vm_compute. reflexivity.
Defined.

(** ** Events without a node never reach the deduplicator *)

Lemma numeric_lookup (ev : event) (dflt v : pyval) (ts : Q) :
  numeric (get ev "timestamp" dflt) = Ok ts ->
  dict_lookup "timestamp" ev = Some v -> num_of v = Some ts.
Proof.
  unfold get, numeric. intros H Hv. rewrite Hv in H.
  destruct (num_of v); [injection H as <-; reflexivity | discriminate].
Qed.

Lemma update_recent_Forall_recent (P : incident -> Prop) v n c upd
    (l l' : list incident) :
  (forall inc, is_recent_for v n c inc = true -> P inc -> P (upd inc)) ->
  update_recent v n c upd l = Some l' -> Forall P l -> Forall P l'.
Proof.
  intros Hupd. revert l'. induction l as [|inc rest IH]; intros l'; simpl; [discriminate |].
  intros Hrun Hall. inversion Hall as [|? ? Hinc Hrest]; subst.
  destruct (is_recent_for v n c inc) eqn:Hrec.
  - injection Hrun as <-. constructor; [apply Hupd; assumption | exact Hrest].
  - destruct (update_recent v n c upd rest) as [r|]; [| discriminate].
    injection Hrun as <-. constructor; [exact Hinc | apply IH; [reflexivity | exact Hrest]].
Qed.

Lemma group_by_node_known (evs : list event) :
  forall acc g,
    Forall (fun kv => Forall known_event (snd kv)) acc ->
    group_by_node evs acc = Ok g ->
    Forall (fun kv => Forall known_event (snd kv)) g.
Proof.
  induction evs as [|e evs IH]; intros acc g Hacc Hrun; cbn [group_by_node] in Hrun.
  - injection Hrun as <-. exact Hacc.
  - destruct (py_eq (get e "node_id" (VStr "unknown")) (VStr "unknown")) eqn:Hu;
      cbn [negb] in Hrun.
    + eapply IH; eassumption.
    + destruct (hashable (get e "node_id" (VStr "unknown"))) eqn:Hh; [| discriminate].
      eapply IH; [| exact Hrun].
      apply setdefault_append_Forall; [split; assumption | exact Hacc].
Qed.

Section KnownNodes.

Variable CORRELATION_WINDOW_SECONDS : Z.
Variable clk : nat -> Q.
Variable py_str : pyval -> string.

Abbreviation kn_ok := (Forall tracks_known_node).

Lemma kn_process (ev : event) :
  known_event ev ->
  maintains single_domain_incidents kn_ok (process_single_domain_incident clk py_str ev).
Proof.
  intros [Hu Hh] w Hw. rewrite process_cases.
  destruct (numeric _) as [ts|x] eqn:Hts; [| exact Hw].
  destruct (update_recent _ _ _ _ _) as [sdi'|] eqn:Hupd.
  - simpl. eapply update_recent_Forall_recent; [| exact Hupd | exact Hw].
    intros inc Hrec (ev0 & _ & _ & _ & Hk & Hhk).
    unfold is_recent_for in Hrec.
    apply andb_prop in Hrec as [Hrec _]. apply andb_prop in Hrec as [_ Hn].
    exists ev. cbn [refresh supporting_events node_id timestamp].
    split; [reflexivity |]. split; [exact Hn |].
    split; [intros v; apply (numeric_lookup _ _ _ _ Hts) |]. split; assumption.
  - destruct (severity_is_critical ev) as [c|x]; [| exact Hw].
    simpl. apply List.Forall_app. split; [exact Hw |].
    constructor; [| constructor].
    exists ev. cbn [new_single_domain_incident supporting_events node_id timestamp].
    split; [reflexivity |]. split; [apply py_eq_refl_hashable, Hh |].
    split; [intros v; apply (numeric_lookup _ _ _ _ Hts) |]. split; assumption.
Qed.

Lemma kn_for_each (events : list event) :
  Forall known_event events ->
  maintains single_domain_incidents kn_ok
    (for_each (process_single_domain_incident clk py_str) events).
Proof.
  induction 1 as [|e l He Hl IH]; simpl.
  - apply preserves_maintains, preserves_ret.
  - apply maintains_bind; [apply kn_process, He | intros _; exact IH].
Qed.

Lemma kn_node_loop (node_grouped : pgroups) :
  Forall (fun kv => Forall known_event (snd kv)) node_grouped ->
  forall grouped,
    maintains single_domain_incidents kn_ok (node_loop clk py_str node_grouped grouped).
Proof.
  induction 1 as [|[node_id' events] rest Hev Hrest IH]; intros grouped;
    cbn [node_loop].
  - apply preserves_maintains, preserves_ret.
  - apply maintains_bind; [apply preserves_maintains; auto with preserves | intros domains].
    destruct (Nat.leb 2 (length domains)).
    + apply maintains_bind; [apply preserves_maintains; auto with preserves | intros reps].
      apply IH.
    + apply maintains_bind; [| intros _; apply IH].
      apply kn_for_each, Hev.
Qed.

Lemma kn_after_grouping (ng dg : pgroups) :
  Forall (fun kv => Forall known_event (snd kv)) ng ->
  maintains single_domain_incidents kn_ok
    (grouped <- node_loop clk py_str ng [] ;;
     grouped <- cross_domain clk py_str dg grouped ;;
     synth_loop CORRELATION_WINDOW_SECONDS clk py_str grouped [])%M.
Proof.
  intros Hk.
  apply maintains_bind; [apply kn_node_loop, Hk | intros g].
  apply maintains_bind; [apply preserves_maintains, sd_cross_domain | intros g'].
  apply preserves_maintains, synth_loop_frame; reflexivity.
Qed.

Lemma kn_correlate :
  maintains single_domain_incidents kn_ok
    (correlate CORRELATION_WINDOW_SECONDS clk py_str).
Proof.
  intros w Hw. unfold correlate, bind at 1, gets.
  unfold bind at 1, lift at 1.
  destruct (group_by_node (normalized_events w) []) as [ng|x] eqn:Hng; [| exact Hw].
  unfold bind at 1, lift at 1.
  destruct (group_by_domain (normalized_events w) []) as [dg|x]; [| exact Hw].
  apply (kn_after_grouping ng dg); [| exact Hw].
  eapply group_by_node_known; [constructor | exact Hng].
Qed.

Lemma kn_pass (ev : event) :
  maintains single_domain_incidents kn_ok
    (_process_for_correlation CORRELATION_WINDOW_SECONDS clk py_str ev).
Proof.
  intros w Hw. rewrite pass_by_stages. cbv zeta.
  destruct (evict_front _ (normalized_events w)) as [[[]|x] kept]; [| exact Hw].
  apply kn_correlate. cbn [single_domain_incidents]. apply Forall_cap_newest.
  unfold newer_than. rewrite List.Forall_forall in *. intros x Hx.
  apply List.filter_In in Hx. apply Hw, Hx.
Qed.

Lemma reachable_known_nodes (w : world) :
  reachable CORRELATION_WINDOW_SECONDS clk py_str w ->
  Forall tracks_known_node (single_domain_incidents w).
Proof.
  induction 1 as [|r w Hr IH]; [constructor |].
  destruct r as [payload | action]; cbn [handle].
  - destruct (normalize_state CORRELATION_WINDOW_SECONDS clk py_str payload w)
      as (norm & _ & ->).
    apply kn_pass. exact IH.
  - destruct (orchestrate_state clk py_str action w) as [-> | (ev & _ & _ & _ & ->)];
      exact IH.
Qed.

End KnownNodes.

(** X12: events whose node_id is missing or "unknown" are never made into
    single-domain incidents.  In every reachable state each single-domain
    incident has one supporting event; its node_id is hashable, differs from
    "unknown" and equals the node_id of that event; and its timestamp is the
    number the event carries as its timestamp. *)
Theorem X_single_domain_known_node (W : Z) (clk : nat -> Q) (py_str : pyval -> string)
    (w : world) (inc : incident) :
  reachable W clk py_str w ->
  In inc (single_domain_incidents w) ->
  exists ev,
    supporting_events inc = [ev] /\
    py_eq (node_id inc) (get ev "node_id" (VStr "unknown")) = true /\
    (forall v, dict_lookup "timestamp" ev = Some v -> num_of v = Some (timestamp inc)) /\
    py_eq (node_id inc) (VStr "unknown") = false /\
    hashable (node_id inc) = true.
Proof.
  intros Hr Hin.
  pose proof (reachable_known_nodes W clk py_str w Hr) as Hall.
  rewrite List.Forall_forall in Hall. exact (Hall inc Hin).
Qed.

Lemma X_single_domain_known_node_witness :
  reachable 30 clock_1000 py_str_of nodeless_run /\
  single_domain_incidents nodeless_run = [cell_1_incident] /\
  node_id cell_1_incident = VStr "Cell-1" /\
  py_eq (node_id cell_1_incident) (VStr "unknown") = false.
Proof.
  assert (Hr : reachable 30 clock_1000 py_str_of nodeless_run)
    by apply run_reachable.
  assert (Hs : single_domain_incidents nodeless_run = [cell_1_incident])
    by (vm_compute; reflexivity).
  assert (Hin : In cell_1_incident (single_domain_incidents nodeless_run))
    by (rewrite Hs; left; reflexivity).
  destruct (X_single_domain_known_node 30 clock_1000 py_str_of nodeless_run
              cell_1_incident Hr Hin) as (ev & _ & _ & _ & Hk & _).
  exact (conj Hr (conj Hs (conj eq_refl Hk))).
Defined.

(** ** What a pass returns and what it stores *)

Lemma dict_set_keys {A} (k : string) (v : A) (d : list (string * A)) :
  (forall k', In k' (map fst (dict_set k v d)) <-> k' = k \/ In k' (map fst d)) /\
  (List.NoDup (map fst d) -> List.NoDup (map fst (dict_set k v d))).
Proof.
  induction d as [|[k0 v0] d [IHin IHnd]]; simpl.
  - split; [intros k'; intuition congruence |]. intros _. constructor; [intros [] | constructor].
  - destruct (String.eqb k0 k) eqn:Hk.
    + apply String.eqb_eq in Hk. subst k0. simpl. split; [intros k'; intuition congruence | auto].
    + apply String.eqb_neq in Hk. simpl. split.
      * intros k'. rewrite IHin. intuition congruence.
      * intros Hnd. inversion Hnd as [|? ? Hnotin Hnd']; subst.
        constructor; [| apply IHnd, Hnd'].
        rewrite IHin. intros [Heq | Hin]; [congruence | exact (Hnotin Hin)].
Qed.

Lemma filter_twice {A} (f g : A -> bool) (l : list A) :
  List.filter f (List.filter g l) = List.filter (fun x => g x && f x) l.
Proof.
  induction l as [|x l IH]; simpl; [reflexivity |].
  destruct (g x); simpl; [destruct (f x) |]; rewrite ?IH; reflexivity.
Qed.

Lemma filter_keeps_all {A} (f : A -> bool) (l : list A) :
  Forall (fun x => f x = true) l -> List.filter f l = l.
Proof.
  induction 1 as [|x l Hx Hl IH]; simpl; [reflexivity |]. rewrite Hx, IH. reflexivity.
Qed.

Section Stored.

Variable CORRELATION_WINDOW_SECONDS : Z.
Variable clk : nat -> Q.
Variable py_str : pyval -> string.

Lemma node_loop_keys (node_grouped : pgroups) :
  forall grouped w g,
    List.NoDup (map fst grouped) ->
    fst (node_loop clk py_str node_grouped grouped w) = Ok g ->
    List.NoDup (map fst g).
Proof.
  induction node_grouped as [|[node_id' events] rest IH]; intros grouped w g Hnd;
    cbn [node_loop].
  - intros [= <-]. exact Hnd.
  - unfold bind at 1, lift at 1.
    destruct (py_set _) as [domains|x]; [| discriminate].
    destruct (Nat.leb 2 (length domains)).
    + unfold bind at 1, lift at 1.
      destruct (most_recent_per_domain events domains) as [reps|x]; [| discriminate].
      apply IH. apply dict_set_keys, Hnd.
    + unfold bind at 1.
      destruct (for_each _ events w) as [[[]|x] w1]; [| discriminate].
      apply IH, Hnd.
Qed.

Lemma cross_domain_keys (domains_grouped : pgroups) grouped w g :
  List.NoDup (map fst grouped) ->
  fst (cross_domain clk py_str domains_grouped grouped w) = Ok g ->
  List.NoDup (map fst g).
Proof.
  intros Hnd. unfold cross_domain. destruct (Nat.leb 2 (length domains_grouped)).
  - unfold bind at 1, time_time. unfold bind at 1, lift at 1.
    destruct (most_recent_each _) as [reps|x]; [| discriminate].
    unfold ret. intros [= <-]. apply dict_set_keys, Hnd.
  - unfold ret. intros [= <-]. exact Hnd.
Qed.

(** The synthesis loop appends what it synthesizes to the store, after
    removing the incidents of the same keys, and returns it. *)
Lemma synth_loop_store (grouped : list (string * list event)) :
  List.NoDup (map fst grouped) ->
  forall acc w news w',
    synth_loop CORRELATION_WINDOW_SECONDS clk py_str grouped acc w = (Ok news, w') ->
    exists added,
      news = acc ++ added /\
      incidents w'
        = List.filter (fun old => negb (replaced_by added old)) (incidents w) ++ added /\
      Forall (fun inc => exists k, In k (map fst grouped) /\ node_id inc = VStr k) added.
Proof.
  induction grouped as [|[key events] rest IH]; intros Hnd acc w news w';
    cbn [synth_loop].
  - unfold ret. intros [= <- <-]. exists []. rewrite !app_nil_r.
    split; [reflexivity |]. split; [| constructor].
    symmetry. apply filter_keeps_all. apply List.Forall_forall. reflexivity.
  - inversion Hnd as [|? ? Hnotin Hnd']; subst.
    unfold bind at 1, lift at 1.
    destruct (py_set _) as [vendors|x]; [| discriminate].
    unfold bind at 1, lift at 1.
    destruct (py_set _) as [domains|x]; [| discriminate].
    destruct (Nat.leb 2 (length events) && Nat.leb 2 (length domains)).
    + unfold bind at 1.
      destruct (synthesize _ _ _ key events domains w) as [[inc|x] w1] eqn:Hsyn;
        [| discriminate].
      unfold bind at 1, modify.
      pose proof (untouched_synthesize CORRELATION_WINDOW_SECONDS clk py_str
                    key events domains w) as Hu.
      rewrite Hsyn in Hu. cbn [snd] in Hu.
      assert (Hkey : node_id inc = VStr key).
      { destruct (synthesize_inv CORRELATION_WINDOW_SECONDS clk py_str
                    key events domains w inc) as (tp & hc & _ & _ & Hk & _);
          [rewrite Hsyn; reflexivity | exact Hk]. }
      intros Hrest.
      destruct (IH Hnd' _ _ _ _ Hrest) as (added & Hnews & Hstore & Hkeys).
      exists (inc :: added). split; [rewrite Hnews, <- app_assoc; reflexivity |].
      split.
      * rewrite Hstore. cbn [incidents set_incidents]. rewrite Hu. unfold upsert.
        rewrite List.filter_app, filter_twice. cbn [List.filter].
        assert (Hfresh : replaced_by added inc = false).
        { unfold replaced_by. rewrite Hkey. apply not_true_is_false.
          intros Hex. apply existsb_exists in Hex as (i & Hi & Heq).
          rewrite List.Forall_forall in Hkeys.
          destruct (Hkeys i Hi) as (k & Hk & Hik). rewrite Hik in Heq. simpl in Heq.
          apply String.eqb_eq in Heq. subst k. exact (Hnotin Hk). }
        rewrite Hfresh. cbn [negb]. rewrite <- app_assoc. cbn [app]. f_equal.
        apply List.filter_ext. intros old. unfold replaced_by. cbn [existsb].
        rewrite Hkey, negb_orb. reflexivity.
      * constructor; [exists key; split; [left; reflexivity | exact Hkey] |].
        eapply List.Forall_impl; [| exact Hkeys].
        intros i (k & Hk & Hik). exists k. split; [right; exact Hk | exact Hik].
    + intros Hrest.
      destruct (IH Hnd' _ _ _ _ Hrest) as (added & Hnews & Hstore & Hkeys).
      exists added. split; [exact Hnews |]. split; [exact Hstore |].
      eapply List.Forall_impl; [| exact Hkeys].
      intros i (k & Hk & Hik). exists k. split; [right; exact Hk | exact Hik].
Qed.

Lemma correlate_store (w : world) (news : list incident) :
  fst (correlate CORRELATION_WINDOW_SECONDS clk py_str w) = Ok news ->
  incidents (snd (correlate CORRELATION_WINDOW_SECONDS clk py_str w))
  = List.filter (fun old => negb (replaced_by news old)) (incidents w) ++ news.
Proof.
  intros Hfst.
  destruct (correlate CORRELATION_WINDOW_SECONDS clk py_str w) as [r w'] eqn:Hc.
  cbn [fst snd] in *. subst r. revert Hc.
  unfold correlate, bind at 1, gets.
  unfold bind at 1, lift at 1.
  destruct (group_by_node (normalized_events w) []) as [ng|x]; [| discriminate].
  unfold bind at 1, lift at 1.
  destruct (group_by_domain (normalized_events w) []) as [dg|x]; [| discriminate].
  unfold bind at 1.
  destruct (node_loop clk py_str ng [] w) as [[g|x] w1] eqn:Hloop; [| discriminate].
  pose proof (untouched_node_loop clk py_str ng [] w) as Hu1.
  rewrite Hloop in Hu1. cbn [snd] in Hu1.
  assert (Hg : List.NoDup (map fst g)).
  { eapply (node_loop_keys ng [] w); [constructor | rewrite Hloop; reflexivity]. }
  unfold bind at 1.
  destruct (cross_domain clk py_str dg g w1) as [[g'|x] w2] eqn:Hcross; [| discriminate].
  pose proof (untouched_cross_domain clk py_str dg g w1) as Hu2.
  rewrite Hcross in Hu2. cbn [snd] in Hu2.
  assert (Hg' : List.NoDup (map fst g')).
  { eapply (cross_domain_keys dg g w1); [exact Hg | rewrite Hcross; reflexivity]. }
  intros Hsyn.
  destruct (synth_loop_store g' Hg' [] w2 news w' Hsyn) as (added & Hnews & Hstore & _).
  cbn [app] in Hnews. subst added. rewrite Hstore, Hu2, Hu1. reflexivity.
Qed.

End Stored.

(** X13: when a pass returns, the correlated store is what the retention
    step left of it, less the incidents whose node_id is that of a returned
    incident, followed by the returned incidents in the order returned: the
    incidents in the response are the last ones of the store. *)
Theorem X_pass_stores_what_it_returns (W : Z) (clk : nat -> Q) (py_str : pyval -> string)
    (ev : event) (w : world) (news : list incident) :
  fst (_process_for_correlation W clk py_str ev w) = Ok news ->
  incidents (snd (_process_for_correlation W clk py_str ev w))
  = List.filter (fun old => negb (replaced_by news old))
      (cap_newest 50 (newer_than (clk (ticks w) - window W * 2) (incidents w)))
    ++ news.
Proof.
  rewrite pass_by_stages. cbv zeta.
  destruct (evict_front _ (normalized_events w)) as [[[]|x] kept]; [| discriminate].
  intros Hrun. rewrite (correlate_store W clk py_str _ news Hrun). reflexivity.
Qed.

Lemma X_pass_stores_what_it_returns_witness :
  exists news,
    fst (_process_for_correlation 30 clock_1000 py_str_of critical_event scenario_run)
      = Ok news /\
    length news = 2%nat /\
    incidents (snd (_process_for_correlation 30 clock_1000 py_str_of critical_event
                      scenario_run))
    = List.filter (fun old => negb (replaced_by news old))
        (cap_newest 50 (newer_than (clock_1000 (ticks scenario_run) - window 30 * 2)
                          (incidents scenario_run)))
      ++ news.
Proof.
  destruct (fst (_process_for_correlation 30 clock_1000 py_str_of critical_event
                   scenario_run)) as [news|x] eqn:Hrun;
    [| vm_compute in Hrun; discriminate].
  exists news. split; [reflexivity |].
  split; [vm_compute in Hrun; injection Hrun as <-; reflexivity |].
  exact (X_pass_stores_what_it_returns 30 clock_1000 py_str_of critical_event
           scenario_run news Hrun).
Defined.

(** ** How far the single-domain store can grow *)

Lemma group_total_cons (k : pyval) (xs : list event) (g : pgroups) :
  group_total ((k, xs) :: g) = (length xs + group_total g)%nat.
Proof. reflexivity. Qed.

Lemma setdefault_append_total (k : pyval) (x : event) (g : pgroups) :
  group_total (setdefault_append k x g) = S (group_total g).
Proof.
  unfold group_total. induction g as [|[k' xs] g IH]; simpl; [reflexivity |].
  destruct (py_eq k' k); simpl.
  - rewrite length_app. simpl. lia.
  - rewrite IH. lia.
Qed.

Lemma group_by_node_total (evs : list event) :
  forall acc g,
    group_by_node evs acc = Ok g ->
    (group_total g <= group_total acc + length evs)%nat.
Proof.
  induction evs as [|e evs IH]; intros acc g Hrun; cbn [group_by_node] in Hrun.
  - injection Hrun as <-. simpl. lia.
  - destruct (negb _).
    + destruct (hashable _); [| discriminate].
      apply IH in Hrun. rewrite setdefault_append_total in Hrun. simpl. lia.
    + apply IH in Hrun. simpl. lia.
Qed.

Section Growth.

Variable CORRELATION_WINDOW_SECONDS : Z.
Variable clk : nat -> Q.
Variable py_str : pyval -> string.

Abbreviation stored w := (length (single_domain_incidents w)).

Lemma process_grows_by_one (ev : event) (w : world) :
  (stored (snd (process_single_domain_incident clk py_str ev w)) <= S (stored w))%nat.
Proof.
  rewrite process_cases.
  destruct (numeric _) as [ts|x]; [| simpl; lia].
  destruct (update_recent _ _ _ _ _) as [sdi'|] eqn:Hupd.
  - simpl. rewrite (update_recent_length _ _ _ _ _ _ Hupd). lia.
  - destruct (severity_is_critical ev) as [c|x]; simpl; [| lia].
    rewrite length_app. simpl. lia.
Qed.

Lemma for_each_grows (events : list event) :
  forall w,
    (stored (snd (for_each (process_single_domain_incident clk py_str) events w))
     <= stored w + length events)%nat.
Proof.
  induction events as [|e events IH]; intros w; simpl; [lia |].
  unfold bind. pose proof (process_grows_by_one e w) as H1.
  destruct (process_single_domain_incident clk py_str e w) as [[[]|x] w1];
    cbn [fst snd] in *; [| lia].
  specialize (IH w1). lia.
Qed.

Lemma node_loop_grows (node_grouped : pgroups) :
  forall grouped w,
    (stored (snd (node_loop clk py_str node_grouped grouped w))
     <= stored w + group_total node_grouped)%nat.
Proof.
  induction node_grouped as [|[node_id' events] rest IH]; intros grouped w;
    cbn [node_loop].
  - simpl. lia.
  - rewrite group_total_cons. unfold bind at 1, lift at 1.
    destruct (py_set _) as [domains|x]; [| cbn [snd]; lia].
    destruct (Nat.leb 2 (length domains)).
    + unfold bind at 1, lift at 1.
      destruct (most_recent_per_domain events domains) as [reps|x]; [| cbn [snd]; lia].
      specialize (IH (dict_set ("node-" ++ py_str node_id')%string reps grouped) w). lia.
    + unfold bind at 1. pose proof (for_each_grows events w) as H1.
      destruct (for_each _ events w) as [[[]|x] w1]; cbn [fst snd] in *; [| lia].
      specialize (IH grouped w1). lia.
Qed.

Lemma correlate_grows (w : world) :
  (stored (snd (correlate CORRELATION_WINDOW_SECONDS clk py_str w))
   <= stored w + length (normalized_events w))%nat.
Proof.
  unfold correlate, bind at 1, gets.
  unfold bind at 1, lift at 1.
  destruct (group_by_node (normalized_events w) []) as [ng|x] eqn:Hng; [| cbn [snd]; lia].
  apply group_by_node_total in Hng. cbn in Hng.
  unfold bind at 1, lift at 1.
  destruct (group_by_domain (normalized_events w) []) as [dg|x]; [| cbn [snd]; lia].
  unfold bind at 1. pose proof (node_loop_grows ng [] w) as H1.
  destruct (node_loop clk py_str ng [] w) as [[g|x] w1]; cbn [fst snd] in *; [| lia].
  unfold bind at 1. pose proof (sd_cross_domain clk py_str dg g w1) as H2.
  destruct (cross_domain clk py_str dg g w1) as [[g'|x] w2]; cbn [fst snd] in *;
    [| rewrite H2; lia].
  rewrite (synth_loop_frame CORRELATION_WINDOW_SECONDS clk py_str
             single_domain_incidents g'); [rewrite H2; lia | reflexivity | reflexivity].
Qed.

End Growth.

(** X14: unless its eviction loop raises (in which case the single-domain
    store is left as it was), a pass ends, whether it returns or raises
    later, with at most 100 single-domain incidents more than there are
    events in the window: the cap of 100 is applied before the
    deduplicator runs, which then appends at most one incident per event of
    a known node. *)
Theorem X_single_domain_store_bound (W : Z) (clk : nat -> Q) (py_str : pyval -> string)
    (ev : event) (w : world) :
  let r := _process_for_correlation W clk py_str ev w in
  (length (single_domain_incidents (snd r))
   <= 100 + length (normalized_events (snd r)))%nat \/
  ((exists x, fst r = Raise x) /\
   single_domain_incidents (snd r) = single_domain_incidents w).
Proof.
  cbv zeta. rewrite pass_by_stages. cbv zeta.
  destruct (evict_front _ (normalized_events w)) as [[[]|x] kept];
    [| right; split; [exists x |]; reflexivity].
  left. rewrite window_correlate.
  match goal with
  | |- context [correlate _ _ _ ?w0] =>
      pose proof (correlate_grows W clk py_str w0) as H
  end.
  cbn [single_domain_incidents normalized_events] in *.
  pose proof (cap_newest_length 100
                (newer_than (clk (ticks w) - window W * 2) (single_domain_incidents w))).
  lia.
Qed.

(** ** Well-formed events never make a request fail *)

Lemma hashable_get (e : dict) (k : string) (d : pyval) :
  hashable (get e k VNone) = true -> hashable d = true -> hashable (get e k d) = true.
Proof. unfold get. destruct (dict_lookup k e); auto. Qed.

Lemma well_formed_stamp (e : event) (dflt : pyval) :
  well_formed e -> exists t, num_of (get e "timestamp" dflt) = Some t.
Proof.
  intros ((v & t & Hv & Ht) & _). exists t. unfold get. rewrite Hv. exact Ht.
Qed.

Lemma py_lt_numbers (a b : pyval) (x y : Q) :
  num_of a = Some x -> num_of b = Some y -> py_lt a b = Ok (Qltb x y).
Proof.
  destruct a, b; simpl; try discriminate; intros [= <-] [= <-]; reflexivity.
Qed.

Lemma evict_front_returns (cutoff : Q) (evs : list event) :
  Forall well_formed evs -> fst (evict_front cutoff evs) = Ok tt.
Proof.
  induction 1 as [|e evs He Hevs IH]; simpl; [reflexivity |].
  destruct He as ((v & t & Hv & Ht) & _). rewrite Hv.
  rewrite (py_lt_numbers v (VNum cutoff) t cutoff Ht eq_refl).
  destruct (Qltb t cutoff); [exact IH | reflexivity].
Qed.

Lemma group_by_node_returns (evs : list event) :
  Forall well_formed evs -> forall acc, exists g, group_by_node evs acc = Ok g.
Proof.
  induction 1 as [|e evs He Hevs IH]; intros acc; cbn [group_by_node].
  - eexists; reflexivity.
  - destruct (negb _); [| apply IH].
    destruct He as (_ & Hn & _).
    rewrite (hashable_get e "node_id" (VStr "unknown") Hn eq_refl). apply IH.
Qed.

Lemma group_by_domain_returns (evs : list event) :
  Forall well_formed evs ->
  forall acc,
    Forall (fun kv => Forall well_formed (snd kv)) acc ->
    exists g, group_by_domain evs acc = Ok g /\
              Forall (fun kv => Forall well_formed (snd kv)) g.
Proof.
  induction 1 as [|e evs He Hevs IH]; intros acc Hacc; cbn [group_by_domain].
  - eexists; split; [reflexivity | exact Hacc].
  - pose proof He as (_ & _ & Hd & _).
    rewrite (hashable_get e "domain" (VStr "UNKNOWN") Hd eq_refl).
    apply IH, setdefault_append_Forall; assumption.
Qed.

Lemma max_by_timestamp_from_returns (rest : list event) :
  Forall well_formed rest ->
  forall best, well_formed best ->
    exists e, max_by_timestamp_from best rest = Ok e /\ well_formed e.
Proof.
  induction 1 as [|x rest Hx Hrest IH]; intros best Hb; simpl.
  - eexists; split; [reflexivity | exact Hb].
  - destruct (well_formed_stamp x (VNum 0) Hx) as (tx & Htx).
    destruct (well_formed_stamp best (VNum 0) Hb) as (tb & Htb).
    unfold py_gt. rewrite (py_lt_numbers _ _ tb tx Htb Htx). simpl.
    apply IH. destruct (Qltb tb tx); assumption.
Qed.

Lemma most_recent_per_domain_returns (events : list event) (domains : list pyval) :
  Forall well_formed events ->
  exists reps, most_recent_per_domain events domains = Ok reps /\
               Forall well_formed reps.
Proof.
  intros Hev. induction domains as [|d ds (others & Hothers & Hwf)]; simpl.
  - eexists; split; [reflexivity | constructor].
  - assert (Hde : Forall well_formed
              (List.filter (fun e => py_eq (get e "domain" (VStr "UNKNOWN")) d) events)).
    { rewrite List.Forall_forall in *. intros x Hx.
      apply List.filter_In in Hx. apply Hev, Hx. }
    set (de0 := List.filter (fun e => py_eq (get e "domain" (VStr "UNKNOWN")) d) events)
      in *.
    clearbody de0. destruct de0 as [|e0 de].
    + exists others. split; assumption.
    + inversion Hde as [|? ? H0 Hde']; subst.
      destruct (max_by_timestamp_from_returns de Hde' e0 H0) as (r & Hr & Hrwf).
      cbn [max_by_timestamp]. rewrite Hr, Hothers. simpl.
      eexists; split; [reflexivity | constructor; assumption].
Qed.

Lemma most_recent_each_returns (groups : list (list event)) :
  Forall (Forall well_formed) groups ->
  exists reps, most_recent_each groups = Ok reps /\ Forall well_formed reps.
Proof.
  induction 1 as [|g gs Hg Hgs (others & Hothers & Hwf)]; simpl.
  - eexists; split; [reflexivity | constructor].
  - destruct g as [|e0 de].
    + exists others. split; assumption.
    + inversion Hg as [|? ? H0 Hde']; subst.
      destruct (max_by_timestamp_from_returns de Hde' e0 H0) as (r & Hr & Hrwf).
      cbn [max_by_timestamp]. rewrite Hr, Hothers. simpl.
      eexists; split; [reflexivity | constructor; assumption].
Qed.

Lemma py_set_from_returns (l : list pyval) :
  Forall (fun v => hashable v = true) l ->
  forall acc, exists s, py_set_from l acc = Ok s.
Proof.
  induction 1 as [|v l Hv Hl IH]; intros acc; simpl.
  - eexists; reflexivity.
  - rewrite Hv. apply IH.
Qed.

Lemma py_set_field_returns (k : string) (d : pyval) (events : list event) :
  hashable d = true ->
  Forall (fun e => hashable (get e k VNone) = true) events ->
  exists s, py_set (map (fun e => get e k d) events) = Ok s.
Proof.
  intros Hd Hall. apply py_set_from_returns.
  induction Hall as [|e l He Hl IH]; simpl; constructor;
    [apply hashable_get; assumption | exact IH].
Qed.

Lemma dict_set_Forall {A} (P : A -> Prop) (k : string) (v : A) (d : list (string * A)) :
  P v -> Forall (fun kv => P (snd kv)) d -> Forall (fun kv => P (snd kv)) (dict_set k v d).
Proof.
  intros Hv. induction 1 as [|[k0 v0] d H0 Hd IH]; simpl.
  - repeat constructor. exact Hv.
  - destruct (String.eqb k0 k); constructor; assumption.
Qed.

Lemma py_max_from_returns (rest : list pyval) :
  Forall (fun v => num_of v <> None) rest ->
  forall best, num_of best <> None ->
    exists hi, py_max_from best rest = Ok hi /\ num_of hi <> None.
Proof.
  induction 1 as [|v rest Hv Hrest IH]; intros best Hb; simpl.
  - eexists; split; [reflexivity | exact Hb].
  - destruct (num_of v) as [x|] eqn:Hx; [| congruence].
    destruct (num_of best) as [b|] eqn:Hbq; [| congruence].
    unfold py_gt. rewrite (py_lt_numbers _ _ b x Hbq Hx). simpl.
    apply IH. destruct (Qltb b x); congruence.
Qed.

Lemma py_min_from_returns (rest : list pyval) :
  Forall (fun v => num_of v <> None) rest ->
  forall best, num_of best <> None ->
    exists lo, py_min_from best rest = Ok lo /\ num_of lo <> None.
Proof.
  induction 1 as [|v rest Hv Hrest IH]; intros best Hb; simpl.
  - eexists; split; [reflexivity | exact Hb].
  - destruct (num_of v) as [x|] eqn:Hx; [| congruence].
    destruct (num_of best) as [b|] eqn:Hbq; [| congruence].
    rewrite (py_lt_numbers _ _ x b Hx Hbq). simpl.
    apply IH. destruct (Qltb x b); congruence.
Qed.

Lemma any_critical_returns (events : list event) :
  Forall well_formed events -> exists hc, any_critical events = Ok hc.
Proof.
  induction 1 as [|e l He Hl (hc & IH)]; simpl.
  - eexists; reflexivity.
  - destruct He as (_ & _ & _ & _ & s & Hs). unfold severity_is_critical.
    rewrite Hs. simpl. destruct (String.eqb (str_lower s) "critical");
      eexists; [reflexivity | exact IH].
Qed.

Section Returns.

Variable CORRELATION_WINDOW_SECONDS : Z.
Variable clk : nat -> Q.
Variable py_str : pyval -> string.
Hypothesis window_nonzero : CORRELATION_WINDOW_SECONDS <> 0%Z.

Abbreviation groups_ok := (Forall (fun kv : pyval * list event => Forall well_formed (snd kv))).
Abbreviation grouped_ok :=
  (Forall (fun kv : string * list event => Forall well_formed (snd kv))).

Lemma process_returns (ev : event) (w : world) :
  well_formed ev ->
  exists w', process_single_domain_incident clk py_str ev w = (Ok tt, w').
Proof.
  intros Hev. rewrite process_cases.
  destruct (well_formed_stamp ev (VNum (clk (ticks w))) Hev) as (t & Ht).
  unfold numeric. rewrite Ht.
  destruct (update_recent _ _ _ _ _); [eexists; reflexivity |].
  destruct Hev as (_ & _ & _ & _ & s & Hs). unfold severity_is_critical. rewrite Hs.
  eexists; reflexivity.
Qed.

Lemma for_each_returns (events : list event) :
  Forall well_formed events ->
  forall w, exists w',
    for_each (process_single_domain_incident clk py_str) events w = (Ok tt, w').
Proof.
  induction 1 as [|e l He Hl IH]; intros w; simpl.
  - eexists; reflexivity.
  - unfold bind. destruct (process_returns e w He) as (w1 & ->). apply IH.
Qed.

Lemma node_loop_returns (node_grouped : pgroups) :
  groups_ok node_grouped ->
  forall grouped w,
    grouped_ok grouped ->
    exists g w', node_loop clk py_str node_grouped grouped w = (Ok g, w') /\
                 grouped_ok g.
Proof.
  induction 1 as [|[node_id' events] rest Hev Hrest IH]; intros grouped w Hg;
    cbn [node_loop].
  - do 2 eexists; split; [reflexivity | exact Hg].
  - cbn [snd] in Hev.
    destruct (py_set_field_returns "domain" (VStr "UNKNOWN") events eq_refl)
      as (domains & Hs).
    { eapply List.Forall_impl; [| exact Hev]. intros e (_ & _ & Hd & _). exact Hd. }
    unfold bind at 1, lift at 1. rewrite Hs.
    destruct (Nat.leb 2 (length domains)).
    + destruct (most_recent_per_domain_returns events domains Hev) as (reps & Hr & Hwf).
      unfold bind at 1, lift at 1. rewrite Hr.
      apply IH. apply (dict_set_Forall (Forall well_formed)); assumption.
    + unfold bind at 1. destruct (for_each_returns events Hev w) as (w1 & ->).
      apply IH, Hg.
Qed.

Lemma cross_domain_returns (domains_grouped : pgroups) grouped w :
  groups_ok domains_grouped ->
  grouped_ok grouped ->
  exists g w', cross_domain clk py_str domains_grouped grouped w = (Ok g, w') /\
               grouped_ok g.
Proof.
  intros Hdg Hg. unfold cross_domain. destruct (Nat.leb 2 (length domains_grouped)).
  - unfold bind at 1, time_time. unfold bind at 1, lift at 1.
    destruct (most_recent_each_returns (map snd domains_grouped)) as (reps & -> & Hwf).
    { clear -Hdg. induction Hdg; simpl; constructor; assumption. }
    do 2 eexists; split; [reflexivity |].
    apply (dict_set_Forall (Forall well_formed)); assumption.
  - do 2 eexists; split; [reflexivity | exact Hg].
Qed.

Lemma temporal_proximity_returns (events : list event) :
  events <> [] -> Forall well_formed events ->
  exists tp, temporal_proximity CORRELATION_WINDOW_SECONDS events = Ok tp.
Proof.
  intros Hne Hall. destruct events as [|e rest]; [congruence |].
  assert (Hnum : Forall (fun v => num_of v <> None)
                   (map (fun e0 => get e0 "timestamp" (VNum 0)) (e :: rest))).
  { clear -Hall. induction Hall as [|x l Hx Hl IH]; simpl; constructor; [| exact IH].
    destruct (well_formed_stamp x (VNum 0) Hx) as (t & ->). discriminate. }
  cbn [map] in Hnum. inversion Hnum as [|? ? H0 Hrest]; subst.
  unfold temporal_proximity. cbn [map py_max py_min].
  destruct (py_max_from_returns _ Hrest _ H0) as (hi & -> & Hhi).
  destruct (py_min_from_returns _ Hrest _ H0) as (lo & -> & Hlo).
  cbn [res_bind]. unfold py_sub.
  destruct (num_of hi); [| congruence]. destruct (num_of lo); [| congruence].
  cbn [res_bind].
  replace (Z.eqb CORRELATION_WINDOW_SECONDS 0) with false
    by (symmetry; apply Z.eqb_neq, window_nonzero).
  eexists; reflexivity.
Qed.

Lemma synthesize_returns key (events : list event) domains w :
  events <> [] -> Forall well_formed events ->
  exists inc, synthesize CORRELATION_WINDOW_SECONDS clk py_str key events domains w
              = (Ok inc, tick (tick w)).
Proof.
  intros Hne Hall.
  destruct (temporal_proximity_returns events Hne Hall) as (tp & Htp).
  destruct (any_critical_returns events Hall) as (hc & Hhc).
  unfold synthesize, bind, lift, time_time, ret. rewrite Htp, Hhc.
  eexists; reflexivity.
Qed.

Lemma synth_loop_returns (grouped : list (string * list event)) :
  grouped_ok grouped ->
  forall acc w, exists news w',
    synth_loop CORRELATION_WINDOW_SECONDS clk py_str grouped acc w = (Ok news, w').
Proof.
  induction 1 as [|[key events] rest Hev Hrest IH]; intros acc w; cbn [synth_loop].
  - do 2 eexists; reflexivity.
  - cbn [snd] in Hev.
    destruct (py_set_field_returns "vendor" VNone events eq_refl) as (vendors & Hv).
    { eapply List.Forall_impl; [| exact Hev]. intros e (_ & _ & _ & Hd & _). exact Hd. }
    destruct (py_set_field_returns "domain" VNone events eq_refl) as (domains & Hd).
    { eapply List.Forall_impl; [| exact Hev]. intros e (_ & _ & Hd & _). exact Hd. }
    unfold bind at 1, lift at 1. rewrite Hv.
    unfold bind at 1, lift at 1. rewrite Hd.
    destruct (Nat.leb 2 (length events)) eqn:Hlen; cbn [andb]; [| apply IH].
    destruct (Nat.leb 2 (length domains)); [| apply IH].
    assert (Hne : events <> []).
    { intros ->. discriminate. }
    destruct (synthesize_returns key events domains w Hne Hev) as (inc & Hsyn).
    unfold bind at 1. rewrite Hsyn. unfold bind at 1, modify. apply IH.
Qed.

Lemma correlate_returns (w : world) :
  Forall well_formed (normalized_events w) ->
  exists news w', correlate CORRELATION_WINDOW_SECONDS clk py_str w = (Ok news, w').
Proof.
  intros Hall. unfold correlate, bind at 1, gets.
  destruct (group_by_node_returns _ Hall []) as (ng & Hng).
  unfold bind at 1, lift at 1. rewrite Hng.
  destruct (group_by_domain_returns _ Hall []) as (dg & Hdg & Hdgok); [constructor |].
  unfold bind at 1, lift at 1. rewrite Hdg.
  destruct (node_loop_returns ng) with (grouped := @nil (string * list event)) (w := w)
    as (g & w1 & Hloop & Hg).
  { eapply group_by_node_Forall; [exact Hall | constructor | exact Hng]. }
  { constructor. }
  unfold bind at 1. rewrite Hloop.
  destruct (cross_domain_returns dg g w1 Hdgok Hg) as (g' & w2 & Hcross & Hg').
  unfold bind at 1. rewrite Hcross.
  apply synth_loop_returns, Hg'.
Qed.

End Returns.

(** X15: a request on well-formed events never fails.  When the window
    length is not zero and at most 10^300 in magnitude, and every event of
    the window, the new one included, has a number of magnitude at most
    10^300 for a timestamp, hashable values for node_id, domain and vendor,
    and a string (or nothing) for severity, the pass returns: none of its
    comparisons, set constructions, divisions or method calls raises. *)
Theorem X_well_formed_never_raises (W : Z) (clk : nat -> Q) (py_str : pyval -> string)
    (norm : event) (w : world) :
  W <> 0%Z ->
  (Z.abs W <= 10 ^ 300)%Z ->
  Forall well_formed (normalized_events w) ->
  well_formed norm ->
  Forall (fun e => in_float_range (stamp e)) (normalized_events w ++ [norm]) ->
  exists news, fst (ingest W clk py_str norm w) = Ok news.
Proof.
  intros HW _ Hw Hnorm _. rewrite ingest_by_stages. cbv zeta.
  assert (Hall : Forall well_formed (normalized_events w ++ [norm])).
  { apply List.Forall_app. split; [exact Hw | constructor; [exact Hnorm | constructor]]. }
  pose proof (evict_front_returns (clk (ticks w) - window W) _ Hall) as Hev.
  pose proof (evict_front_suffix well_formed (clk (ticks w) - window W) _ Hall) as Hkept.
  destruct (evict_front _ (normalized_events w ++ [norm])) as [r kept].
  cbn [fst snd] in *. subst r.
  match goal with
  | |- context [correlate _ _ _ ?w0] =>
      destruct (correlate_returns W clk py_str HW w0 Hkept) as (news & w' & ->)
  end.
  exists news. reflexivity.
Qed.

Lemma X_well_formed_never_raises_witness :
  exists news, fst (ingest 30 clock_1000 py_str_of third_ran_event ran_only_run) = Ok news.
Proof.
  assert (HW : (30 <> 0)%Z) by lia.
  assert (HB : (Z.abs 30 <= 10 ^ 300)%Z) by (vm_compute; discriminate).
  assert (Hr : Forall (fun e => in_float_range (stamp e))
                 (normalized_events ran_only_run ++ [third_ran_event])).
  { repeat (constructor; [vm_compute; discriminate |]). constructor. }
  assert (Hw : Forall well_formed (normalized_events ran_only_run)).
  { repeat constructor; try (do 2 eexists; split; reflexivity); eexists; reflexivity. }
  assert (Hn : well_formed third_ran_event).
  { repeat constructor; try (do 2 eexists; split; reflexivity); eexists; reflexivity. }
  exact (X_well_formed_never_raises 30 clock_1000 py_str_of third_ran_event
           ran_only_run HW HB Hw Hn Hr).
Defined.

(** ** Two domains in the window give a cross-domain incident *)

Lemma Qred_key (p q : Q) :
  Qeq_bool p q = true <->
  HNum (Qnum (Qred p)) (Qden (Qred p)) = HNum (Qnum (Qred q)) (Qden (Qred q)).
Proof.
  rewrite Qeq_bool_iff. split.
  - intros H. rewrite (Qred_complete p q H). reflexivity.
  - intros [= Hn Hd]. rewrite <- (Qred_correct p), <- (Qred_correct q).
    destruct (Qred p), (Qred q). simpl in *. subst. reflexivity.
Qed.

Lemma key_of_bool (x : bool) : key_of (VBool x) = key_of (VNum (if x then 1 else 0)).
Proof. destruct x; reflexivity. Qed.

Lemma key_of_num (p q : Q) :
  Qeq_bool p q = true <-> key_of (VNum p) = key_of (VNum q).
Proof.
  cbn [key_of]. rewrite Qred_key. split; congruence.
Qed.

(** On hashable values, [==] is the identity of set members and dict keys. *)
Lemma py_eq_key_of (a b : pyval) :
  hashable a = true -> hashable b = true ->
  (py_eq a b = true <-> key_of a = key_of b).
Proof.
  destruct a as [|x|p|s|l|d], b as [|y|q|t|m|e]; intros Ha Hb;
    try discriminate Ha; try discriminate Hb;
    try (rewrite !key_of_bool); try (apply key_of_num);
    try (cbn; split; discriminate).
  - split; reflexivity.
  - cbn [py_eq]. rewrite <- key_of_num. destruct x, y; cbn; split; auto; discriminate.
  - cbn. rewrite String.eqb_eq. split; congruence.
Qed.

Lemma setdefault_append_keys (k : pyval) (x : event) (d : pgroups) :
  hashable k = true ->
  Forall (fun kv => hashable (fst kv) = true) d ->
  (forall key, In key (map (fun kv => key_of (fst kv)) (setdefault_append k x d)) <->
               In key (map (fun kv => key_of (fst kv)) d) \/ key = key_of k) /\
  (List.NoDup (map (fun kv => key_of (fst kv)) d) ->
   List.NoDup (map (fun kv => key_of (fst kv)) (setdefault_append k x d))).
Proof.
  intros Hk. induction 1 as [|[k' xs] d Hk' Hd [IHin IHnd]]; cbn [setdefault_append].
  - split; [intros key; simpl; intuition congruence |].
    intros _. simpl. constructor; [intros [] | constructor].
  - cbn [fst] in Hk'. destruct (py_eq k' k) eqn:Heq.
    + apply (py_eq_key_of k' k Hk' Hk) in Heq. split; [| auto].
      intros key. simpl. rewrite Heq. intuition congruence.
    + assert (Hne : key_of k' <> key_of k).
      { intros E. apply (py_eq_key_of k' k Hk' Hk) in E. congruence. }
      split.
      * intros key. cbn [map In fst]. rewrite IHin. tauto.
      * intros Hnd. cbn [map fst] in *. inversion Hnd as [|? ? Hnotin Hnd']; subst.
        constructor; [| apply IHnd, Hnd'].
        rewrite IHin. intros [Hin | E]; [exact (Hnotin Hin) | exact (Hne E)].
Qed.

Lemma setdefault_append_members (k : pyval) (x : event) (d : pgroups) (e : event) :
  In e (flat_map snd (setdefault_append k x d)) <-> In e (flat_map snd d) \/ e = x.
Proof.
  induction d as [|[k' xs] d IH]; cbn [setdefault_append].
  - simpl. intuition congruence.
  - destruct (py_eq k' k); cbn [flat_map snd]; rewrite !in_app_iff.
    + simpl. intuition congruence.
    + rewrite IH. tauto.
Qed.

Lemma setdefault_append_keyed (x : event) (d : pgroups) :
  hashable (get x "domain" (VStr "UNKNOWN")) = true ->
  keyed d -> keyed (setdefault_append (get x "domain" (VStr "UNKNOWN")) x d).
Proof.
  intros Hx [Hnd Hall]. split.
  - apply setdefault_append_keys; [exact Hx | | exact Hnd].
    eapply List.Forall_impl; [| exact Hall]. intros kv H. apply H.
  - clear Hnd. induction Hall as [|[k' xs] d (Hk' & Hne & Hxs) Hd IH];
      cbn [setdefault_append].
    + constructor; [| constructor]. cbn [fst snd].
      split; [exact Hx |]. split; [discriminate |]. constructor; [reflexivity | constructor].
    + cbn [fst snd] in *. destruct (py_eq k' _) eqn:Heq.
      * apply (py_eq_key_of _ _ Hk' Hx) in Heq.
        constructor; [| exact Hd]. cbn [fst snd].
        split; [exact Hk' |]. split; [destruct xs; discriminate |].
        apply List.Forall_app. split; [exact Hxs |].
        constructor; [symmetry; exact Heq | constructor].
      * constructor; [| exact IH]. cbn [fst snd]. auto.
Qed.

Lemma group_by_domain_keyed (evs : list event) :
  forall acc g,
    keyed acc ->
    group_by_domain evs acc = Ok g ->
    keyed g /\
    (forall e, In e (flat_map snd g) <-> In e (flat_map snd acc) \/ In e evs).
Proof.
  induction evs as [|x evs IH]; intros acc g Hacc Hrun; cbn [group_by_domain] in Hrun.
  - injection Hrun as <-. split; [exact Hacc |]. intros e. simpl. tauto.
  - destruct (hashable (get x "domain" (VStr "UNKNOWN"))) eqn:Hx; [| discriminate].
    destruct (IH _ _ (setdefault_append_keyed x acc Hx Hacc) Hrun) as [Hg Hmem].
    split; [exact Hg |]. intros e. rewrite Hmem, setdefault_append_members. simpl.
    intuition congruence.
Qed.

Lemma most_recent_each_keyed (dg : pgroups) :
  keyed dg ->
  forall reps,
    most_recent_each (map snd dg) = Ok reps ->
    Forall2 (fun kv r =>
               In r (snd kv) /\
               (num_of (get r "timestamp" (VNum 0)) <> None ->
                forall x, In x (snd kv) -> stamp x <= stamp r) /\
               key_of (get r "domain" (VStr "UNKNOWN")) = key_of (fst kv)) dg reps.
Proof.
  intros [_ Hall]. induction Hall as [|[k xs] dg (_ & Hne & Hxs) Hdg IH];
    intros reps Hrun; cbn [map most_recent_each snd] in Hrun.
  - injection Hrun as <-. constructor.
  - cbn [snd] in *. destruct xs as [|e0 de]; [congruence |].
    cbn iota in Hrun.
    destruct (max_by_timestamp (e0 :: de)) as [r|] eqn:Hmax;
      cbn [res_bind] in Hrun; [| discriminate Hrun].
    match type of Hrun with
    | res_bind ?m _ = _ => destruct m as [others|] eqn:Hothers
    end; cbn [res_bind] in Hrun; [| discriminate Hrun].
    injection Hrun as <-.
    constructor; [| apply IH; reflexivity].
    cbn [fst snd]. destruct (max_by_timestamp_spec _ _ Hmax) as [Hin Hle].
    split; [exact Hin |]. split; [exact Hle |].
    rewrite List.Forall_forall in Hxs. apply Hxs, Hin.
Qed.

Lemma Forall2_in_l {A B} (P : A -> B -> Prop) (l1 : list A) (l2 : list B) :
  Forall2 P l1 l2 -> forall a, In a l1 -> exists b, In b l2 /\ P a b.
Proof.
  induction 1 as [|x y l1 l2 Hxy Hrest IH]; intros a; [intros [] |].
  intros [<- | Ha]; [exists y; split; [left; reflexivity | exact Hxy] |].
  destruct (IH a Ha) as (b & Hb & Hab). exists b. split; [right; exact Hb | exact Hab].
Qed.

Lemma Forall2_in_r {A B} (P : A -> B -> Prop) (l1 : list A) (l2 : list B) :
  Forall2 P l1 l2 -> forall b, In b l2 -> exists a, In a l1 /\ P a b.
Proof.
  induction 1 as [|x y l1 l2 Hxy Hrest IH]; intros b; [intros [] |].
  intros [<- | Hb]; [exists x; split; [left; reflexivity | exact Hxy] |].
  destruct (IH b Hb) as (a & Ha & Hab). exists a. split; [right; exact Ha | exact Hab].
Qed.

Lemma Forall2_map_eq {A B C} (f : A -> C) (g : B -> C) (l1 : list A) (l2 : list B) :
  Forall2 (fun a b => g b = f a) l1 l2 -> map g l2 = map f l1.
Proof. induction 1 as [|x y l1 l2 Hxy Hrest IH]; simpl; congruence. Qed.

Lemma py_in_key_of (v : pyval) (acc : list pyval) :
  hashable v = true -> Forall (fun a => hashable a = true) acc ->
  ~ In (key_of v) (map key_of acc) -> py_in v acc = false.
Proof.
  intros Hv Hacc Hnotin. unfold py_in. apply not_true_is_false. intros Hex.
  apply existsb_exists in Hex as (a & Ha & Heq).
  rewrite List.Forall_forall in Hacc.
  apply (py_eq_key_of v a Hv (Hacc a Ha)) in Heq.
  apply Hnotin. rewrite Heq. apply in_map, Ha.
Qed.

Lemma py_set_from_nodup (l : list pyval) :
  forall acc,
    Forall (fun a => hashable a = true) (acc ++ l) ->
    List.NoDup (map key_of (acc ++ l)) ->
    py_set_from l acc = Ok (acc ++ l).
Proof.
  induction l as [|v l IH]; intros acc Hh Hnd; simpl.
  - rewrite app_nil_r. reflexivity.
  - pose proof Hh as Hh'. apply List.Forall_app in Hh' as [Hacc Hl].
    inversion Hl as [|? ? Hv Hl']; subst. rewrite Hv.
    rewrite (py_in_key_of v acc Hv Hacc).
    + replace (acc ++ v :: l) with ((acc ++ [v]) ++ l) in *
        by (rewrite <- app_assoc; reflexivity).
      apply IH; assumption.
    + rewrite map_app in Hnd. cbn [map] in Hnd.
      apply List.NoDup_remove_2 in Hnd. intros Hin. apply Hnd, in_or_app. left. exact Hin.
Qed.

Lemma dict_set_fresh {A} (k : string) (v : A) (d : list (string * A)) :
  ~ In k (map fst d) -> dict_set k v d = d ++ [(k, v)].
Proof.
  induction d as [|[k0 v0] d IH]; simpl; intros Hnotin; [reflexivity |].
  destruct (String.eqb k0 k) eqn:Hk.
  - apply String.eqb_eq in Hk. tauto.
  - rewrite IH; [reflexivity | tauto].
Qed.

Lemma get_default (e : dict) (k : string) (d1 d2 : pyval) :
  dict_lookup k e <> None -> get e k d1 = get e k d2.
Proof. unfold get. destruct (dict_lookup k e); congruence. Qed.

Lemma two_members {A} (a b : A) (l : list A) :
  In a l -> In b l -> a <> b -> (2 <= length l)%nat.
Proof.
  destruct l as [|x [|y l]]; simpl; [tauto | | lia].
  intros [<- | []] [<- | []] H. congruence.
Qed.

Lemma bind_assoc {A B C} (m : M A) (k : A -> M B) (h : B -> M C) (w : world) :
  bind (bind m k) h w = bind m (fun a => bind (k a) h) w.
Proof. unfold bind. destruct (m w) as [[a|x] w1]; reflexivity. Qed.

Lemma bind_ext {A B} (m : M A) (k k' : A -> M B) (w : world) :
  (forall a w1, k a w1 = k' a w1) -> bind m k w = bind m k' w.
Proof. intros H. unfold bind. destruct (m w) as [[a|x] w1]; [apply H | reflexivity]. Qed.

Section CrossDomain.

Variable CORRELATION_WINDOW_SECONDS : Z.
Variable clk : nat -> Q.
Variable py_str : pyval -> string.
Hypothesis window_nonzero : CORRELATION_WINDOW_SECONDS <> 0%Z.

Lemma node_loop_node_keys (node_grouped : pgroups) :
  forall grouped w g w',
    (forall k, In k (map fst grouped) -> exists s, k = ("node-" ++ s)%string) ->
    node_loop clk py_str node_grouped grouped w = (Ok g, w') ->
    forall k, In k (map fst g) -> exists s, k = ("node-" ++ s)%string.
Proof.
  induction node_grouped as [|[node_id' events] rest IH]; intros grouped w g w' Hk;
    cbn [node_loop].
  - intros [= <- <-]. exact Hk.
  - unfold bind at 1, lift at 1.
    destruct (py_set _) as [domains|x]; [| discriminate].
    destruct (Nat.leb 2 (length domains)).
    + unfold bind at 1, lift at 1.
      destruct (most_recent_per_domain events domains) as [reps|x]; [| discriminate].
      apply IH. intros k Hin. apply dict_set_keys in Hin as [-> | Hin];
        [eexists; reflexivity | apply Hk, Hin].
    + unfold bind at 1.
      destruct (for_each _ events w) as [[[]|x] w1]; [| discriminate].
      apply IH, Hk.
Qed.

(** The loop over the groups, one part of the dict after the other. *)
Lemma synth_loop_app (g1 g2 : list (string * list event)) :
  forall acc w,
    synth_loop CORRELATION_WINDOW_SECONDS clk py_str (g1 ++ g2) acc w =
    bind (synth_loop CORRELATION_WINDOW_SECONDS clk py_str g1 acc)
         (fun acc' => synth_loop CORRELATION_WINDOW_SECONDS clk py_str g2 acc') w.
Proof.
  induction g1 as [|[key events] g1 IH]; intros acc w; cbn [app synth_loop].
  - reflexivity.
  - rewrite bind_assoc. apply bind_ext. intros vendors w1.
    rewrite bind_assoc. apply bind_ext. intros domains w2.
    destruct (Nat.leb 2 (length events) && Nat.leb 2 (length domains)); [| apply IH].
    rewrite bind_assoc. apply bind_ext. intros inc w3.
    rewrite bind_assoc. apply bind_ext. intros u w4. apply IH.
Qed.

Lemma synth_loop_one key (events : list event) (domains : list pyval) acc w :
  Forall well_formed events ->
  py_set (map (fun ev => get ev "domain" VNone) events) = Ok domains ->
  (2 <= length events)%nat -> (2 <= length domains)%nat ->
  exists inc w',
    synth_loop CORRELATION_WINDOW_SECONDS clk py_str [(key, events)] acc w
      = (Ok (acc ++ [inc]), w') /\
    node_id inc = VStr key /\ supporting_events inc = events.
Proof.
  intros Hwf Hd Hlen Hdl. cbn [synth_loop].
  destruct (py_set_field_returns "vendor" VNone events eq_refl) as (vendors & Hv).
  { eapply List.Forall_impl; [| exact Hwf]. intros e (_ & _ & _ & H & _). exact H. }
  unfold bind at 1, lift at 1. rewrite Hv.
  unfold bind at 1, lift at 1. rewrite Hd.
  replace (Nat.leb 2 (length events)) with true by (symmetry; apply Nat.leb_le, Hlen).
  replace (Nat.leb 2 (length domains)) with true by (symmetry; apply Nat.leb_le, Hdl).
  cbn [andb].
  assert (Hne : events <> []) by (intros ->; simpl in Hlen; lia).
  destruct (synthesize_returns CORRELATION_WINDOW_SECONDS clk py_str window_nonzero
              key events domains w Hne Hwf) as (inc & Hsyn).
  unfold bind at 1. rewrite Hsyn. unfold bind at 1, modify, ret.
  exists inc. eexists. split; [reflexivity |].
  destruct (synthesize_inv CORRELATION_WINDOW_SECONDS clk py_str
              key events domains w inc) as (tp & hc & _ & _ & Hk & Hs & _);
    [rewrite Hsyn; reflexivity | split; assumption].
Qed.

Lemma cross_domain_two (dg : pgroups) (g : list (string * list event)) (w : world) :
  (2 <= length dg)%nat ->
  Forall (fun kv => Forall well_formed (snd kv)) dg ->
  (forall k, In k (map fst g) -> exists s, k = ("node-" ++ s)%string) ->
  exists reps s w',
    most_recent_each (map snd dg) = Ok reps /\
    cross_domain clk py_str dg g w
      = (Ok (g ++ [(("cross-domain-" ++ s)%string, reps)]), w').
Proof.
  intros Hlen Hdg Hk. unfold cross_domain.
  replace (Nat.leb 2 (length dg)) with true by (symmetry; apply Nat.leb_le, Hlen).
  unfold bind at 1, time_time. unfold bind at 1, lift at 1.
  destruct (most_recent_each_returns (map snd dg)) as (reps & Hreps & _).
  { clear -Hdg. induction Hdg; simpl; constructor; assumption. }
  rewrite Hreps. unfold ret. exists reps. do 2 eexists. split; [reflexivity |].
  rewrite dict_set_fresh; [reflexivity |].
  intros Hin. destruct (Hk _ Hin) as (s & Hs). simpl in Hs. discriminate Hs.
Qed.

Lemma correlate_cross_domain (w : world) :
  Forall well_formed (normalized_events w) ->
  Forall (fun e => dict_lookup "domain" e <> None) (normalized_events w) ->
  (exists e1 e2, In e1 (normalized_events w) /\ In e2 (normalized_events w) /\
                 py_eq (get e1 "domain" VNone) (get e2 "domain" VNone) = false) ->
  exists news inc w',
    correlate CORRELATION_WINDOW_SECONDS clk py_str w = (Ok (news ++ [inc]), w') /\
    (exists s, node_id inc = VStr ("cross-domain-" ++ s)%string) /\
    (2 <= length (supporting_events inc))%nat /\
    distinct_domains (supporting_events inc) = length (supporting_events inc) /\
    forall e, In e (normalized_events w) ->
      exists r, In r (supporting_events inc) /\ In r (normalized_events w) /\
                py_eq (get r "domain" VNone) (get e "domain" VNone) = true /\
                stamp e <= stamp r.
Proof.
  intros Hwf Hdom (e1 & e2 & H1 & H2 & Hne).
  rewrite List.Forall_forall in Hdom.
  assert (Hd : forall e, In e (normalized_events w) ->
                 get e "domain" VNone = get e "domain" (VStr "UNKNOWN")).
  { intros e He. apply get_default, Hdom, He. }
  assert (Hh : forall e, In e (normalized_events w) ->
                 hashable (get e "domain" (VStr "UNKNOWN")) = true).
  { intros e He. rewrite <- (Hd e He). rewrite List.Forall_forall in Hwf.
    destruct (Hwf e He) as (_ & _ & H & _). exact H. }
  unfold correlate, bind at 1, gets.
  destruct (group_by_node_returns _ Hwf []) as (ng & Hng).
  unfold bind at 1, lift at 1. rewrite Hng.
  destruct (group_by_domain_returns _ Hwf []) as (dg & Hdg & Hdgok); [constructor |].
  unfold bind at 1, lift at 1. rewrite Hdg.
  destruct (group_by_domain_keyed (normalized_events w) [] dg) as [Hkeyed Hmem];
    [split; constructor | exact Hdg |].
  assert (Hmem' : forall e, In e (normalized_events w) <->
                    exists kv, In kv dg /\ In e (snd kv)).
  { intros e. rewrite <- in_flat_map, Hmem. simpl. tauto. }
  destruct (node_loop_returns clk py_str ng) with (grouped := @nil (string * list event))
    (w := w) as (g & w1 & Hloop & Hg).
  { eapply group_by_node_Forall; [exact Hwf | constructor | exact Hng]. }
  { constructor. }
  unfold bind at 1. rewrite Hloop.
  pose proof (node_loop_node_keys ng [] w g w1 (fun k (H : In k []) => match H with end)
                Hloop) as Hgk.
  pose proof Hkeyed as [Hnd Hgroups]. rewrite List.Forall_forall in Hgroups.
  assert (Hkey : forall kv e, In kv dg -> In e (snd kv) ->
                   key_of (get e "domain" (VStr "UNKNOWN")) = key_of (fst kv)).
  { intros kv e Hkv He. destruct (Hgroups kv Hkv) as (_ & _ & Hall).
    rewrite List.Forall_forall in Hall. apply Hall, He. }
  assert (Hlen : (2 <= length dg)%nat).
  { destruct (proj1 (Hmem' e1) H1) as (kv1 & Hkv1 & Hin1).
    destruct (proj1 (Hmem' e2) H2) as (kv2 & Hkv2 & Hin2).
    apply (two_members kv1 kv2); [exact Hkv1 | exact Hkv2 |].
    intros ->. rewrite (Hd e1 H1), (Hd e2 H2) in Hne.
    assert (E : key_of (get e1 "domain" (VStr "UNKNOWN"))
                = key_of (get e2 "domain" (VStr "UNKNOWN"))).
    { rewrite (Hkey kv2 e1 Hkv2 Hin1), (Hkey kv2 e2 Hkv2 Hin2). reflexivity. }
    apply (py_eq_key_of _ _ (Hh e1 H1) (Hh e2 H2)) in E. congruence. }
  destruct (cross_domain_two dg g w1 Hlen Hdgok Hgk) as (reps & s & w2 & Hreps & Hcross).
  unfold bind at 1. rewrite Hcross. rewrite synth_loop_app.
  destruct (synth_loop_returns CORRELATION_WINDOW_SECONDS clk py_str window_nonzero
              g Hg [] w2) as (news & w3 & Hs1).
  unfold bind at 1. rewrite Hs1.
  pose proof (most_recent_each_keyed dg Hkeyed reps Hreps) as Hpairs.
  assert (Hrlen : length reps = length dg).
  { symmetry. eapply Forall2_length, Hpairs. }
  assert (Hrin : forall r, In r reps -> In r (normalized_events w)).
  { intros r Hr. destruct (Forall2_in_r _ _ _ Hpairs r Hr) as (kv & Hkv & Hin & _).
    apply Hmem'. exists kv. split; assumption. }
  assert (Hrwf : Forall well_formed reps).
  { rewrite List.Forall_forall in *. intros r Hr. apply Hwf, Hrin, Hr. }
  assert (Hset : py_set (map (fun ev => get ev "domain" VNone) reps)
                 = Ok (map (fun ev => get ev "domain" VNone) reps)).
  { apply (py_set_from_nodup _ []); cbn [app].
    - apply List.Forall_map. eapply List.Forall_impl; [| exact Hrwf].
      intros e (_ & _ & H & _). exact H.
    - assert (Hm : map key_of (map (fun ev : event => get ev "domain" VNone) reps)
                   = map (fun kv : pyval * list event => key_of (fst kv)) dg).
      { rewrite map_map.
        transitivity (map (fun e : event => key_of (get e "domain" (VStr "UNKNOWN"))) reps).
        - apply map_ext_in. intros r Hr. rewrite (Hd r (Hrin r Hr)). reflexivity.
        - apply Forall2_map_eq.
          eapply Forall2_impl; [exact Hpairs |]. intros kv r (_ & _ & H). exact H. }
      exact (eq_ind_r (fun l => List.NoDup l) Hnd Hm). }
  destruct (synth_loop_one ("cross-domain-" ++ s)%string reps _ news w3 Hrwf Hset)
    as (inc & w' & Hrun & Hk & Hs);
    [exact (eq_ind_r (fun n => (2 <= n)%nat) Hlen Hrlen)
    | rewrite length_map; exact (eq_ind_r (fun n => (2 <= n)%nat) Hlen Hrlen) |].
  exists news, inc, w'. split; [exact Hrun |]. split; [exists s; exact Hk |].
  rewrite Hs. split; [exact (eq_ind_r (fun n => (2 <= n)%nat) Hlen Hrlen) |]. split.
  - unfold distinct_domains. rewrite <- (py_set_distinct _ _ Hset). apply length_map.
  - intros e He. destruct (proj1 (Hmem' e) He) as (kv & Hkv & Hin).
    destruct (Forall2_in_l _ _ _ Hpairs kv Hkv) as (r & Hr & Hrkv & Hmax & Hkr).
    exists r. split; [exact Hr |]. split; [apply Hrin, Hr |]. split.
    + rewrite (Hd r (Hrin r Hr)), (Hd e He).
      apply py_eq_key_of; [apply Hh, Hrin, Hr | apply Hh, He |].
      rewrite Hkr. symmetry. apply Hkey; assumption.
    + apply Hmax; [| exact Hin].
      rewrite List.Forall_forall in Hrwf.
      destruct (well_formed_stamp r (VNum 0) (Hrwf r Hr)) as (t & ->). discriminate.
Qed.

End CrossDomain.

(** X16: two domains in the window always give a cross-domain incident.
    When the window length is not zero and at most 10^300 in magnitude, the
    events of the window (the new one included) are well formed, with
    timestamps of magnitude at most 10^300, and carry a domain, and two of
    the events left after eviction differ in domain, the request returns,
    and the last
    incident it returns is keyed cross-domain-...; its supporting events are
    events of the window, at least two, no two of one domain; and for every
    event of the window it has a supporting event of the same domain whose
    timestamp is at least as large. *)
Theorem X_two_domains_give_cross_incident (W : Z) (clk : nat -> Q)
    (py_str : pyval -> string) (norm : event) (w : world) :
  let kept := snd (evict_front (clk (ticks w) - window W) (normalized_events w ++ [norm])) in
  W <> 0%Z ->
  (Z.abs W <= 10 ^ 300)%Z ->
  Forall well_formed (normalized_events w ++ [norm]) ->
  Forall (fun e => in_float_range (stamp e)) (normalized_events w ++ [norm]) ->
  Forall (fun e => dict_lookup "domain" e <> None) (normalized_events w ++ [norm]) ->
  (exists e1 e2, In e1 kept /\ In e2 kept /\
                 py_eq (get e1 "domain" VNone) (get e2 "domain" VNone) = false) ->
  exists news inc,
    fst (ingest W clk py_str norm w) = Ok (news ++ [inc]) /\
    (exists s, node_id inc = VStr ("cross-domain-" ++ s)%string) /\
    (2 <= length (supporting_events inc))%nat /\
    distinct_domains (supporting_events inc) = length (supporting_events inc) /\
    forall e, In e kept ->
      exists r, In r (supporting_events inc) /\ In r kept /\
                py_eq (get r "domain" VNone) (get e "domain" VNone) = true /\
                stamp e <= stamp r.
Proof.
  intros kept HW _ Hwf _ Hdom Htwo. subst kept. rewrite ingest_by_stages. cbv zeta.
  pose proof (evict_front_returns (clk (ticks w) - window W) _ Hwf) as Hev.
  pose proof (evict_front_suffix well_formed (clk (ticks w) - window W) _ Hwf) as Hkwf.
  pose proof (evict_front_suffix (fun e => dict_lookup "domain" e <> None)
                (clk (ticks w) - window W) _ Hdom) as Hkdom.
  destruct (evict_front _ (normalized_events w ++ [norm])) as [r kept].
  cbn [fst snd] in *. subst r.
  match goal with
  | |- context [correlate _ _ _ ?w0] =>
      destruct (correlate_cross_domain W clk py_str HW w0 Hkwf Hkdom Htwo)
        as (news & inc & w' & Hrun & Hrest)
  end.
  exists news, inc. rewrite Hrun. split; [reflexivity | exact Hrest].
Qed.

Lemma X_two_domains_give_cross_incident_witness :
  exists news inc,
    fst (ingest 30 clock_1000 py_str_of core_9_event one_minor_alarm_run)
      = Ok (news ++ [inc]) /\
    (exists s, node_id inc = VStr ("cross-domain-" ++ s)%string) /\
    (2 <= length (supporting_events inc))%nat.
Proof.
  assert (HW : (30 <> 0)%Z) by lia.
  assert (Hwf : Forall well_formed (normalized_events one_minor_alarm_run ++ [core_9_event])).
  { repeat constructor; try (do 2 eexists; split; reflexivity); eexists; reflexivity. }
  assert (Hdom : Forall (fun e => dict_lookup "domain" e <> None)
                   (normalized_events one_minor_alarm_run ++ [core_9_event])).
  { repeat constructor; discriminate. }
  assert (Hkept : snd (evict_front (clock_1000 (ticks one_minor_alarm_run) - window 30)
                         (normalized_events one_minor_alarm_run ++ [core_9_event]))
                  = [cell_1_event; core_9_event]) by (vm_compute; reflexivity).
  assert (HB : (Z.abs 30 <= 10 ^ 300)%Z) by (vm_compute; discriminate).
  assert (Hr : Forall (fun e => in_float_range (stamp e))
                 (normalized_events one_minor_alarm_run ++ [core_9_event])).
  { repeat (constructor; [vm_compute; discriminate |]). constructor. }
  destruct (X_two_domains_give_cross_incident 30 clock_1000 py_str_of core_9_event
              one_minor_alarm_run HW HB Hwf Hr Hdom)
    as (news & inc & Hrun & Hkey & Hlen & _).
  { exists cell_1_event, core_9_event. rewrite Hkept.
    split; [left; reflexivity |]. split; [right; left; reflexivity | reflexivity]. }
  exists news, inc. exact (conj Hrun (conj Hkey Hlen)).
Defined.

(** ** The orchestrator's log entry *)

(** X17: an /orchestrate request runs no correlation pass: it reads the
    clock twice, leaves both incident stores as they are and evicts
    nothing.  When params is a dict (or is missing) it returns and appends
    one event to the window: an event with the seven canonical keys, of
    domain ORCHESTRATOR, on the node named by target (by default
    orchestrator), stamped with the second clock reading, and well formed
    whenever the target is hashable.  When params is anything else it
    raises AttributeError and the window is unchanged. *)
Theorem X_orchestrate_logs_one_event (clk : nat -> Q) (py_str : pyval -> string)
    (action : dict) (w : world) :
  let r := orchestrate clk py_str action w in
  incidents (snd r) = incidents w /\
  single_domain_incidents (snd r) = single_domain_incidents w /\
  ticks (snd r) = S (S (ticks w)) /\
  match get action "params" (VDict []) with
  | VDict params =>
      fst r = Ok tt /\
      exists ev,
        normalized_events (snd r) = normalized_events w ++ [ev] /\
        canonical ev /\
        get ev "domain" VNone = VStr "ORCHESTRATOR" /\
        get ev "node_id" VNone = get params "target" (VStr "orchestrator") /\
        get ev "timestamp" VNone = VNum (clk (S (ticks w))) /\
        (hashable (get params "target" (VStr "orchestrator")) = true -> well_formed ev)
  | _ =>
      fst r = Raise AttributeError /\
      normalized_events (snd r) = normalized_events w
  end.
Proof.
  cbv zeta. unfold orchestrate, bind, time_time, lift, modify.
  cbn [ticks]. destruct (get action "params" (VDict [])) as [| | | | |params];
    cbn [fst snd incidents single_domain_incidents ticks normalized_events
         set_normalized_events];
    try (split; [reflexivity |]; split; [reflexivity |]; split; [reflexivity |];
         split; reflexivity).
  split; [reflexivity |]. split; [reflexivity |]. split; [reflexivity |].
  split; [reflexivity |]. eexists. split; [reflexivity |].
  split; [reflexivity |]. split; [reflexivity |]. split; [reflexivity |].
  split; [reflexivity |]. intros Hh.
  split; [do 2 eexists; split; reflexivity |].
  split; [exact Hh |]. split; [reflexivity |]. split; [reflexivity |].
  eexists; reflexivity.
Qed.
